(** * sitesweep-scanner: the deep crawl of [server.js]

    A shallow embedding of the crawl orchestrator ([deepCrawl]) and of the
    helpers it relies on ([normalizeUrl], [extractPageContent],
    [discoverLinks], [extractSocials]), followed by the properties of the
    crawl report that the specification states.

    Conventions.
    - A JavaScript string is a [string] of code units below 256.
    - The platform's [URL] class is not part of the repository: it is the
      interface [URLParser], and every theorem holds for any parser.
      [RefURL] is a small reference parser used to run examples.
    - The browser is an oracle ([World]): what each navigation yields and
      what each call of [Date.now()] reads. *)

From Stdlib Require Import String Ascii List ZArith Lia Bool Arith.
From Stdlib Require Import Sorted Permutation.
From Equations Require Import Equations.
Import ListNotations.
Open Scope string_scope.
Open Scope nat_scope.

Set Implicit Arguments.

(** ** JavaScript string primitives *)

Module JS.

Definition chars (s : string) : list ascii := list_ascii_of_string s.
Definition str (l : list ascii) : string := string_of_list_ascii l.

Definition code (c : ascii) : nat := nat_of_ascii c.

(** [WhiteSpace] and [LineTerminator] code units below 256: what [trim]
    removes and what [\s] matches. *)
Definition isWhiteSpace (c : ascii) : bool :=
  let n := code c in
  ((9 <=? n) && (n <=? 13)) || (n =? 32) || (n =? 160).

Definition isDigit (c : ascii) : bool :=
  let n := code c in (48 <=? n) && (n <=? 57).

Definition isUpper (c : ascii) : bool :=
  let n := code c in (65 <=? n) && (n <=? 90).

Definition isLower (c : ascii) : bool :=
  let n := code c in (97 <=? n) && (n <=? 122).

(** [\w]: letters, digits and the underscore. *)
Definition isWord (c : ascii) : bool :=
  isUpper c || isLower c || isDigit c || (code c =? 95).

(** Case folding of the [i] flag: only ASCII letters fold together. *)
Definition foldChar (c : ascii) : ascii :=
  if isUpper c then ascii_of_nat (code c + 32) else c.

(** [String.prototype.toLowerCase] on code units below 256. *)
Definition lowerChar (c : ascii) : ascii :=
  let n := code c in
  if isUpper c then ascii_of_nat (n + 32)
  else if (192 <=? n) && (n <=? 222) && negb (n =? 215)
       then ascii_of_nat (n + 32)
       else c.

Fixpoint smap (f : ascii -> ascii) (s : string) : string :=
  match s with
  | EmptyString => EmptyString
  | String c r => String (f c) (smap f r)
  end.

Definition toLowerCase (s : string) : string := smap lowerChar s.
Definition foldCase (s : string) : string := smap foldChar s.

Definition startsWith (s p : string) : bool := String.prefix p s.

Fixpoint dropWhile (f : ascii -> bool) (l : list ascii) : list ascii :=
  match l with
  | [] => []
  | c :: r => if f c then dropWhile f r else l
  end.

Definition trimStart (s : string) : string :=
  str (dropWhile isWhiteSpace (chars s)).

Definition trimEnd (s : string) : string :=
  str (rev (dropWhile isWhiteSpace (rev (chars s)))).

Definition trim (s : string) : string := trimEnd (trimStart s).

Definition endsWith (s p : string) : bool :=
  let n := String.length s in
  let m := String.length p in
  (m <=? n) && String.eqb (String.substring (n - m) m s) p.

(** [s.indexOf(p) >= 0]. *)
Fixpoint includes (s p : string) : bool :=
  String.prefix p s ||
  match s with
  | EmptyString => false
  | String _ r => includes r p
  end.

(** [s.split(c)[0]] for a one-character separator. *)
Fixpoint beforeChar (c : ascii) (s : string) : string :=
  match s with
  | EmptyString => EmptyString
  | String d r => if Ascii.eqb d c then EmptyString
                  else String d (beforeChar c r)
  end.

Fixpoint dropn (n : nat) (s : string) : string :=
  match n, s with
  | O, _ => s
  | S k, EmptyString => EmptyString
  | S k, String _ r => dropn k r
  end.

(** [s.replace(p, '')] with a string pattern: the first occurrence of
    [p] is removed. *)
Fixpoint removeFirst (p s : string) : string :=
  if String.prefix p s then dropn (String.length p) s
  else match s with
       | EmptyString => EmptyString
       | String c r => String c (removeFirst p r)
       end.

(** [s.substring(0, n)]. *)
Definition substring0 (n : nat) (s : string) : string :=
  String.substring 0 n s.

(** A JavaScript string in a boolean position. *)
Definition truthy (s : string) : bool :=
  negb (String.eqb s "").

End JS.

(** ** The platform's URL class *)

Record URL : Type := mkURL
  { href : string;
    protocol : string;
    hostname : string }.

(** [new_URL input base] is [new URL(input, base)]; [None] when the
    constructor throws [TypeError]. *)
Class URLParser : Type :=
  { new_URL : string -> option string -> option URL }.

(** ** Errors thrown by the crawl *)

Inductive Error : Type :=
| UrlRequired          (* 'URL is required' *)
| InvalidUrl           (* 'Invalid URL. Provide a valid http(s) URL.' *)
| ProtocolNotAllowed   (* 'Only HTTP/HTTPS protocols are allowed.' *)
| SiteUnreachable      (* 'Target site unreachable or timed out.' *)
| BrowserFailure.      (* any rejection of a browser call left uncaught *)

(** The taxonomy of the specification. *)
Inductive ErrorKind : Type :=
| InvalidInput | InvalidURL | TargetUnreachable | Internal.

Definition kind (e : Error) : ErrorKind :=
  match e with
  | UrlRequired => InvalidInput
  | InvalidUrl | ProtocolNotAllowed => InvalidURL
  | SiteUnreachable => TargetUnreachable
  | BrowserFailure => Internal
  end.

Definition Result (A : Type) : Type := (Error + A)%type.
Definition throw {A} (e : Error) : Result A := inl e.
Definition ok {A} (a : A) : Result A := inr a.

(** ** [normalizeUrl] *)

Section Normalizer.
Context {P : URLParser}.

(** [/^https?:\/\//i.test(s)] *)
Definition hasHttpScheme (s : string) : bool :=
  let f := JS.foldCase s in
  JS.startsWith f "http://" || JS.startsWith f "https://".

Definition withProtocol (trimmed : string) : string :=
  if hasHttpScheme trimmed then trimmed else "https://" ++ trimmed.

Definition allowedProtocol (p : string) : bool :=
  String.eqb p "http:" || String.eqb p "https:".

Definition normalizeUrl (rawUrl : string) : Result URL :=
  let trimmed := JS.trim rawUrl in
  if negb (JS.truthy trimmed) then throw UrlRequired
  else
    match new_URL (withProtocol trimmed) None with
    | None => throw InvalidUrl
    | Some url =>
        if negb (allowedProtocol (protocol url))
        then throw ProtocolNotAllowed
        else ok url
    end.

End Normalizer.

(** ** Regular expressions

    The fragment of JavaScript regular expressions that the source uses,
    with the backtracking order of the language: greedy quantifiers, the
    leftmost alternative first. Quantified items are always character
    classes in the source, so [Rep] repeats a class. *)

Module Regex.

Inductive re : Type :=
| Eps                                             (* the empty pattern *)
| Chr (p : ascii -> bool)                         (* a class, once *)
| Seq (r1 r2 : re)
| Opt (r : re)                                    (* r? *)
| Rep (p : ascii -> bool) (lo : nat) (hi : option nat)  (* [p]{lo,hi} *)
| Cap (r : re)                                    (* the group that is read *)
| WordB.                                          (* \b *)

Definition lit (c : ascii) : re := Chr (Ascii.eqb c).

Fixpoint word (s : string) : re :=
  match s with
  | EmptyString => Eps
  | String c r => Seq (lit c) (word r)
  end.

Fixpoint runLength (p : ascii -> bool) (s : list ascii) : nat :=
  match s with
  | c :: t => if p c then S (runLength p t) else 0
  | [] => 0
  end.

(** The state of a match: the code unit before the position, the input
    left, and the text of the captured group. *)
Record pos : Type := mkPos
  { before : option ascii;
    rest : list ascii;
    captured : option (list ascii) }.

Definition advance (n : nat) (q : pos) : pos :=
  {| before := match n with
               | O => before q
               | S k => nth_error (rest q) k
               end;
     rest := skipn n (rest q);
     captured := captured q |}.

Definition isWordAt (c : option ascii) : bool :=
  match c with Some a => JS.isWord a | None => false end.

Section Run.
Variable R : Type.

(** Greedy repetition: the longest count first, down to [lo]. *)
Fixpoint countDown (lo n : nat) (try : nat -> option R) : option R :=
  if n <? lo then None
  else match try n with
       | Some x => Some x
       | None => match n with
                 | O => None
                 | S k => countDown lo k try
                 end
       end.

Fixpoint run (r : re) (q : pos) (k : pos -> option R) : option R :=
  match r with
  | Eps => k q
  | Chr p =>
      match rest q with
      | c :: _ => if p c then k (advance 1 q) else None
      | [] => None
      end
  | Seq r1 r2 => run r1 q (fun q1 => run r2 q1 k)
  | Opt r1 =>
      match run r1 q k with
      | Some x => Some x
      | None => k q
      end
  | Rep p lo hi =>
      let avail := runLength p (rest q) in
      let n := match hi with Some h => Nat.min h avail | None => avail end in
      countDown lo n (fun j => k (advance j q))
  | Cap r1 =>
      run r1 q (fun q1 =>
        let n := length (rest q) - length (rest q1) in
        k {| before := before q1; rest := rest q1;
             captured := Some (firstn n (rest q)) |})
  | WordB =>
      if xorb (isWordAt (before q)) (isWordAt (hd_error (rest q)))
      then k q else None
  end.

End Run.

(** A match starting exactly at the position: what is left, and the
    group. *)
Definition matchAt (r : re) (prev : option ascii) (s : list ascii)
  : option (list ascii * option (list ascii)) :=
  run r {| before := prev; rest := s; captured := None |}
      (fun q => Some (rest q, captured q)).

(** [s.match(r)] without the [g] flag: the group of the leftmost match. *)
Fixpoint firstGroup (r : re) (prev : option ascii) (s : list ascii)
  : option (option (list ascii)) :=
  match matchAt r prev s with
  | Some (_, g) => Some g
  | None => match s with
            | [] => None
            | c :: t => firstGroup r (Some c) t
            end
  end.

(** [s.match(r)] with the [g] flag: every match, left to right, the next
    search starting where the last match ended (one further after an
    empty match). [skip] counts the code units still inside a match. *)
Fixpoint scan (r : re) (prev : option ascii) (s : list ascii) (skip : nat)
  : list string :=
  match skip with
  | S k => match s with
           | [] => []
           | c :: t => scan r (Some c) t k
           end
  | O =>
      match matchAt r prev s with
      | Some (remaining, _) =>
          let n := length s - length remaining in
          JS.str (firstn n s) ::
          match s with
          | [] => []
          | c :: t => scan r (Some c) t (n - 1)
          end
      | None =>
          match s with
          | [] => []
          | c :: t => scan r (Some c) t 0
          end
      end
  end.

Definition matchAll (r : re) (s : string) : list string :=
  scan r None (JS.chars s) 0.

End Regex.

(** ** The regular expressions of [server.js] *)

Definition oneOf (s : string) (c : ascii) : bool :=
  existsb (Ascii.eqb c) (JS.chars s).

Definition isLetter (c : ascii) : bool := JS.isUpper c || JS.isLower c.

Definition dquote : ascii := ascii_of_nat 34.
Definition isQuote (c : ascii) : bool :=
  Ascii.eqb c "'"%char || Ascii.eqb c dquote.

(** [[\s\-\.]] *)
Definition isSeparator (c : ascii) : bool :=
  JS.isWhiteSpace c || oneOf "-." c.

(** [/\b[A-Za-z0-9._%+-]+@[A-Za-z0-9.-]+\.[A-Z|a-z]{2,}\b/g] *)
Definition emailRegex : Regex.re :=
  let local c := isLetter c || JS.isDigit c || oneOf "._%+-" c in
  let host c := isLetter c || JS.isDigit c || oneOf ".-" c in
  let tld c := isLetter c || oneOf "|" c in
  Regex.Seq Regex.WordB
 (Regex.Seq (Regex.Rep local 1 None)
 (Regex.Seq (Regex.lit "@")
 (Regex.Seq (Regex.Rep host 1 None)
 (Regex.Seq (Regex.lit ".")
 (Regex.Seq (Regex.Rep tld 2 None)
            Regex.WordB))))).

(** [/(\+?\d{1,4}[\s\-\.]?)?\(?\d{2,4}\)?[\s\-\.]?\d{3,4}[\s\-\.]?\d{3,4}/g] *)
Definition phoneRegex : Regex.re :=
  let sep := Regex.Opt (Regex.Chr isSeparator) in
  let digits lo hi := Regex.Rep JS.isDigit lo (Some hi) in
  Regex.Seq (Regex.Opt (Regex.Seq (Regex.Opt (Regex.lit "+"))
                       (Regex.Seq (digits 1 4) sep)))
 (Regex.Seq (Regex.Opt (Regex.lit "("))
 (Regex.Seq (digits 2 4)
 (Regex.Seq (Regex.Opt (Regex.lit ")"))
 (Regex.Seq sep
 (Regex.Seq (digits 3 4)
 (Regex.Seq sep
            (digits 3 4))))))).

(** [/url\(Q?([^Q]+)Q?\)/], where Q stands for the class of the single and
    the double quote. *)
Definition backgroundUrlRegex : Regex.re :=
  Regex.Seq (Regex.word "url(")
 (Regex.Seq (Regex.Opt (Regex.Chr isQuote))
 (Regex.Seq (Regex.Cap (Regex.Rep (fun c => negb (isQuote c)) 1 None))
 (Regex.Seq (Regex.Opt (Regex.Chr isQuote))
            (Regex.lit ")")))).

(** Insertion into a JavaScript [Set], kept in insertion order. *)
Definition setAdd (x : string) (s : list string) : list string :=
  if existsb (String.eqb x) s then s else (s ++ [x])%list.

(** [[...new Set(l)]]: the first occurrence of each element, in order. *)
Definition unique (l : list string) : list string :=
  fold_left (fun acc x => setAdd x acc) l [].

Definition extractEmails (text : string) : list string :=
  unique (Regex.matchAll emailRegex text).

(** [p.replace(/\D/g, '').length] *)
Definition digitCount (p : string) : nat :=
  length (filter JS.isDigit (JS.chars p)).

Definition extractPhones (text : string) : list string :=
  unique (filter (fun p => 8 <=? digitCount p)
                 (Regex.matchAll phoneRegex text)).

(** ** The rendered page, as the extraction code reads it *)

(** A value that is a string or [null]. *)
Definition jsval : Type := option string.

Definition truthyVal (v : jsval) : bool :=
  match v with Some s => JS.truthy s | None => false end.

(** [a || b] *)
Definition orElse (a b : jsval) : jsval := if truthyVal a then a else b.

(** [a || b] on numbers *)
Definition orElseN (a b : N) : N := if N.eqb a 0 then b else a.

(** An [<img>] element: its reflected properties and raw attributes. *)
Record Img : Type := mkImg
  { currentSrc : string;
    srcProp : string;
    attrDataSrc : jsval;
    attrDataLazySrc : jsval;
    attrDataOriginal : jsval;
    attrSrc : jsval;
    attrSrcset : jsval;
    naturalWidth : N;
    widthProp : N;
    naturalHeight : N;
    heightProp : N;
    altProp : string }.

(** An element inspected for a CSS background: [computedBackground] is
    [None] when reading its computed style throws. *)
Record Styled : Type := mkStyled
  { computedBackground : option string;
    offsetWidth : N;
    offsetHeight : N }.

(** The selectors tried for the main content, in the order of the source. *)
Inductive Landmark : Type :=
| SelMain | SelArticle | SelRoleMain
| SelClassContent | SelIdContent | SelClassMainContent.

Definition landmarkOrder : list Landmark :=
  [SelMain; SelArticle; SelRoleMain;
   SelClassContent; SelIdContent; SelClassMainContent].

Record Page : Type := mkPage
  { locationHref : string;             (* window.location.href *)
    evaluates : bool;                  (* false: page.evaluate rejects *)
    documentTitle : string;
    bodyInnerText : jsval;             (* document.body?.innerText *)
    h1s : list string;                 (* innerText of each h1, in order *)
    h2s : list string;
    h3s : list string;
    querySelectorText : Landmark -> option string;
    imgs : list Img;
    divs : list Styled;
    sections : list Styled;
    headers : list Styled;
    heroes : list Styled;
    banners : list Styled;
    pictureSources : list jsval;       (* srcset of each picture source *)
    anchors : list jsval }.            (* href attribute of each a *)

(** ** Page content *)

(** An entry pushed by [addImage]. *)
Record RawImage : Type := mkRawImage
  { rawUrl : string;
    rawAlt : string;
    rawWidth : N;
    rawHeight : N;
    rawArea : N }.

Record Image : Type := mkImage
  { imgUrl : string;
    imgAlt : string;
    imgWidth : N;
    imgHeight : N }.

Record PageContent : Type := mkPageContent
  { pcUrl : string;
    pcTitle : string;
    pcHeadings : list string;
    pcContent : string;
    pcImages : list Image;
    pcEmails : list string;
    pcPhones : list string }.

Definition isHttpUrl (url : string) : bool :=
  JS.startsWith url "http://" || JS.startsWith url "https://".

(** The string starts with [http://] or [https://]: what [isHttpUrl]
    tests. Whether the string is a URL is another matter: [https://] alone
    starts so. *)
Definition httpPrefixed (url : string) : Prop :=
  (exists rest, url = "http://" ++ rest) \/
  (exists rest, url = "https://" ++ rest).

(** Every entry carries a URL that passes [isHttpUrl]. *)
Definition httpOnly (l : list RawImage) : Prop :=
  forall img, In img l -> isHttpUrl (rawUrl img) = true.

(** [content.replace(/\s+/g, ' ')] *)
Fixpoint collapseSpaces (inRun : bool) (l : list ascii) : list ascii :=
  match l with
  | [] => []
  | c :: t =>
      if JS.isWhiteSpace c
      then if inRun then collapseSpaces true t
           else " "%char :: collapseSpaces true t
      else c :: collapseSpaces false t
  end.

Definition cleanContent (s : string) : string :=
  JS.trim (JS.str (collapseSpaces false (JS.chars s))).

(** [s.split(c)] *)
Fixpoint splitChar (c : ascii) (s : string) : list string :=
  match s with
  | EmptyString => [""]
  | String d r =>
      if Ascii.eqb d c then "" :: splitChar c r
      else match splitChar c r with
           | h :: t => String d h :: t
           | [] => [String d ""]
           end
  end.

(** [s.split(/\s+/)[0]] *)
Fixpoint firstToken (s : string) : string :=
  match s with
  | EmptyString => EmptyString
  | String d r => if JS.isWhiteSpace d then EmptyString
                  else String d (firstToken r)
  end.

(** [srcset.split(',').map(s => s.trim().split(/\s+/)[0])] *)
Definition srcsetUrls (srcset : string) : list string :=
  map (fun s => firstToken (JS.trim s)) (splitChar "," srcset).

(** [sort((a, b) => b.area - a.area)]: a stable sort, the largest area
    first; an element goes before the first one that is not larger. *)
Fixpoint insertByArea (x : RawImage) (l : list RawImage) : list RawImage :=
  match l with
  | [] => [x]
  | y :: t => if N.leb (rawArea y) (rawArea x) then x :: l
              else y :: insertByArea x t
  end.

Definition sortByArea (l : list RawImage) : list RawImage :=
  fold_right insertByArea [] l.

(** ** [extractPageContent] *)

(** The two accumulators that [addImage] closes over. *)
Record ImageAcc : Type := mkImageAcc
  { images : list RawImage;
    seenUrls : list string }.

Definition MAX_IMAGES : nat := 10.
Definition MAX_CONTENT : nat := 3000.
Definition MIN_DIMENSION : N := 50.

Section Extraction.
Context {P : URLParser}.

(** The inner [resolveUrl], which closes over the current page's URL. *)
Definition resolveUrl (currentPageUrl relativeUrl : string) : string :=
  match new_URL relativeUrl (Some currentPageUrl) with
  | Some u => href u
  | None => relativeUrl
  end.

Definition addImage (currentPageUrl url : string) (width height : N)
                    (alt : string) (acc : ImageAcc) : ImageAcc :=
  if negb (JS.truthy url) then acc else
  let url := JS.trim url in
  let url := if negb (isHttpUrl url) then resolveUrl currentPageUrl url
             else url in
  if negb (isHttpUrl url) then acc else
  if JS.startsWith url "data:" || JS.endsWith (JS.toLowerCase url) ".svg"
  then acc else
  if existsb (String.eqb url) (seenUrls acc) then acc else
  if N.ltb 0 width && N.ltb 0 height &&
     (N.ltb width MIN_DIMENSION || N.ltb height MIN_DIMENSION)
  then acc else
  {| images := (images acc ++
                [mkRawImage url alt width height (width * height)])%list;
     seenUrls := setAdd url (seenUrls acc) |}.

(** The candidates of a [srcset], each added with the same dimensions. *)
Definition addSrcset (cur : string) (srcset : jsval) (w h : N) (alt : string)
                     (acc : ImageAcc) : ImageAcc :=
  match srcset with
  | Some text =>
      if JS.truthy text
      then fold_left (fun a url => if JS.truthy url
                                   then addImage cur url w h alt a else a)
                     (srcsetUrls text) acc
      else acc
  | None => acc
  end.

(** 1. [<img>] elements, with their lazy-loading attributes. *)
Definition visitImg (cur : string) (acc : ImageAcc) (img : Img) : ImageAcc :=
  let src :=
    orElse (orElse (orElse (orElse (orElse (Some (currentSrc img))
                                           (Some (srcProp img)))
                                   (attrDataSrc img))
                           (attrDataLazySrc img))
                   (attrDataOriginal img))
           (attrSrc img) in
  let acc1 :=
    match src with
    | Some s =>
        if JS.truthy s
        then addImage cur s
               (orElseN (orElseN (naturalWidth img) (widthProp img)) 0)
               (orElseN (orElseN (naturalHeight img) (heightProp img)) 0)
               (altProp img) acc
        else acc
    | None => acc
    end in
  addSrcset cur (attrSrcset img) (widthProp img) (heightProp img)
            (altProp img) acc1.

(** 2. CSS backgrounds. *)
Definition visitBackground (cur : string) (acc : ImageAcc) (el : Styled)
  : ImageAcc :=
  match computedBackground el with
  | None => acc
  | Some bgImage =>
      if JS.truthy bgImage && negb (String.eqb bgImage "none")
      then match Regex.firstGroup backgroundUrlRegex None (JS.chars bgImage) with
           | Some (Some g) =>
               if JS.truthy (JS.str g)
               then addImage cur (JS.str g)
                      (orElseN (offsetWidth el) 0) (orElseN (offsetHeight el) 0)
                      "" acc
               else acc
           | _ => acc
           end
      else acc
  end.

Definition elementsWithBackgrounds (p : Page) : list Styled :=
  (divs p ++ sections p ++ headers p ++ heroes p ++ banners p)%list.

(** 3. [<picture>] sources. *)
Definition visitSource (cur : string) (acc : ImageAcc) (srcset : jsval)
  : ImageAcc :=
  addSrcset cur srcset 0%N 0%N "" acc.

Definition collectImages (p : Page) : ImageAcc :=
  let cur := locationHref p in
  let a1 := fold_left (visitImg cur) (imgs p) (mkImageAcc [] []) in
  let a2 := fold_left (visitBackground cur) (elementsWithBackgrounds p) a1 in
  fold_left (visitSource cur) (pictureSources p) a2.

Definition sortedImages (p : Page) : list Image :=
  map (fun img => mkImage (rawUrl img) (rawAlt img) (rawWidth img) (rawHeight img))
      (firstn MAX_IMAGES
         (sortByArea
            (filter (fun img => JS.truthy (rawUrl img) && isHttpUrl (rawUrl img))
                    (images (collectImages p))))).

(** [querySelectorAll('a[href^=...]')]: the anchors whose [href] attribute
    starts with the prefix. *)
Definition anchorsWithPrefix (prefix : string) (p : Page) : list string :=
  flat_map (fun a => match a with
                     | Some h => if JS.startsWith h prefix then [h] else []
                     | None => []
                     end) (anchors p).

Definition mailtoTargets (p : Page) : list string :=
  filter JS.truthy
    (map (fun h => JS.beforeChar "?" (JS.removeFirst "mailto:" h))
         (anchorsWithPrefix "mailto:" p)).

Definition telTargets (p : Page) : list string :=
  filter JS.truthy
    (map (fun h => JS.trim (JS.removeFirst "tel:" h))
         (anchorsWithPrefix "tel:" p)).

Definition headingsOf (p : Page) : list string :=
  filter JS.truthy (map JS.trim (h1s p ++ h2s p ++ h3s p)%list).

Definition bodyText (p : Page) : string :=
  match orElse (bodyInnerText p) (Some "") with
  | Some s => s
  | None => ""
  end.

(** The first landmark that exists, in the order of the source. *)
Definition mainContent (p : Page) : option string :=
  fold_left (fun found sel => match found with
                              | Some _ => found
                              | None => querySelectorText p sel
                              end) landmarkOrder None.

Definition contentOf (p : Page) : string :=
  let content :=
    match mainContent p with
    | Some text => if JS.truthy text then text else bodyText p
    | None => bodyText p
    end in
  JS.substring0 MAX_CONTENT (cleanContent content).

Definition extractPageContent (p : Page) : Result PageContent :=
  if negb (evaluates p) then throw BrowserFailure
  else
    let emails := (extractEmails (bodyText p) ++ mailtoTargets p)%list in
    let phones := (extractPhones (bodyText p) ++ telTargets p)%list in
    ok {| pcUrl := locationHref p;
          pcTitle := JS.trim (documentTitle p);
          pcHeadings := headingsOf p;
          pcContent := contentOf p;
          pcImages := sortedImages p;
          pcEmails := unique emails;
          pcPhones := unique phones |}.

End Extraction.



(** ** [discoverLinks] and [extractSocials] *)

Definition deniedExtensions : list string :=
  ["pdf"; "jpg"; "jpeg"; "png"; "gif"; "zip"; "rar"; "doc"; "docx"].

(** [/\.(pdf|jpg|jpeg|png|gif|zip|rar|doc|docx)$/i.test(url)] *)
Definition hasDeniedExtension (url : string) : bool :=
  existsb (fun ext => JS.endsWith (JS.foldCase url) ("." ++ ext))
          deniedExtensions.

(** [s.replace(/\/$/, '')] *)
Definition stripTrailingSlash (s : string) : string :=
  if JS.endsWith s "/" then JS.substring0 (String.length s - 1) s else s.

(** [absoluteUrl.split('#')[0].replace(/\/$/, '')] *)
Definition cleanUrl (absoluteUrl : string) : string :=
  stripTrailingSlash (JS.beforeChar "#" absoluteUrl).

Definition skippedHref (h : string) : bool :=
  JS.startsWith h "#" || JS.startsWith h "javascript:" ||
  JS.startsWith h "mailto:" || JS.startsWith h "tel:".

Inductive Platform : Type :=
| Facebook | Instagram | LinkedIn | Twitter | YouTube | XING.

Record Social : Type := mkSocial
  { platform : Platform;
    socialUrl : string }.

Section Discovery.
Context {P : URLParser}.

(** The inner [isInternalUrl], which closes over the current page. *)
Definition isInternalUrl (currentPageUrl currentHostname testUrl : string)
  : bool :=
  match new_URL testUrl (Some currentPageUrl) with
  | Some testObj => String.eqb (hostname testObj) currentHostname
  | None => false
  end.

(** The body of [anchors.forEach] in [discoverLinks]. *)
Definition visitAnchor (currentPageUrl currentHostname : string)
                       (links : list string) (a : jsval) : list string :=
  match a with
  | None => links
  | Some h =>
      if negb (JS.truthy h) then links
      else if skippedHref h then links
      else
        match new_URL h (Some currentPageUrl) with
        | None => links
        | Some u =>
            let absoluteUrl := href u in
            if isInternalUrl currentPageUrl currentHostname absoluteUrl
            then
              let clean := cleanUrl absoluteUrl in
              if negb (hasDeniedExtension clean) then setAdd clean links
              else links
            else links
        end
  end.

Definition discoverLinks (p : Page) : Result (list string) :=
  if negb (evaluates p) then throw BrowserFailure
  else
    let currentPageUrl := locationHref p in
    match new_URL currentPageUrl None with
    | None => throw BrowserFailure
    | Some here =>
        ok (fold_left (visitAnchor currentPageUrl (hostname here))
                      (anchors p) [])
    end.

(** Where a discovered link comes from: an anchor whose [href] resolves
    against the current page to a URL of the host [host], cleaned, and
    without a denied extension. *)
Definition discoveredFrom (cur host : string) (hrefs : list jsval)
                          (link : string) : Prop :=
  exists h u t,
    In (Some h) hrefs /\
    new_URL h (Some cur) = Some u /\
    link = cleanUrl (href u) /\
    new_URL (href u) (Some cur) = Some t /\
    hostname t = host /\
    hasDeniedExtension link = false.

Definition classifySocial (absoluteUrl : string) : option Social :=
  let h := JS.toLowerCase absoluteUrl in
  if JS.includes h "facebook.com/" && negb (JS.includes h "/sharer")
  then Some (mkSocial Facebook absoluteUrl)
  else if JS.includes h "instagram.com/"
  then Some (mkSocial Instagram absoluteUrl)
  else if JS.includes h "linkedin.com/"
  then Some (mkSocial LinkedIn absoluteUrl)
  else if JS.includes h "twitter.com/" || JS.includes h "x.com/"
  then Some (mkSocial Twitter absoluteUrl)
  else if JS.includes h "youtube.com/" || JS.includes h "youtu.be/"
  then Some (mkSocial YouTube absoluteUrl)
  else if JS.includes h "xing.com/"
  then Some (mkSocial XING absoluteUrl)
  else None.

Definition socialOfAnchor (currentPageUrl : string) (a : jsval)
  : list Social :=
  match a with
  | None => []
  | Some hrefAttr =>
      if negb (JS.truthy hrefAttr) then []
      else match new_URL hrefAttr (Some currentPageUrl) with
           | None => []
           | Some u => match classifySocial (href u) with
                       | Some s => [s]
                       | None => []
                       end
           end
  end.

(** [socials.filter(s => !seen.has(s.url) && seen.add(s.url))] *)
Fixpoint dedupSocials (seen : list string) (l : list Social) : list Social :=
  match l with
  | [] => []
  | s :: t =>
      if existsb (String.eqb (socialUrl s)) seen then dedupSocials seen t
      else s :: dedupSocials (setAdd (socialUrl s) seen) t
  end.

Definition extractSocials (p : Page) : Result (list Social) :=
  if negb (evaluates p) then throw BrowserFailure
  else ok (dedupSocials []
             (flat_map (socialOfAnchor (locationHref p)) (anchors p))).

End Discovery.

(** ** The browser and the clock *)

(** What opening a tab and navigating it to a URL yields. *)
Inductive Navigation : Type :=
| TabFailed                (* context.newPage() rejects *)
| NavigationFailed         (* page.goto() rejects: timeout, DNS, ... *)
| Loaded (p : Page).

(** [openSeed] answers the navigation of the home page (10 s timeout),
    [openSubpage] that of a subpage (8 s timeout); [clock n] is what the
    [n]-th call of [Date.now()] reads, in milliseconds. *)
Record World : Type := mkWorld
  { launches : bool;                       (* chromium.launch() resolves *)
    openSeed : string -> Navigation;
    openSubpage : string -> Navigation;
    clock : nat -> Z }.

(** What a crawl has done so far. *)
Record Trace : Type := mkTrace
  { clockReads : nat;                      (* calls of Date.now() *)
    visited : list string }.               (* subpage navigations issued *)

Definition Crawl (A : Type) : Type := Trace -> Result A * Trace.

Definition ret {A} (a : A) : Crawl A := fun t => (ok a, t).
Definition raise {A} (e : Error) : Crawl A := fun t => (throw e, t).
Definition lift {A} (r : Result A) : Crawl A := fun t => (r, t).
Definition bind {A B} (m : Crawl A) (f : A -> Crawl B) : Crawl B :=
  fun t => match m t with
           | (inl e, t1) => (inl e, t1)
           | (inr a, t1) => f a t1
           end.

Notation "x <- m ;; k" := (bind m (fun x => k))
  (at level 61, m at next level, right associativity).

(** [Date.now()] *)
Definition now (w : World) : Crawl Z :=
  fun t => (ok (clock w (clockReads t)),
            {| clockReads := S (clockReads t); visited := visited t |}).

Definition HARVEST_TIMEOUT_MS : Z := 45000.
Definition MAX_PAGES : nat := 10.
Definition CONCURRENT_TABS : nat := 3.

(** ** The crawl report *)

Record ReportPage : Type := mkReportPage
  { rpUrl : string;
    rpTitle : string;
    rpHeadings : list string;
    rpContent : string;
    rpImages : list string }.

Record Global : Type := mkGlobal
  { emails : list string;
    phones : list string;
    socials : list Social }.

Record Metadata : Type := mkMetadata
  { pagesVisited : nat;
    totalImages : nat;
    crawlDuration : Z }.                   (* milliseconds *)

Record Report : Type := mkReport
  { domain : string;
    globalInfo : Global;
    pages : list ReportPage;
    metadata : Metadata }.

Definition mapResult {A B} (f : A -> B) (r : Result A) : Result B :=
  match r with
  | inl e => inl e
  | inr a => inr (f a)
  end.

(** [l.slice(i, j)] *)
Definition slice {A} (i j : nat) (l : list A) : list A :=
  firstn (j - i) (skipn i l).

(** [results.filter(Boolean)] on an array of records and [null]s. *)
Definition filterBoolean {A} (l : list (option A)) : list A :=
  flat_map (fun r => match r with Some a => [a] | None => [] end) l.

(** ** [deepCrawl] *)

Section DeepCrawl.
Context {P : URLParser}.
Variable w : World.

(** The task started for one link of a batch: [Some] content, [null]
    when navigation or extraction failed (caught), or a rejection when
    the tab could not be opened (before the [try]). *)
Definition visitLink (link : string) : Result (option PageContent) :=
  match openSubpage w link with
  | TabFailed => throw BrowserFailure
  | NavigationFailed => ok None
  | Loaded page =>
      match extractPageContent page with
      | inl _ => ok None
      | inr content => ok (Some content)
      end
  end.

(** [Promise.all]: every result in order, or the rejection of a task. *)
Fixpoint promiseAll {A} (l : list (Result A)) : Result (list A) :=
  match l with
  | [] => ok []
  | r :: t =>
      match r, promiseAll t with
      | inl e, _ => throw e
      | inr _, inl e => throw e
      | inr a, inr rest => ok (a :: rest)
      end
  end.

Definition navigated (link : string) : bool :=
  match openSubpage w link with TabFailed => false | _ => true end.

Definition visitBatch (batch : list string) : Crawl (list (option PageContent)) :=
  fun t => (promiseAll (map visitLink batch),
            {| clockReads := clockReads t;
               visited := (visited t ++ filter navigated batch)%list |}).

(** The trace after one more reading of the clock. *)
Definition tick (t : Trace) : Trace :=
  {| clockReads := S (clockReads t); visited := visited t |}.

(** [elapsed > HARVEST_TIMEOUT_MS - 10000] at the [n]-th reading of the
    clock. *)
Definition exceeded (startTime : Z) (n : nat) : bool :=
  Z.gtb (clock w n - startTime) (HARVEST_TIMEOUT_MS - 10000).

(** The test made before a batch, at the next reading of the clock. *)
Definition timedOut (startTime : Z) (t : Trace) : bool :=
  exceeded startTime (clockReads t).

(** Step 3 of the source: the [for] loop over the batches, from index
    [i], with the records pushed so far. *)
Equations? visitBatches (startTime : Z) (uniqueLinks : list string) (i : nat)
    (subpageContents : list PageContent) (t : Trace)
  : Result (list PageContent) * Trace by wf (length uniqueLinks - i) lt :=
  visitBatches startTime uniqueLinks i subpageContents t
    with lt_dec i (length uniqueLinks) => {
    | right _ => (ok subpageContents, t)
    | left _ with timedOut startTime t => {
      | true => (ok subpageContents, tick t)
      | false with visitBatch (slice i (i + CONCURRENT_TABS) uniqueLinks)
                              (tick t) => {
        | (inl e, t2) => (throw e, t2)
        | (inr batchResults, t2) =>
            visitBatches startTime uniqueLinks (i + CONCURRENT_TABS)
              (subpageContents ++ filterBoolean batchResults)%list t2 } } }.
Proof. unfold CONCURRENT_TABS. lia. Qed.

Definition launch : Crawl unit :=
  if launches w then ret tt else raise BrowserFailure.

Definition gotoSeed (baseUrl : string) : Crawl Page :=
  match openSeed w baseUrl with
  | TabFailed => raise BrowserFailure
  | NavigationFailed => raise SiteUnreachable
  | Loaded page => ret page
  end.

(** Step 2 of the source: the subpage queue. *)
Definition subpageQueue (baseUrl : string) (discoveredLinks : list string)
  : list string :=
  firstn MAX_PAGES
    (filter (fun link => negb (String.eqb link baseUrl)
                         && negb (String.eqb link (baseUrl ++ "/")))
            (unique discoveredLinks)).

Definition reportPage (page : PageContent) : ReportPage :=
  {| rpUrl := pcUrl page;
     rpTitle := pcTitle page;
     rpHeadings := pcHeadings page;
     rpContent := pcContent page;
     rpImages := filter (fun url => JS.truthy url && isHttpUrl url)
                        (map imgUrl (pcImages page)) |}.

(** Step 4 of the source: the fold of every page into the report. *)
Definition buildReport (domain : string) (socials : list Social)
    (allPages : list PageContent) (duration : Z) : Report :=
  let globalEmails :=
    fold_left (fun s page => fold_left (fun s e => setAdd e s) (pcEmails page) s)
              allPages [] in
  let globalPhones :=
    fold_left (fun s page => fold_left (fun s p => setAdd p s) (pcPhones page) s)
              allPages [] in
  {| domain := domain;
     globalInfo := {| emails := globalEmails;
                      phones := globalPhones;
                      socials := socials |};
     pages := map reportPage allPages;
     metadata :=
       {| pagesVisited := length allPages;
          totalImages := fold_left (fun sum p => sum + length (pcImages p))
                                   allPages 0;
          crawlDuration := duration |} |}.

Definition deepCrawl (inputUrl : string) : Crawl Report :=
  startTime <- now w ;;
  targetUrl <- lift (normalizeUrl inputUrl) ;;
  let baseUrl := href targetUrl in
  let domain := hostname targetUrl in
  _ <- launch ;;
  homePage <- gotoSeed baseUrl ;;
  homeContent <- lift (extractPageContent homePage) ;;
  discoveredLinks <- lift (discoverLinks homePage) ;;
  socials <- lift (extractSocials homePage) ;;
  let uniqueLinks := subpageQueue baseUrl discoveredLinks in
  subpageContents <- visitBatches startTime uniqueLinks 0 [] ;;
  let allPages := homeContent :: subpageContents in
  endTime <- now w ;;
  ret (buildReport domain socials allPages (endTime - startTime)).

(** The pages that the visit of one link adds to the crawl. *)
Definition contribution (link : string) : list PageContent :=
  match visitLink link with
  | inr (Some content) => [content]
  | _ => []
  end.

(** The navigation to the subpage succeeded, and so did the evaluation
    of the extraction function in the page that was loaded. *)
Definition succeeded (link : string) : bool :=
  match openSubpage w link with
  | Loaded page => evaluates page
  | TabFailed | NavigationFailed => false
  end.

(** The navigation of a subpage failed, or the extraction from it did. *)
Definition failedVisit (link : string) : Prop :=
  openSubpage w link = NavigationFailed \/
  exists page e, openSubpage w link = Loaded page /\
                 extractPageContent page = inl e.

(** Everything up to the closing of the home page: the parsed target, the
    home page's content, the discovered links and the social links. *)
Definition seedStage (inputUrl : string)
  : Result (URL * PageContent * list string * list Social) :=
  match normalizeUrl inputUrl with
  | inl e => throw e
  | inr targetUrl =>
      if negb (launches w) then throw BrowserFailure
      else match openSeed w (href targetUrl) with
           | TabFailed => throw BrowserFailure
           | NavigationFailed => throw SiteUnreachable
           | Loaded homePage =>
               match extractPageContent homePage,
                     discoverLinks homePage,
                     extractSocials homePage with
               | inr c, inr l, inr s => ok (targetUrl, c, l, s)
               | inl e, _, _ => throw e
               | _, inl e, _ => throw e
               | _, _, inl e => throw e
               end
           end
  end.

(** The home page as it was loaded, when it was. *)
Definition seedPage (inputUrl : string) : option Page :=
  match normalizeUrl inputUrl with
  | inr targetUrl =>
      match openSeed w (href targetUrl) with
      | Loaded homePage => Some homePage
      | _ => None
      end
  | inl _ => None
  end.

Definition start : Trace := {| clockReads := 0; visited := [] |}.

(** The outcome of a whole crawl. *)
Definition crawl (inputUrl : string) : Result Report :=
  fst (deepCrawl inputUrl start).

End DeepCrawl.

(** ** A reference URL parser for running examples

    [RefURL] answers as the platform does on the fragment it covers:
    [http://host/path?query#fragment] and [https://...] with a host made
    of letters, digits, dots and hyphens that ends in a letter, and
    references that start with a single slash, resolved against such a
    base. The path, query and fragment may only hold characters that the
    platform keeps as they are, and no dot segment. Outside this fragment
    it answers [None]. *)

Module RefURL.

Definition hostChar (c : ascii) : bool :=
  JS.isLower c || JS.isDigit c || oneOf ".-" c.

Definition keptChar (c : ascii) : bool :=
  isLetter c || JS.isDigit c || oneOf "/_.~?#=&-" c.

Definition isDelimiter (c : ascii) : bool := oneOf "/?#" c.

Fixpoint takeWhile (f : ascii -> bool) (l : list ascii) : list ascii :=
  match l with
  | c :: t => if f c then c :: takeWhile f t else []
  | [] => []
  end.

Definition plainTail (tail : string) : bool :=
  forallb keptChar (JS.chars tail) &&
  negb (JS.includes tail "/./" || JS.includes tail "/../" ||
        JS.includes tail "//" ||
        JS.endsWith (JS.beforeChar "#" (JS.beforeChar "?" tail)) "/." ||
        JS.endsWith (JS.beforeChar "#" (JS.beforeChar "?" tail)) "/..").

Definition plainHost (host : list ascii) : bool :=
  forallb hostChar host &&
  match rev host with
  | c :: _ => JS.isLower c
  | [] => false
  end &&
  negb (JS.includes (JS.str host) "..") &&
  negb (JS.startsWith (JS.str host) ".").

(** An absolute URL of the fragment, after its scheme. *)
Definition afterScheme (scheme : string) (l : list ascii) : option URL :=
  let host := map JS.foldChar (takeWhile (fun c => negb (isDelimiter c)) l) in
  let tail := JS.str (skipn (length host) l) in
  if plainHost host && plainTail tail
  then Some {| href := scheme ++ "//" ++ JS.str host ++
                       (if JS.startsWith tail "/" then tail else "/" ++ tail);
               protocol := scheme;
               hostname := JS.str host |}
  else None.

Definition absolute (input : string) : option URL :=
  let f := JS.foldCase input in
  if JS.startsWith f "https://" then afterScheme "https:" (JS.chars (JS.dropn 8 input))
  else if JS.startsWith f "http://" then afterScheme "http:" (JS.chars (JS.dropn 7 input))
  else None.

Definition parse (input : string) (base : option string) : option URL :=
  match absolute input with
  | Some u => Some u
  | None =>
      match base with
      | None => None
      | Some b =>
          match absolute b with
          | None => None
          | Some bu =>
              if JS.startsWith input "/" && plainTail input
              then Some {| href := protocol bu ++ "//" ++ hostname bu ++ input;
                           protocol := protocol bu;
                           hostname := hostname bu |}
              else None
          end
      end
  end.

#[export] Instance parser : URLParser := {| new_URL := parse |}.

End RefURL.

(** ** Sample sites

    Pages and worlds on which the crawl is run in the examples below,
    with the reference parser. *)

Module Sample.

(** A page that holds nothing but anchors. *)
Definition page (url : string) (hrefs : list jsval) : Page :=
  {| locationHref := url; evaluates := true; documentTitle := "";
     bodyInnerText := Some ""; h1s := []; h2s := []; h3s := [];
     querySelectorText := fun _ => None;
     imgs := []; divs := []; sections := []; headers := []; heroes := [];
     banners := []; pictureSources := []; anchors := hrefs |}.

Definition home : Page :=
  {| locationHref := "https://example.com/"; evaluates := true;
     documentTitle := " Example  ";
     bodyInnerText := Some "Call 030 1234 5678 or   mail info@example.com";
     h1s := ["Welcome "]; h2s := [""]; h3s := [];
     querySelectorText := fun _ => None;
     imgs := [mkImg "" "https://example.com/logo.png" None None None
                    (Some "/logo.png") None 30 30 30 30 "logo";
              mkImg "" "" (Some "/img/team.jpg") None None None
                    (Some "/img/a.jpg 800w, /img/b.jpg 1200w") 0 0 0 0 "team";
              mkImg "https://example.com/img/hero.jpg"
                    "https://example.com/img/hero.jpg" None None None
                    (Some "/img/hero.jpg") None 1200 600 800 400 "hero";
              mkImg "" "data:image/png;base64,AAAA" None None None None None
                    100 100 100 100 "inline"];
     divs := [mkStyled (Some "url('/img/bg.png')") 800 600;
              mkStyled (Some "none") 10 10;
              mkStyled None 0 0];
     sections := []; headers := []; heroes := []; banners := [];
     pictureSources := [Some "/img/wide.jpg 2x"];
     anchors := [Some "/about"; Some "/contact/"; Some "#top";
                 Some "mailto:info@example.com?subject=Hi"; Some "tel:123";
                 Some "https://other.org/x"; Some "/files/a.pdf";
                 Some "/about#team"; None;
                 Some "https://www.facebook.com/example"] |}.

Definition about : Page :=
  page "https://example.com/about" [Some "tel: +49 30 1234 "; Some "/"].

(** The home page and [/about] load; every other navigation fails. One
    second passes between two readings of the clock. *)
Definition world : World :=
  {| launches := true;
     openSeed := fun u => if String.eqb u "https://example.com/"
                          then Loaded home else NavigationFailed;
     openSubpage := fun u => if String.eqb u "https://example.com/about"
                             then Loaded about else NavigationFailed;
     clock := fun n => (Z.of_nat n * 1000)%Z |}.

(** The same site, forty seconds passing between two readings. *)
Definition slowWorld : World :=
  {| launches := true;
     openSeed := openSeed world;
     openSubpage := openSubpage world;
     clock := fun n => (Z.of_nat n * 40000)%Z |}.

(** The same site, on which the tab for [/about] cannot be opened. *)
Definition crashingWorld : World :=
  {| launches := true;
     openSeed := openSeed world;
     openSubpage := fun u => if String.eqb u "https://example.com/about"
                             then TabFailed else NavigationFailed;
     clock := clock world |}.

(** A home page that links to itself, as a logo does. *)
Definition logoHome : Page :=
  page "https://example.com/" [Some "/"; Some "/about"].

Definition logoWorld : World :=
  {| launches := true;
     openSeed := fun u => if String.eqb u "https://example.com/"
                          then Loaded logoHome else NavigationFailed;
     openSubpage := fun u => if String.eqb u "https://example.com"
                             then Loaded logoHome
                             else if String.eqb u "https://example.com/about"
                             then Loaded about else NavigationFailed;
     clock := clock world |}.



(** A seed that redirects to another host: [https://example.com/] lands
    on [https://www.example.com/]. *)
Definition wwwHome : Page :=
  page "https://www.example.com/"
       [Some "/about"; Some "https://example.com/contact"].

Definition wwwWorld : World :=
  {| launches := true;
     openSeed := fun u => if String.eqb u "https://example.com/"
                          then Loaded wwwHome else NavigationFailed;
     openSubpage := fun _ => NavigationFailed;
     clock := clock world |}.



(** Two spellings of one link. *)
Definition twoSpellings : Page :=
  page "http://x.com/" [Some "http://x.com/a/#frag"; Some "http://x.com/a"].

(** Fifteen content links, two links to other hosts, three PDF files. *)
Definition internalLinks : list string :=
  ["/p1"; "/p2"; "/p3"; "/p4"; "/p5"; "/p6"; "/p7"; "/p8"; "/p9"; "/p10";
   "/p11"; "/p12"; "/p13"; "/p14"; "/p15"].
Definition externalLinks : list string :=
  ["https://other.org/"; "http://cdn.example.net/lib"].
Definition pdfLinks : list string :=
  ["/a.pdf"; "/docs/b.PDF"; "https://example.com/c.pdf#page=2"].

Definition manyLinks : Page :=
  page "https://example.com/"
       (map Some (externalLinks ++ pdfLinks ++ internalLinks)%list).

(** Running a crawl from the empty trace, and what it returns. *)
Definition noReport : Report :=
  {| domain := ""; globalInfo := mkGlobal [] [] []; pages := [];
     metadata := mkMetadata 0 0 0 |}.

Definition noContent : PageContent :=
  mkPageContent "" "" [] "" [] [] [].

Definition run (w : World) (inputUrl : string) : Result Report * Trace :=
  deepCrawl (P := RefURL.parser) w inputUrl start.

Definition reportOf (w : World) (inputUrl : string) : Report :=
  match fst (run w inputUrl) with
  | inr r => r
  | inl _ => noReport
  end.

Definition traceOf (w : World) (inputUrl : string) : Trace :=
  snd (run w inputUrl).

Definition contentOf (p : Page) : PageContent :=
  match extractPageContent (P := RefURL.parser) p with
  | inr c => c
  | inl _ => noContent
  end.

Definition linksOf (p : Page) : list string :=
  match discoverLinks (P := RefURL.parser) p with
  | inr l => l
  | inl _ => []
  end.

End Sample.

(** ** What a regular expression matches

    The words of a pattern, to state what the matcher returns. *)

Inductive Matches : Regex.re -> list ascii -> Prop :=
| MatchEps : Matches Regex.Eps []
| MatchChr p c : p c = true -> Matches (Regex.Chr p) [c]
| MatchSeq r1 r2 u v :
    Matches r1 u -> Matches r2 v -> Matches (Regex.Seq r1 r2) (u ++ v)
| MatchOptNone r : Matches (Regex.Opt r) []
| MatchOptSome r u : Matches r u -> Matches (Regex.Opt r) u
| MatchRep p lo hi u :
    forallb p u = true -> lo <= length u ->
    (forall h, hi = Some h -> length u <= h) ->
    Matches (Regex.Rep p lo hi) u
| MatchCap r u : Matches r u -> Matches (Regex.Cap r) u
| MatchWordB : Matches Regex.WordB [].

(** [u] is a contiguous part of [s]. *)
Definition partOf (u : string) (s : string) : Prop :=
  exists pre post : list ascii,
    JS.chars s = (pre ++ JS.chars u ++ post)%list.

(** The digits and the [@] signs of a word. *)
Definition digitsIn (u : list ascii) : nat := length (filter JS.isDigit u).
Definition ats (u : list ascii) : nat := count_occ ascii_dec u "@"%char.

(** ** Invariants of the image accumulator *)

(** What [addImage] checks before it pushes an entry. *)
Definition wellFormedImage (img : RawImage) : Prop :=
  isHttpUrl (rawUrl img) = true /\
  JS.endsWith (JS.toLowerCase (rawUrl img)) ".svg" = false /\
  rawArea img = (rawWidth img * rawHeight img)%N /\
  ((0 < rawWidth img)%N -> (0 < rawHeight img)%N ->
   (MIN_DIMENSION <= rawWidth img)%N /\ (MIN_DIMENSION <= rawHeight img)%N).

(** The entries carry distinct URLs, all of them recorded as seen. *)
Definition distinctUrls (acc : ImageAcc) : Prop :=
  NoDup (map rawUrl (images acc)) /\
  forall u, In u (map rawUrl (images acc)) -> In u (seenUrls acc).

Definition imageArea (img : Image) : N := (imgWidth img * imgHeight img)%N.

(** The order of [sort((a, b) => b.area - a.area)]. *)
Definition byArea (a b : RawImage) : Prop := (rawArea b <= rawArea a)%N.

(** The entries that [sortedImages] keeps, before they lose their area. *)
Definition keptImages {P : URLParser} (p : Page) : list RawImage :=
  firstn MAX_IMAGES
    (sortByArea
       (filter (fun img => JS.truthy (rawUrl img) && isHttpUrl (rawUrl img))
               (images (collectImages p)))).

(** No two white space characters in a row, and no white space character
    but the space. *)
Definition singleSpaced (l : list ascii) : Prop :=
  (forall c, In c l -> JS.isWhiteSpace c = true -> c = " "%char) /\
  (forall pre c1 c2 post,
     l = (pre ++ c1 :: c2 :: post)%list ->
     JS.isWhiteSpace c1 = true -> JS.isWhiteSpace c2 = false).

(** The same page with other anchors. *)
Definition withAnchors (p : Page) (hrefs : list jsval) : Page :=
  {| locationHref := locationHref p; evaluates := evaluates p;
     documentTitle := documentTitle p; bodyInnerText := bodyInnerText p;
     h1s := h1s p; h2s := h2s p; h3s := h3s p;
     querySelectorText := querySelectorText p;
     imgs := imgs p; divs := divs p; sections := sections p;
     headers := headers p; heroes := heroes p; banners := banners p;
     pictureSources := pictureSources p; anchors := hrefs |}.

(** An anchor that [discoverLinks] passes over before any resolution:
    no [href], an empty one, or one of the four skipped kinds. *)
Definition passedOver (a : jsval) : bool :=
  match a with
  | None => true
  | Some h => negb (JS.truthy h) || skippedHref h
  end.

(** The text that marks a platform in [extractSocials]. *)
Definition marked (pf : Platform) (lowerUrl : string) : bool :=
  match pf with
  | Facebook => JS.includes lowerUrl "facebook.com/"
                && negb (JS.includes lowerUrl "/sharer")
  | Instagram => JS.includes lowerUrl "instagram.com/"
  | LinkedIn => JS.includes lowerUrl "linkedin.com/"
  | Twitter => JS.includes lowerUrl "twitter.com/"
               || JS.includes lowerUrl "x.com/"
  | YouTube => JS.includes lowerUrl "youtube.com/"
               || JS.includes lowerUrl "youtu.be/"
  | XING => JS.includes lowerUrl "xing.com/"
  end.

(** Where the visit of a link landed, when it yields a record: the
    location of the page that was loaded. *)
Definition landed (w : World) (link : string) : list string :=
  match openSubpage w link with
  | Loaded p => if evaluates p then [locationHref p] else []
  | _ => []
  end.

(** ** [performScan] *)

Inductive Category : Type :=
| Security | Mobile | Legal | Gdpr | Seo | Accessibility.

Inductive Severity : Type := Critical | High | Medium | Low.

(** The sixteen issues of the source, named after their titles; an issue
    whose message quotes a number of the page carries that number. The
    percentage quoted for images without alt text is computed in floating
    point and is left out. *)
Inductive IssueTitle : Type :=
| NoSsl                          (* 'Keine SSL-Verschluesselung' *)
| NotMobile                      (* 'Nicht mobile-optimiert' *)
| NoImpressum                    (* 'Impressum fehlt' *)
| NoDatenschutz                  (* 'Datenschutzerklaerung fehlt' *)
| GoogleFontsLoaded              (* 'Google Fonts werden illegal geladen' *)
| GoogleMapsLoaded               (* 'Google Maps ohne Consent' *)
| TitleMissing                   (* 'Seitentitel fehlt' *)
| TitleTooShort (len : nat)      (* 'Seitentitel zu kurz' *)
| TitleTooLong (len : nat)       (* 'Seitentitel zu lang' *)
| DescriptionMissing             (* 'Meta-Description fehlt' *)
| DescriptionTooShort (len : nat)  (* 'Meta-Description zu kurz' *)
| H1Missing                      (* 'H1-Ueberschrift fehlt' *)
| MultipleH1 (count : nat)       (* 'Mehrere H1-Ueberschriften' *)
| LangMissing                    (* 'Sprachattribut fehlt' *)
| OpenGraphMissing               (* 'Open Graph Tags fehlen' *)
| ImagesWithoutAlt (missing total : nat).  (* 'Bilder ohne Alt-Text' *)

Record Issue : Type := mkIssue
  { category : Category;
    severity : Severity;
    title : IssueTitle }.

Definition buildIssue (c : Category) (s : Severity) (t : IssueTitle) : Issue :=
  {| category := c; severity := s; title := t |}.

(** What [page.evaluate] reads in [performScan]. For the three meta
    elements, [None] says that the element is missing and [Some None]
    that it has no [content] attribute. *)
Record ScanDom : Type := mkScanDom
  { scanEvaluates : bool;              (* false: page.evaluate rejects *)
    innerHTML : jsval;                 (* document.documentElement?.innerHTML *)
    anchorTexts : list jsval;          (* textContent of each a *)
    scanTitle : string;                (* document.title *)
    descriptionMeta : option jsval;    (* meta[name=description] *)
    viewportMeta : bool;               (* meta[name=viewport] exists *)
    h1Elements : nat;                  (* querySelectorAll('h1').length *)
    langAttr : string;                 (* document.documentElement.lang *)
    ogTitleMeta : option jsval;        (* meta[property=og:title] *)
    ogDescriptionMeta : option jsval;  (* meta[property=og:description] *)
    imgAlts : list string }.           (* alt of each img *)

Record PageData : Type := mkPageData
  { pdTitle : string;
    pdMetaDescription : string;
    hasViewportMeta : bool;
    hasImpressumLink : bool;
    hasDatenschutzLink : bool;
    h1Count : nat;
    htmlLang : string;
    ogTitle : string;
    ogDescription : string;
    pdTotalImages : nat;
    imagesWithoutAlt : nat;
    pdTechStack : list string }.

Record GdprFindings : Type := mkGdprFindings
  { googleFonts : bool;
    googleMaps : bool }.

Definition orEmpty (v : jsval) : string :=
  match orElse v (Some "") with
  | Some s => s
  | None => ""
  end.

(** [anchors.some(a => (a.textContent || '').toLowerCase().includes(w))] *)
Definition someAnchorSays (w : string) (d : ScanDom) : bool :=
  existsb (fun a => JS.includes (JS.toLowerCase (orEmpty a)) w) (anchorTexts d).

(** The tech stack set, in the order of the tests of the source. *)
Definition detectTechStack (lowerHtml : string) : list string :=
  let has := JS.includes lowerHtml in
  let s0 := [] in
  let s1 := if has "wp-content" then setAdd "WordPress" s0 else s0 in
  let s2 := if has "wixstatic.com" || has "wixsite.com"
            then setAdd "Wix" s1 else s1 in
  let s3 := if has "jimstatic.com" || has "jimdo"
            then setAdd "Jimdo" s2 else s2 in
  let s4 := if has "squarespace" then setAdd "Squarespace" s3 else s3 in
  let s5 := if has "shopify" then setAdd "Shopify" s4 else s4 in
  if has "google-analytics.com" || has "gtag(" || has "gtm.js" ||
     has "googletagmanager.com"
  then setAdd "Google Analytics" s5 else s5.

(** [el?.getAttribute('content')] *)
Definition contentOfMeta (m : option jsval) : jsval :=
  match m with
  | Some v => v
  | None => None
  end.

(** The function evaluated in the page. *)
Definition readPageData (d : ScanDom) : PageData :=
  let html := orEmpty (innerHTML d) in
  let lowerHtml := JS.toLowerCase html in
  {| pdTitle := JS.trim (scanTitle d);
     pdMetaDescription :=
       orEmpty (option_map JS.trim (contentOfMeta (descriptionMeta d)));
     hasViewportMeta := viewportMeta d;
     hasImpressumLink := someAnchorSays "impressum" d;
     hasDatenschutzLink := someAnchorSays "datenschutz" d;
     h1Count := h1Elements d;
     htmlLang := langAttr d;
     ogTitle := orEmpty (contentOfMeta (ogTitleMeta d));
     ogDescription := orEmpty (contentOfMeta (ogDescriptionMeta d));
     pdTotalImages := length (imgAlts d);
     imagesWithoutAlt :=
       length (filter (fun alt => negb (JS.truthy alt)
                                  || String.eqb (JS.trim alt) "")
                      (imgAlts d));
     pdTechStack := detectTechStack lowerHtml |}.

(** The handler of [context.route]: the flags after the requests seen. *)
Definition matchesHost (host reqUrl : string) : bool :=
  JS.includes (JS.foldCase reqUrl) host.

Definition interceptRequests (requests : list string) : GdprFindings :=
  {| googleFonts :=
       existsb (fun u => matchesHost "fonts.googleapis.com" u
                         || matchesHost "fonts.gstatic.com" u) requests;
     googleMaps :=
       existsb (fun u => matchesHost "maps.googleapis.com" u
                         || matchesHost "maps.gstatic.com" u) requests |}.

(** [score = Math.max(0, score - amount)] *)
Definition applyPenalty (amount : Z) (score : Z) : Z :=
  Z.max 0 (score - amount).

(** The running score and the issues pushed so far. *)
Definition Audit : Type := (Z * list Issue)%type.

(** [issues.push(issue); applyPenalty(amount)] *)
Definition report (issue : Issue) (amount : Z) (a : Audit) : Audit :=
  (applyPenalty amount (fst a), (snd a ++ [issue])%list).

(** [if (cond) { issues.push(issue); applyPenalty(amount) }] *)
Definition check (cond : bool) (issue : Issue) (amount : Z) (a : Audit) : Audit :=
  if cond then report issue amount a else a.

Definition checkTitle (d : PageData) (a : Audit) : Audit :=
  let len := String.length (pdTitle d) in
  if negb (JS.truthy (pdTitle d))
  then report (buildIssue Seo Medium TitleMissing) 5 a
  else if len <? 10
  then report (buildIssue Seo Medium (TitleTooShort len)) 5 a
  else if 70 <? len
  then report (buildIssue Seo Low (TitleTooLong len)) 3 a
  else a.

Definition checkDescription (d : PageData) (a : Audit) : Audit :=
  let len := String.length (pdMetaDescription d) in
  if negb (JS.truthy (pdMetaDescription d))
  then report (buildIssue Seo Medium DescriptionMissing) 5 a
  else if len <? 50
  then report (buildIssue Seo Low (DescriptionTooShort len)) 3 a
  else a.

Definition checkH1 (d : PageData) (a : Audit) : Audit :=
  if h1Count d =? 0
  then report (buildIssue Seo Medium H1Missing) 5 a
  else if 1 <? h1Count d
  then report (buildIssue Seo Medium (MultipleH1 (h1Count d))) 5 a
  else a.

(** The scoring of [performScan], from [let score = 100] to the last
    [applyPenalty]. *)
Definition audit (finalProtocol : string) (d : PageData) (g : GdprFindings)
  : Audit :=
  let a0 : Audit := (100%Z, []) in
  let a1 := check (negb (String.eqb finalProtocol "https:"))
                  (buildIssue Security High NoSsl) 40 a0 in
  let a2 := check (negb (hasViewportMeta d))
                  (buildIssue Mobile High NotMobile) 20 a1 in
  let a3 := check (negb (hasImpressumLink d))
                  (buildIssue Legal Critical NoImpressum) 30 a2 in
  let a4 := check (negb (hasDatenschutzLink d))
                  (buildIssue Legal High NoDatenschutz) 15 a3 in
  let a5 := check (googleFonts g)
                  (buildIssue Gdpr High GoogleFontsLoaded) 20 a4 in
  let a6 := check (googleMaps g)
                  (buildIssue Gdpr Medium GoogleMapsLoaded) 10 a5 in
  let a7 := checkTitle d a6 in
  let a8 := checkDescription d a7 in
  let a9 := checkH1 d a8 in
  let a10 := check (negb (JS.truthy (htmlLang d)))
                   (buildIssue Seo Low LangMissing) 2 a9 in
  let a11 := check (negb (JS.truthy (ogTitle d))
                    && negb (JS.truthy (ogDescription d)))
                   (buildIssue Seo Low OpenGraphMissing) 3 a10 in
  check ((0 <? pdTotalImages d) && (0 <? imagesWithoutAlt d))
        (buildIssue Accessibility Medium
           (ImagesWithoutAlt (imagesWithoutAlt d) (pdTotalImages d)))
        5 a11.

(** The penalty that the source applies with each issue. *)
Definition penaltyOf (t : IssueTitle) : Z :=
  match t with
  | NoSsl => 40
  | NotMobile => 20
  | NoImpressum => 30
  | NoDatenschutz => 15
  | GoogleFontsLoaded => 20
  | GoogleMapsLoaded => 10
  | TitleMissing => 5
  | TitleTooShort _ => 5
  | TitleTooLong _ => 3
  | DescriptionMissing => 5
  | DescriptionTooShort _ => 3
  | H1Missing => 5
  | MultipleH1 _ => 5
  | LangMissing => 2
  | OpenGraphMissing => 3
  | ImagesWithoutAlt _ _ => 5
  end.

Definition totalPenalty (l : list Issue) : Z :=
  fold_right (fun i s => (penaltyOf (title i) + s)%Z) 0%Z l.

(** What the navigation of [performScan] yields: the final URL of the
    page, what the page holds, the URLs of the requests that were
    intercepted, and the screenshot in base 64 when it could be taken. *)
Inductive ScanNavigation : Type :=
| ScanTabFailed
| ScanNavigationFailed
| ScanLoaded (finalUrl : string) (dom : ScanDom) (requests : list string)
             (screenshot : option string).

Record ScanWorld : Type := mkScanWorld
  { scanLaunches : bool;
    openScan : string -> ScanNavigation }.

Record ScanResult : Type := mkScanResult
  { srUrl : string;
    srFinalUrl : string;
    srScore : Z;
    srScreenshot : jsval;
    srMetaTitle : string;
    srMetaDescription : string;
    srTechStack : list string;
    srIssues : list Issue }.

Section PerformScan.
Context {P : URLParser}.

(** [new URL(finalUrl).protocol], ['http:'] when the constructor throws. *)
Definition finalProtocolOf (finalUrl : string) : string :=
  match new_URL finalUrl None with
  | Some u => protocol u
  | None => "http:"
  end.

Definition performScan (w : ScanWorld) (inputUrl : string) : Result ScanResult :=
  match normalizeUrl inputUrl with
  | inl e => throw e
  | inr targetUrl =>
      if negb (scanLaunches w) then throw BrowserFailure
      else
        match openScan w (href targetUrl) with
        | ScanTabFailed => throw BrowserFailure
        | ScanNavigationFailed => throw SiteUnreachable
        | ScanLoaded finalUrl dom requests shot =>
            let finalProtocol := finalProtocolOf finalUrl in
            if negb (scanEvaluates dom) then throw BrowserFailure
            else
              let pageData := readPageData dom in
              let a := audit finalProtocol pageData
                             (interceptRequests requests) in
              ok {| srUrl := href targetUrl;
                    srFinalUrl := finalUrl;
                    srScore := fst a;
                    srScreenshot :=
                      option_map (fun b => "data:image/jpeg;base64," ++ b) shot;
                    srMetaTitle := pdTitle pageData;
                    srMetaDescription := pdMetaDescription pageData;
                    srTechStack := unique (pdTechStack pageData);
                    srIssues := snd a |}
        end
  end.

End PerformScan.

(** ** The routes [/scan] and [/harvest] *)

(** The message of a thrown error; that of a browser failure is the
    platform's. *)
Definition messageOf (e : Error) (platformMessage : string) : string :=
  match e with
  | UrlRequired => "URL is required"
  | InvalidUrl => "Invalid URL. Provide a valid http(s) URL."
  | ProtocolNotAllowed => "Only HTTP/HTTPS protocols are allowed."
  | SiteUnreachable => "Target site unreachable or timed out."
  | BrowserFailure => platformMessage
  end.

Definition SCAN_TIMEOUT_MESSAGE : string := "Scan timeout after 30 seconds.".
Definition HARVEST_TIMEOUT_MESSAGE : string := "Harvest timeout after 45 seconds.".

(** The [catch] block of both routes: the message sent, and the status. *)
Definition routeMessage (fallback errorMessage : string) : string :=
  if JS.truthy errorMessage then errorMessage else fallback.

Definition isUserError (message : string) : bool :=
  JS.includes message "URL is required" ||
  JS.includes message "Invalid URL" ||
  JS.includes message "Only HTTP/HTTPS protocols are allowed.".

Definition statusOf (message : string) : nat :=
  if isUserError message then 400
  else if JS.includes message "unreachable" || JS.includes message "timeout"
  then 502
  else 500.

(** ** A sample scan

    A page served without encryption that loads a font from Google, on
    which the scan is run in the examples below. *)

Module ScanSample.

Definition dom : ScanDom :=
  {| scanEvaluates := true;
     innerHTML := Some "<link href=/WP-Content/a.css><script src=//www.googletagmanager.com/gtm.js>";
     anchorTexts := [Some "Kontakt"; None; Some " IMPRESSUM "];
     scanTitle := " Example ";
     descriptionMeta := Some None;
     viewportMeta := true;
     h1Elements := 2;
     langAttr := "de";
     ogTitleMeta := None;
     ogDescriptionMeta := Some (Some "");
     imgAlts := ["logo"; ""; "  "] |}.

Definition world : ScanWorld :=
  {| scanLaunches := true;
     openScan := fun u =>
       if String.eqb u "https://example.com/"
       then ScanLoaded "http://example.com/" dom
                       ["https://Fonts.GoogleAPIs.com/css?family=Lato";
                        "http://example.com/app.js"]
                       (Some "AAAA")
       else ScanNavigationFailed |}.

Definition noResult : ScanResult :=
  {| srUrl := ""; srFinalUrl := ""; srScore := 0; srScreenshot := None;
     srMetaTitle := ""; srMetaDescription := ""; srTechStack := [];
     srIssues := [] |}.

Definition resultOf (w : ScanWorld) (inputUrl : string) : ScanResult :=
  match performScan (P := RefURL.parser) w inputUrl with
  | inr r => r
  | inl _ => noResult
  end.

End ScanSample.

(** The running score is what the issues pushed so far leave of 100, and
    each of them costs at least 2. *)
Definition scored (a : Audit) : Prop :=
  fst a = Z.max 0 (100 - totalPenalty (snd a)) /\
  (2 * Z.of_nat (length (snd a)) <= totalPenalty (snd a))%Z.

(** [b] is [a] after some more issues, none of them on security. *)
Definition addsOnly (a b : Audit) : Prop :=
  exists l, snd b = (snd a ++ l)%list /\
            Forall (fun i => category i <> Security) l.

(** The names that [performScan] gives to what it detects. *)
Definition knownTech : list string :=
  ["WordPress"; "Wix"; "Jimdo"; "Squarespace"; "Shopify"; "Google Analytics"].

(** * Properties *)

(** ** Strings *)

Lemma prefix_app (p r : string) : String.prefix p (p ++ r) = true.
Proof.
  induction p as [|c p IH]; simpl.
  - destruct r; reflexivity.
  - destruct (ascii_dec c c) as [_|n]; [exact IH | now elim n].
Qed.

Lemma prefix_split (p s : string) :
  String.prefix p s = true -> exists r, s = p ++ r.
Proof.
  revert s. induction p as [|c p IH]; intros s H.
  - exists s. reflexivity.
  - destruct s as [|d s]; simpl in H; [discriminate|].
    destruct (ascii_dec c d) as [->|]; [|discriminate].
    destruct (IH s H) as [r ->]. exists r. reflexivity.
Qed.

Lemma startsWith_iff (s p : string) :
  JS.startsWith s p = true <-> exists r, s = p ++ r.
Proof.
  unfold JS.startsWith. split.
  - apply prefix_split.
  - intros [r ->]. apply prefix_app.
Qed.

Lemma smap_app (f : ascii -> ascii) (a b : string) :
  JS.smap f (a ++ b) = JS.smap f a ++ JS.smap f b.
Proof. induction a as [|c a IH]; simpl; [reflexivity | now rewrite IH]. Qed.

Lemma smap_split (f : ascii -> ascii) (s x y : string) :
  JS.smap f s = x ++ y ->
  exists a b, s = a ++ b /\ JS.smap f a = x /\ JS.smap f b = y.
Proof.
  revert s. induction x as [|c x IH]; intros s H.
  - exists "", s. auto.
  - destruct s as [|d s]; simpl in H; [discriminate|].
    injection H as Hc Hs. destruct (IH s Hs) as (a & b & -> & Ha & Hb).
    exists (String d a), b. simpl. now rewrite Hc, Ha.
Qed.

Lemma truthy_iff (s : string) : JS.truthy s = true <-> s <> "".
Proof.
  unfold JS.truthy. destruct (String.eqb_spec s ""); simpl; split;
    intros; congruence.
Qed.

Lemma truthy_false_iff (s : string) : JS.truthy s = false <-> s = "".
Proof.
  unfold JS.truthy. destruct (String.eqb_spec s ""); simpl; split;
    intros; congruence.
Qed.

Lemma chars_str (l : list ascii) : JS.chars (JS.str l) = l.
Proof. apply list_ascii_of_string_of_list_ascii. Qed.

Lemma str_chars (s : string) : JS.str (JS.chars s) = s.
Proof. apply string_of_list_ascii_of_string. Qed.

Lemma dropWhile_split (f : ascii -> bool) (l : list ascii) :
  exists a, l = (a ++ JS.dropWhile f l)%list /\ forallb f a = true.
Proof.
  induction l as [|c l (a & E & F)]; simpl.
  - exists []. auto.
  - destruct (f c) eqn:Hc.
    + exists (c :: a). simpl. rewrite Hc, F. now rewrite <- E.
    + exists []. auto.
Qed.

Lemma dropWhile_head (f : ascii -> bool) (l : list ascii) (c : ascii) (r : list ascii) :
  JS.dropWhile f l = c :: r -> f c = false.
Proof.
  induction l as [|d l IH]; simpl; [discriminate|].
  destruct (f d) eqn:Hd; [exact IH|]. intros E. injection E as -> _. exact Hd.
Qed.

(** [trim] removes a run of white space at each end and nothing else, and
    what is left neither starts nor ends with white space. *)
Lemma trim_spec (s : string) :
  exists a b : list ascii,
    JS.chars s = (a ++ JS.chars (JS.trim s) ++ b)%list /\
    forallb JS.isWhiteSpace a = true /\ forallb JS.isWhiteSpace b = true /\
    (forall c r, JS.chars (JS.trim s) = c :: r -> JS.isWhiteSpace c = false) /\
    (forall c r, rev (JS.chars (JS.trim s)) = c :: r -> JS.isWhiteSpace c = false).
Proof.
  unfold JS.trim, JS.trimEnd, JS.trimStart. rewrite !chars_str.
  destruct (dropWhile_split JS.isWhiteSpace (JS.chars s)) as (a & Ea & Fa).
  set (m := JS.dropWhile JS.isWhiteSpace (JS.chars s)) in *.
  destruct (dropWhile_split JS.isWhiteSpace (rev m)) as (b & Eb & Fb).
  set (e := JS.dropWhile JS.isWhiteSpace (rev m)) in *.
  assert (Em : m = (rev e ++ rev b)%list).
  { rewrite <- rev_app_distr, <- Eb. symmetry. apply rev_involutive. }
  exists a, (rev b). repeat split.
  - rewrite <- Em. exact Ea.
  - exact Fa.
  - rewrite forallb_forall in *. intros x Hx. apply Fb. now apply in_rev.
  - intros c r Hc. destruct (rev e) as [|c' r'] eqn:He; [discriminate|].
    injection Hc as -> ->.
    destruct a as [|? ?] eqn:Ha.
    + subst m. destruct (JS.chars s) as [|d l] eqn:Hs; simpl in Em; [discriminate|].
      simpl in Em. destruct (JS.isWhiteSpace d) eqn:Hd.
      * eapply (dropWhile_head JS.isWhiteSpace l). rewrite Em. reflexivity.
      * injection Em as -> _. exact Hd.
    + eapply (dropWhile_head JS.isWhiteSpace (JS.chars s)). fold m. rewrite Em.
      reflexivity.
  - intros c r Hc. rewrite rev_involutive in Hc.
    eapply (dropWhile_head JS.isWhiteSpace (rev m)). exact Hc.
Qed.

(** ** The URL normalizer *)

Lemma hasHttpScheme_iff (s : string) :
  hasHttpScheme s = true <->
  exists p r, s = p ++ r /\
              (JS.foldCase p = "http://" \/ JS.foldCase p = "https://").
Proof.
  unfold hasHttpScheme. rewrite orb_true_iff, !startsWith_iff. split.
  - intros [[r E]|[r E]]; apply smap_split in E;
      destruct E as (a & b & -> & Ha & _); exists a, b; auto.
  - intros (p & r & -> & [E|E]); unfold JS.foldCase in *;
      rewrite smap_app, E; [left|right]; eexists; reflexivity.
Qed.

Lemma allowedProtocol_iff (p : string) :
  allowedProtocol p = true <-> p = "http:" \/ p = "https:".
Proof.
  unfold allowedProtocol. rewrite orb_true_iff, !String.eqb_eq. tauto.
Qed.

(** C9. [normalizeUrl] trims the input; it fails with InvalidInput
    exactly when nothing is left; it puts [https://] in front exactly when
    the trimmed input has no http:// or https:// prefix, whatever the case
    of the letters; it fails with InvalidURL exactly when the result does
    not parse or parses to another scheme; otherwise it returns the parsed
    URL (which carries the hostname). *)
Theorem normalizeUrl_spec {P : URLParser} (rawUrl : string) :
  let trimmed := JS.trim rawUrl in
  let candidate :=
    if hasHttpScheme trimmed then trimmed else "https://" ++ trimmed in
  (exists a b : list ascii,
      JS.chars rawUrl = (a ++ JS.chars trimmed ++ b)%list /\
      forallb JS.isWhiteSpace a = true /\ forallb JS.isWhiteSpace b = true /\
      (forall c r, JS.chars trimmed = c :: r -> JS.isWhiteSpace c = false) /\
      (forall c r, rev (JS.chars trimmed) = c :: r -> JS.isWhiteSpace c = false)) /\
  (hasHttpScheme trimmed = true <->
     exists p r, trimmed = p ++ r /\
                 (JS.foldCase p = "http://" \/ JS.foldCase p = "https://")) /\
  ((exists e, normalizeUrl rawUrl = inl e /\ kind e = InvalidInput) <->
     trimmed = "") /\
  ((exists e, normalizeUrl rawUrl = inl e /\ kind e = InvalidURL) <->
     trimmed <> "" /\
     (new_URL candidate None = None \/
      exists u, new_URL candidate None = Some u /\
                protocol u <> "http:" /\ protocol u <> "https:")) /\
  (forall u, normalizeUrl rawUrl = inr u <->
     trimmed <> "" /\ new_URL candidate None = Some u /\
     (protocol u = "http:" \/ protocol u = "https:")).
Proof.
  intros trimmed candidate.
  split; [apply trim_spec|]. split; [apply hasHttpScheme_iff|].
  unfold normalizeUrl, withProtocol. fold trimmed. fold candidate.
  assert (Hallow : forall u, allowedProtocol (protocol u) = false ->
            protocol u <> "http:" /\ protocol u <> "https:").
  { intros u Hp. split; intros E;
      (assert (K : allowedProtocol (protocol u) = true)
        by (apply allowedProtocol_iff; auto)); congruence. }
  destruct (JS.truthy trimmed) eqn:Ht; simpl.
  - apply truthy_iff in Ht.
    destruct (new_URL candidate None) as [u|] eqn:Hu;
      [destruct (allowedProtocol (protocol u)) eqn:Hp; simpl|].
    + apply allowedProtocol_iff in Hp.
      split; [|split; [|intros v]]; split.
      * intros (e & He & _). discriminate.
      * intros E. contradiction.
      * intros (e & He & _). discriminate.
      * intros (_ & [E|(v & Ev & N1 & N2)]); [discriminate|].
        injection Ev as <-. destruct Hp; contradiction.
      * intros E. injection E as <-. auto.
      * intros (_ & E & _). injection E as <-. reflexivity.
    + destruct (Hallow u Hp) as [N1 N2].
      split; [|split; [|intros v]]; split.
      * intros (e & He & K). injection He as <-. discriminate.
      * intros E. contradiction.
      * intros _. split; [exact Ht|]. right. exists u. auto.
      * intros _. exists ProtocolNotAllowed. auto.
      * discriminate.
      * intros (_ & E & [Hv|Hv]); injection E as <-; contradiction.
    + split; [|split; [|intros v]]; split.
      * intros (e & He & K). injection He as <-. discriminate.
      * intros E. contradiction.
      * intros _. auto.
      * intros _. exists InvalidUrl. auto.
      * discriminate.
      * intros (_ & E & _). discriminate.
  - apply truthy_false_iff in Ht.
    split; [|split; [|intros v]]; split.
    + intros _. exact Ht.
    + intros _. exists UrlRequired. auto.
    + intros (e & He & K). injection He as <-. discriminate.
    + intros (N & _). contradiction.
    + discriminate.
    + intros (N & _). contradiction.
Qed.

(** ** Sets kept as lists *)

Lemma existsb_eqb_In (x : string) (s : list string) :
  existsb (String.eqb x) s = true <-> In x s.
Proof.
  rewrite existsb_exists. split.
  - intros (y & Hy & E). apply String.eqb_eq in E. now subst.
  - intros H. exists x. split; [exact H | apply String.eqb_refl].
Qed.

Lemma In_setAdd (x y : string) (s : list string) :
  In x (setAdd y s) <-> In x s \/ x = y.
Proof.
  unfold setAdd. destruct (existsb (String.eqb y) s) eqn:E.
  - apply existsb_eqb_In in E. split; [auto|]. intros [H| ->]; assumption.
  - rewrite in_app_iff. simpl. intuition.
Qed.

Lemma NoDup_setAdd (y : string) (s : list string) :
  NoDup s -> NoDup (setAdd y s).
Proof.
  intros H. unfold setAdd. destruct (existsb (String.eqb y) s) eqn:E; [exact H|].
  assert (N : ~ In y s) by (rewrite <- existsb_eqb_In, E; discriminate).
  clear E. induction H as [|a l Ha Hl IH]; simpl.
  - constructor; [intros []|constructor].
  - constructor.
    + rewrite in_app_iff. simpl. intros [K|[K|[]]]; [tauto|].
      subst. apply N. now left.
    + apply IH. intros K. apply N. now right.
Qed.

Lemma In_addAll (l acc : list string) (x : string) :
  In x (fold_left (fun s y => setAdd y s) l acc) <-> In x acc \/ In x l.
Proof.
  revert acc. induction l as [|y l IH]; intros acc; simpl.
  - tauto.
  - rewrite IH, In_setAdd. intuition.
Qed.

Lemma NoDup_addAll (l acc : list string) :
  NoDup acc -> NoDup (fold_left (fun s y => setAdd y s) l acc).
Proof.
  revert acc. induction l as [|y l IH]; intros acc H; simpl; [exact H|].
  apply IH, NoDup_setAdd, H.
Qed.

Lemma In_unique (l : list string) (x : string) : In x (unique l) <-> In x l.
Proof. unfold unique. rewrite In_addAll. simpl. tauto. Qed.

Lemma NoDup_unique (l : list string) : NoDup (unique l).
Proof. apply NoDup_addAll. constructor. Qed.

Lemma firstn_add {A} (k n : nat) (m : list A) :
  firstn (k + n) m = (firstn k m ++ firstn n (skipn k m))%list.
Proof.
  revert m. induction k as [|k IH]; intros m; simpl; [reflexivity|].
  destruct m as [|a m]; simpl.
  - now destruct n.
  - now rewrite IH.
Qed.

Lemma In_firstn {A} (n : nat) (l : list A) (x : A) :
  In x (firstn n l) -> In x l.
Proof.
  revert l. induction n as [|n IH]; intros [|a l]; simpl; try tauto.
  intros [H|H]; [now left | right; now apply IH].
Qed.

(** ** The batch loop *)

Section Loop.
Context {P : URLParser}.
Variable w : World.

Lemma promiseAll_ok (batch : list string) (results : list (option PageContent)) :
  promiseAll (map (visitLink w) batch) = inr results ->
  filterBoolean results = flat_map (contribution w) batch /\
  filter (navigated w) batch = batch.
Proof.
  revert results. induction batch as [|link batch IH]; intros results; simpl.
  - intros E. injection E as <-. auto.
  - unfold contribution at 1, navigated at 1. unfold visitLink at 1 3.
    destruct (openSubpage w link) as [| |p] eqn:Ho; simpl; [discriminate| |];
      [|destruct (extractPageContent p) as [e|c]];
      (destruct (promiseAll (map (visitLink w) batch)) as [e'|rest];
       [discriminate|]);
      intros E; injection E as <-; destruct (IH rest eq_refl) as [E1 E2];
      unfold filterBoolean in *; simpl; rewrite E1, E2; auto.
Qed.

Lemma visitBatches_done startTime links i acc t :
  length links <= i -> visitBatches w startTime links i acc t = (ok acc, t).
Proof.
  intros H. simp visitBatches. destruct (lt_dec i (length links)); [lia|].
  reflexivity.
Qed.

Lemma visitBatches_timeout startTime links i acc t :
  i < length links -> timedOut w startTime t = true ->
  visitBatches w startTime links i acc t = (ok acc, tick t).
Proof.
  intros H T. simp visitBatches. destruct (lt_dec i (length links)); [|lia].
  simpl. rewrite T. reflexivity.
Qed.

Lemma visitBatches_step startTime links i acc t :
  i < length links -> timedOut w startTime t = false ->
  visitBatches w startTime links i acc t =
  match visitBatch w (slice i (i + CONCURRENT_TABS) links) (tick t) with
  | (inl e, t2) => (throw e, t2)
  | (inr batchResults, t2) =>
      visitBatches w startTime links (i + CONCURRENT_TABS)
                   (acc ++ filterBoolean batchResults)%list t2
  end.
Proof.
  intros H T. simp visitBatches. destruct (lt_dec i (length links)); [|lia].
  simpl. rewrite T. simpl.
  destruct (promiseAll (map (visitLink w) (slice i (i + CONCURRENT_TABS) links)));
    reflexivity.
Qed.

Lemma slice_batch (i : nat) (links : list string) :
  slice i (i + CONCURRENT_TABS) links = firstn CONCURRENT_TABS (skipn i links).
Proof. unfold slice. f_equal. lia. Qed.

(** A loop that ends normally has run some number [k] of batches: it has
    visited the first [k] batches of what was left of the queue and added
    the contribution of each of their links; the test before each of them
    passed, and if links are left the test before the next batch did not. *)
Lemma visitBatches_run startTime links :
  forall m i acc t res t',
    length links - i <= m ->
    visitBatches w startTime links i acc t = (inr res, t') ->
    exists k,
      res = (acc ++ flat_map (contribution w)
                      (firstn (k * CONCURRENT_TABS) (skipn i links)))%list /\
      visited t' = (visited t ++
                    firstn (k * CONCURRENT_TABS) (skipn i links))%list /\
      (forall j, j < k -> exceeded w startTime (clockReads t + j) = false) /\
      (i + k * CONCURRENT_TABS < length links ->
       exceeded w startTime (clockReads t + k) = true).
Proof.
  induction m as [|m IH]; intros i acc t res t' Hm E.
  - rewrite visitBatches_done in E by lia. injection E as <- <-.
    exists 0. simpl. rewrite !app_nil_r. repeat split; auto; lia.
  - destruct (le_lt_dec (length links) i) as [Hd|Hlt].
    + rewrite visitBatches_done in E by lia. injection E as <- <-.
      exists 0. simpl. rewrite !app_nil_r. repeat split; auto; lia.
    + destruct (timedOut w startTime t) eqn:T.
      * rewrite visitBatches_timeout in E by assumption. injection E as <- <-.
        exists 0. simpl. rewrite !app_nil_r. repeat split; auto; [lia|].
        intros _. rewrite Nat.add_0_r. exact T.
      * rewrite visitBatches_step in E by assumption.
        unfold visitBatch in E. rewrite slice_batch in E.
        set (batch := firstn CONCURRENT_TABS (skipn i links)) in *.
        destruct (promiseAll (map (visitLink w) batch)) as [e|results] eqn:Hp;
          [discriminate|].
        destruct (promiseAll_ok _ Hp) as [Hc Hn].
        apply IH in E; [|unfold CONCURRENT_TABS; lia].
        destruct E as (k & -> & Hv & Hpass & Hstop). simpl in Hv, Hpass, Hstop.
        exists (S k).
        change (S k * CONCURRENT_TABS) with (CONCURRENT_TABS + k * CONCURRENT_TABS).
        rewrite firstn_add. fold batch.
        rewrite skipn_skipn, flat_map_app, Hc, Hv, Hn, <- !app_assoc.
        replace (i + CONCURRENT_TABS) with (CONCURRENT_TABS + i) in * by lia.
        repeat split; auto.
        -- intros [|j] Hj.
           ++ rewrite Nat.add_0_r. exact T.
           ++ replace (clockReads t + S j) with (S (clockReads t + j)) by lia.
              apply Hpass. lia.
        -- intros Hleft.
           replace (clockReads t + S k) with (S (clockReads t + k)) by lia.
           apply Hstop. lia.
Qed.

Lemma visitBatches_ok startTime links :
  forall k i acc t res t',
    length links - i <= k ->
    visitBatches w startTime links i acc t = (inr res, t') ->
    exists n,
      res = (acc ++ flat_map (contribution w) (firstn n (skipn i links)))%list /\
      visited t' = (visited t ++ firstn n (skipn i links))%list.
Proof.
  intros m i acc t res t' Hm E.
  destruct (visitBatches_run _ _ _ _ _ Hm E) as (k & Hr & Hv & _).
  exists (k * CONCURRENT_TABS). auto.
Qed.

(** A loop that fails has met a subpage whose tab could not be opened. *)
Lemma visitBatches_error startTime links :
  forall k i acc t e t',
    length links - i <= k ->
    visitBatches w startTime links i acc t = (inl e, t') ->
    exists link, In link links /\ openSubpage w link = TabFailed.
Proof.
  assert (Hall : forall batch e,
             promiseAll (map (visitLink w) batch) = inl e ->
             exists link, In link batch /\ openSubpage w link = TabFailed).
  { induction batch as [|link batch IHb]; intros e; simpl; [discriminate|].
    unfold visitLink at 1.
    destruct (openSubpage w link) as [| |p] eqn:Ho.
    - intros _. exists link. auto.
    - destruct (promiseAll (map (visitLink w) batch)) as [e'|rest]; [|discriminate].
      intros _. destruct (IHb e' eq_refl) as (l & Hl & Hf). exists l. auto.
    - destruct (extractPageContent p);
        (destruct (promiseAll (map (visitLink w) batch)) as [e'|rest]; [|discriminate]);
        intros _; destruct (IHb e' eq_refl) as (l & Hl & Hf); exists l; auto. }
  induction k as [|k IH]; intros i acc t e t' Hk E.
  - rewrite visitBatches_done in E by lia. discriminate.
  - destruct (le_lt_dec (length links) i) as [Hd|Hlt].
    + rewrite visitBatches_done in E by lia. discriminate.
    + destruct (timedOut w startTime t) eqn:T.
      * rewrite visitBatches_timeout in E by assumption. discriminate.
      * rewrite visitBatches_step in E by assumption.
        unfold visitBatch in E. rewrite slice_batch in E.
        set (batch := firstn CONCURRENT_TABS (skipn i links)) in *.
        destruct (promiseAll (map (visitLink w) batch)) as [e0|results] eqn:Hp.
        -- destruct (Hall _ _ Hp) as (l & Hl & Hf). exists l. split; [|exact Hf].
           unfold batch in Hl. apply In_firstn in Hl.
           rewrite <- (firstn_skipn i links). apply in_or_app. now right.
        -- apply IH in E; [exact E|unfold CONCURRENT_TABS; lia].
Qed.

(** Whatever the outcome of the loop, the navigations it issued are those
    of a prefix of what was left of the queue, less the links whose tab
    could not be opened. *)
Lemma visitBatches_visited startTime links :
  forall m i acc t out t',
    length links - i <= m ->
    visitBatches w startTime links i acc t = (out, t') ->
    exists n,
      visited t' =
      (visited t ++ filter (navigated w) (firstn n (skipn i links)))%list.
Proof.
  induction m as [|m IH]; intros i acc t out t' Hm E.
  - rewrite visitBatches_done in E by lia. injection E as <- <-.
    exists 0. simpl. now rewrite app_nil_r.
  - destruct (le_lt_dec (length links) i) as [Hd|Hlt].
    + rewrite visitBatches_done in E by lia. injection E as <- <-.
      exists 0. simpl. now rewrite app_nil_r.
    + destruct (timedOut w startTime t) eqn:T.
      * rewrite visitBatches_timeout in E by assumption. injection E as <- <-.
        exists 0. simpl. now rewrite app_nil_r.
      * rewrite visitBatches_step in E by assumption.
        unfold visitBatch in E. rewrite slice_batch in E.
        set (batch := firstn CONCURRENT_TABS (skipn i links)) in *.
        destruct (promiseAll (map (visitLink w) batch)) as [e|results].
        -- injection E as <- <-. exists CONCURRENT_TABS. reflexivity.
        -- apply IH in E; [|unfold CONCURRENT_TABS; lia].
           destruct E as (n & Hv). simpl in Hv.
           exists (CONCURRENT_TABS + n). rewrite firstn_add. fold batch.
           rewrite skipn_skipn, filter_app, Hv, <- app_assoc.
           now replace (i + CONCURRENT_TABS) with (CONCURRENT_TABS + i) by lia.
Qed.

End Loop.

(** ** The crawl as a whole *)

Section CrawlFacts.
Context {P : URLParser}.
Variable w : World.

(** [deepCrawl] is its seed stage, then the batch loop, then the fold. *)
Lemma deepCrawl_unfold (inputUrl : string) :
  deepCrawl w inputUrl start =
  match seedStage w inputUrl with
  | inl e => (inl e, tick start)
  | inr (targetUrl, homeContent, discoveredLinks, socials) =>
      match visitBatches w (clock w 0)
              (subpageQueue (href targetUrl) discoveredLinks) 0 []
              (tick start) with
      | (inl e, t) => (inl e, t)
      | (inr subpageContents, t) =>
          (inr (buildReport (hostname targetUrl) socials
                  (homeContent :: subpageContents)
                  (clock w (clockReads t) - clock w 0)),
           tick t)
      end
  end.
Proof.
  unfold deepCrawl, seedStage, bind, lift, now, launch, gotoSeed, ret, raise,
    tick, start.
  simpl.
  destruct (normalizeUrl inputUrl) as [e|u]; simpl; [reflexivity|].
  destruct (launches w); simpl; [|reflexivity].
  destruct (openSeed w (href u)) as [| |p]; simpl; try reflexivity.
  destruct (extractPageContent p) as [e|c]; simpl; [reflexivity|].
  destruct (discoverLinks p) as [e|l]; simpl; [reflexivity|].
  destruct (extractSocials p) as [e|s]; simpl; [reflexivity|].
  match goal with
  | |- context [visitBatches ?a ?b ?c ?d ?e ?f] =>
      destruct (visitBatches a b c d e f) as [[e0|sub] t]
  end; reflexivity.
Qed.

(** What a crawl that returns a report has done. *)
Lemma deepCrawl_ok (inputUrl : string) (r : Report) (t : Trace) :
  deepCrawl w inputUrl start = (inr r, t) ->
  exists targetUrl homeContent discoveredLinks socials n duration,
    seedStage w inputUrl = inr (targetUrl, homeContent, discoveredLinks, socials) /\
    visited t = firstn n (subpageQueue (href targetUrl) discoveredLinks) /\
    r = buildReport (hostname targetUrl) socials
          (homeContent ::
           flat_map (contribution w)
             (firstn n (subpageQueue (href targetUrl) discoveredLinks)))
          duration.
Proof.
  rewrite deepCrawl_unfold.
  destruct (seedStage w inputUrl) as [e|[[[u c] l] s]]; [discriminate|].
  destruct (visitBatches w (clock w 0) (subpageQueue (href u) l) 0 [] (tick start))
    as [[e|sub] t1] eqn:E; [discriminate|].
  intros H. injection H as <- <-.
  apply visitBatches_ok with (k := length (subpageQueue (href u) l)) in E;
    [|lia].
  destruct E as (n & -> & Hv). simpl in Hv.
  exists u, c, l, s, n. eexists. repeat split. exact Hv.
Qed.

(** Whatever the outcome of a crawl, the tab of every link that it
    navigated to had opened. *)
Lemma visited_navigated (inputUrl : string) (out : Result Report) (t : Trace) :
  deepCrawl w inputUrl start = (out, t) ->
  forall link, In link (visited t) -> navigated w link = true.
Proof.
  rewrite deepCrawl_unfold.
  destruct (seedStage w inputUrl) as [e|[[[u c] l] s]].
  - intros H. injection H as _ <-. intros link [].
  - destruct (visitBatches w (clock w 0) (subpageQueue (href u) l) 0 []
                (tick start)) as [res t1] eqn:E.
    apply visitBatches_visited
      with (m := length (subpageQueue (href u) l)) in E; [|lia].
    destruct E as (n & Hv). simpl in Hv.
    intros H link Hl.
    assert (Ht : visited t = visited t1)
      by (destruct res; injection H as _ <-; reflexivity).
    rewrite Ht, Hv in Hl. apply filter_In in Hl. tauto.
Qed.

(** A visit that failed leaves fewer records than visits. *)
Lemma filter_length_lt {A} (f : A -> bool) (l : list A) (x : A) :
  In x l -> f x = false -> length (filter f l) < length l.
Proof.
  induction l as [|a l IH]; [intros []|]. intros [->|H] Hx; simpl.
  - rewrite Hx. pose proof (filter_length_le f l). lia.
  - specialize (IH H Hx). destruct (f a); simpl; lia.
Qed.

(** The kind of failure that the batch loop lets through. *)
Lemma visitBatches_error_internal startTime links :
  forall k i acc t e t',
    length links - i <= k ->
    visitBatches w startTime links i acc t = (inl e, t') ->
    e = BrowserFailure.
Proof.
  assert (Hall : forall batch e,
             promiseAll (map (visitLink w) batch) = inl e -> e = BrowserFailure).
  { induction batch as [|link batch IHb]; intros e; simpl; [discriminate|].
    unfold visitLink at 1.
    destruct (openSubpage w link) as [| |p] eqn:Ho.
    - intros E. now injection E.
    - destruct (promiseAll (map (visitLink w) batch)) as [e'|rest]; [|discriminate].
      intros E. injection E as <-. now apply IHb.
    - destruct (extractPageContent p);
        (destruct (promiseAll (map (visitLink w) batch)) as [e'|rest]; [|discriminate]);
        intros E; injection E as <-; now apply IHb. }
  induction k as [|k IH]; intros i acc t e t' Hk E.
  - rewrite visitBatches_done in E by lia. discriminate.
  - destruct (le_lt_dec (length links) i) as [Hd|Hlt].
    + rewrite visitBatches_done in E by lia. discriminate.
    + destruct (timedOut w startTime t) eqn:T.
      * rewrite visitBatches_timeout in E by assumption. discriminate.
      * rewrite visitBatches_step in E by assumption.
        unfold visitBatch in E. rewrite slice_batch in E.
        destruct (promiseAll (map (visitLink w)
                    (firstn CONCURRENT_TABS (skipn i links)))) as [e0|results] eqn:Hp.
        -- injection E as <- _. exact (Hall _ _ Hp).
        -- apply IH in E; [exact E|unfold CONCURRENT_TABS; lia].
Qed.

Lemma seedStage_page (inputUrl : string) targetUrl homeContent links socials :
  seedStage w inputUrl = inr (targetUrl, homeContent, links, socials) ->
  exists homePage,
    normalizeUrl inputUrl = inr targetUrl /\
    openSeed w (href targetUrl) = Loaded homePage /\
    extractPageContent homePage = inr homeContent /\
    discoverLinks homePage = inr links /\
    extractSocials homePage = inr socials.
Proof.
  unfold seedStage.
  destruct (normalizeUrl inputUrl) as [e|u] eqn:Hu; [discriminate|].
  destruct (launches w); simpl; [|discriminate].
  destruct (openSeed w (href u)) as [| |p] eqn:Ho; try discriminate.
  destruct (extractPageContent p) as [e|c] eqn:Hc; [discriminate|].
  destruct (discoverLinks p) as [e|l] eqn:Hl; [discriminate|].
  destruct (extractSocials p) as [e|s] eqn:Hs; [discriminate|].
  intros E. injection E as <- <- <- <-. exists p. repeat split; auto.
Qed.

Lemma subpageQueue_length (baseUrl : string) (links : list string) :
  length (subpageQueue baseUrl links) <= MAX_PAGES.
Proof. unfold subpageQueue. apply firstn_le_length. Qed.

Lemma contribution_length (l : list string) :
  length (flat_map (contribution w) l) <= length l.
Proof.
  induction l as [|a l IH]; simpl; [lia|].
  rewrite length_app. unfold contribution at 1.
  destruct (visitLink w a) as [|[c|]]; simpl; lia.
Qed.

End CrawlFacts.

(** ** Link discovery and the subpage queue *)

Section DiscoveryFacts.
Context {P : URLParser}.

Lemma visitAnchor_mono cur host links a x :
  In x links -> In x (visitAnchor cur host links a).
Proof.
  intros H. unfold visitAnchor.
  destruct a as [h|]; [|exact H].
  destruct (JS.truthy h); simpl; [|exact H].
  destruct (skippedHref h); [exact H|].
  destruct (new_URL h (Some cur)) as [u|]; [|exact H].
  destruct (isInternalUrl cur host (href u)); [|exact H].
  destruct (hasDeniedExtension (cleanUrl (href u))); simpl; [exact H|].
  apply In_setAdd. now left.
Qed.

Lemma visitAnchors_mono cur host l links x :
  In x links -> In x (fold_left (visitAnchor cur host) l links).
Proof.
  revert links. induction l as [|a l IH]; intros links H; simpl; [exact H|].
  apply IH, visitAnchor_mono, H.
Qed.

Lemma visitAnchors_NoDup cur host l links :
  NoDup links -> NoDup (fold_left (visitAnchor cur host) l links).
Proof.
  revert links. induction l as [|a l IH]; intros links H; simpl; [exact H|].
  apply IH. unfold visitAnchor.
  destruct a as [h|]; [|exact H].
  destruct (JS.truthy h); simpl; [|exact H].
  destruct (skippedHref h); [exact H|].
  destruct (new_URL h (Some cur)) as [u|]; [|exact H].
  destruct (isInternalUrl cur host (href u)); [|exact H].
  destruct (hasDeniedExtension (cleanUrl (href u))); simpl; [exact H|].
  apply NoDup_setAdd, H.
Qed.

Lemma visitAnchors_origin cur host all l links :
  (forall a, In a l -> In a all) ->
  (forall x, In x links -> discoveredFrom cur host all x) ->
  forall x, In x (fold_left (visitAnchor cur host) l links) ->
            discoveredFrom cur host all x.
Proof.
  revert links. induction l as [|a l IH]; intros links Hsub Hacc x; simpl;
    [apply Hacc|].
  apply IH; [intros b Hb; apply Hsub; now right|].
  intros y. unfold visitAnchor.
  destruct a as [h|]; [|apply Hacc].
  destruct (JS.truthy h); simpl; [|apply Hacc].
  destruct (skippedHref h); [apply Hacc|].
  destruct (new_URL h (Some cur)) as [u|] eqn:Hu; [|apply Hacc].
  destruct (isInternalUrl cur host (href u)) eqn:Hi; [|apply Hacc].
  destruct (hasDeniedExtension (cleanUrl (href u))) eqn:Hd; simpl; [apply Hacc|].
  rewrite In_setAdd. intros [Hy| ->]; [apply Hacc, Hy|].
  unfold isInternalUrl in Hi.
  destruct (new_URL (href u) (Some cur)) as [t|] eqn:Ht; [|discriminate].
  apply String.eqb_eq in Hi.
  exists h, u, t. repeat split; auto. apply Hsub. now left.
Qed.

(** An anchor that passes every test puts its clean URL into the set. *)
Lemma visitAnchors_adds cur host l links h u :
  In (Some h) l ->
  JS.truthy h = true -> skippedHref h = false ->
  new_URL h (Some cur) = Some u ->
  isInternalUrl cur host (href u) = true ->
  hasDeniedExtension (cleanUrl (href u)) = false ->
  In (cleanUrl (href u)) (fold_left (visitAnchor cur host) l links).
Proof.
  intros Hin Ht Hs Hu Hi Hd. revert links.
  induction l as [|a l IH]; intros links; [destruct Hin|].
  simpl. destruct Hin as [->|Hin]; [|apply IH, Hin].
  apply visitAnchors_mono. unfold visitAnchor.
  rewrite Ht, Hs, Hu, Hi, Hd. simpl. apply In_setAdd. now right.
Qed.

Lemma discoverLinks_inv (p : Page) (links : list string) :
  discoverLinks p = inr links ->
  exists here,
    new_URL (locationHref p) None = Some here /\
    links = fold_left (visitAnchor (locationHref p) (hostname here))
                      (anchors p) [].
Proof.
  unfold discoverLinks. destruct (evaluates p); simpl; [|discriminate].
  destruct (new_URL (locationHref p) None) as [here|]; [|discriminate].
  intros E. injection E as <-. exists here. auto.
Qed.

Lemma In_subpageQueue (baseUrl : string) (links : list string) (x : string) :
  In x (subpageQueue baseUrl links) ->
  In x links /\ x <> baseUrl /\ x <> baseUrl ++ "/".
Proof.
  unfold subpageQueue. intros H. apply In_firstn in H.
  apply filter_In in H. destruct H as [H1 H2].
  apply (proj1 (In_unique _ _)) in H1. apply andb_true_iff in H2. destruct H2 as [H2 H3].
  apply negb_true_iff in H2, H3.
  repeat split; [exact H1| |]; intros ->; rewrite String.eqb_refl in *;
    discriminate.
Qed.

End DiscoveryFacts.

Section QueueFacts.
Context {P : URLParser}.
Variable w : World.


(** C7 (amended). A discovered link comes from an anchor whose target has
    the hostname of the page that was loaded (the home page's location
    after any redirect); it ends in none of the denied extensions,
    whatever the case of the letters; and the queue made from the
    discovered links holds at most [MAX_PAGES] = 10 of them. *)
Theorem discovered_links_same_host (homePage : Page) (links : list string)
    (baseUrl : string) :
  discoverLinks homePage = inr links ->
  exists here,
    new_URL (locationHref homePage) None = Some here /\
    (forall link, In link links ->
       discoveredFrom (locationHref homePage) (hostname here)
                      (anchors homePage) link /\
       (forall ext, In ext deniedExtensions ->
          JS.endsWith (JS.foldCase link) ("." ++ ext) = false)) /\
    length (subpageQueue baseUrl links) <= 10 /\
    (forall link, In link (subpageQueue baseUrl links) -> In link links).
Proof.
  intros H. destruct (discoverLinks_inv _ H) as (here & Hh & ->).
  exists here. split; [exact Hh|]. split; [|split].
  - intros link Hin.
    assert (D : discoveredFrom (locationHref homePage) (hostname here)
                               (anchors homePage) link).
    { revert link Hin. apply visitAnchors_origin; [auto|intros x []]. }
    split; [exact D|].
    destruct D as (h & u & t & _ & _ & _ & _ & _ & Hd).
    intros ext Hext. unfold hasDeniedExtension in Hd.
    destruct (JS.endsWith (JS.foldCase link) ("." ++ ext)) eqn:E; [|reflexivity].
    rewrite <- Hd. symmetry. apply existsb_exists. exists ext. auto.
  - apply subpageQueue_length.
  - intros link Hin. apply In_subpageQueue in Hin. tauto.
Qed.

(** C8. When a page of [x.com] holds anchors to [http://x.com/a/#frag]
    and to [http://x.com/a], which the platform resolves to themselves,
    both normalize to [http://x.com/a], and the discovered links hold it
    exactly once. *)
Theorem two_spellings_one_link (p : Page) (links : list string) (here : URL) :
  discoverLinks p = inr links ->
  new_URL (locationHref p) None = Some here ->
  hostname here = "x.com" ->
  (forall h, h = "http://x.com/a/#frag" \/ h = "http://x.com/a" ->
     new_URL h (Some (locationHref p)) = Some (mkURL h "http:" "x.com")) ->
  In (Some "http://x.com/a/#frag") (anchors p) ->
  In (Some "http://x.com/a") (anchors p) ->
  cleanUrl "http://x.com/a/#frag" = "http://x.com/a" /\
  cleanUrl "http://x.com/a" = "http://x.com/a" /\
  count_occ string_dec links "http://x.com/a" = 1.
Proof.
  intros H Hh Hx Hres H1 H2.
  split; [reflexivity|]. split; [reflexivity|].
  destruct (discoverLinks_inv _ H) as (here' & Hh' & ->).
  rewrite Hh in Hh'. injection Hh' as <-. rewrite Hx.
  apply NoDup_count_occ'.
  - apply visitAnchors_NoDup. constructor.
  - change "http://x.com/a"
      with (cleanUrl (href (mkURL "http://x.com/a" "http:" "x.com"))).
    apply visitAnchors_adds with (h := "http://x.com/a"); auto.
    unfold isInternalUrl. simpl. rewrite Hres by auto. reflexivity.
Qed.

End QueueFacts.

(** ** Images *)

Lemma isHttpUrl_iff (url : string) : isHttpUrl url = true <-> httpPrefixed url.
Proof.
  unfold isHttpUrl, httpPrefixed. rewrite orb_true_iff, !startsWith_iff.
  tauto.
Qed.

Lemma httpPrefixed_not_data (url : string) :
  httpPrefixed url ->
  JS.startsWith url "data:" = false /\ JS.startsWith url "/" = false /\
  JS.startsWith url "." = false /\ JS.truthy url = true.
Proof. intros [[r ->]|[r ->]]; repeat split; reflexivity. Qed.

Section ImageFacts.
Context {P : URLParser}.

(** [addImage] only ever pushes a URL that passed its http(s) test. *)
Lemma addImage_http cur url width height alt acc :
  httpOnly (images acc) ->
  httpOnly (images (addImage cur url width height alt acc)).
Proof.
  intros H. unfold addImage.
  destruct (JS.truthy url); simpl; [|exact H].
  set (u := if negb (isHttpUrl (JS.trim url))
            then resolveUrl cur (JS.trim url) else JS.trim url).
  destruct (isHttpUrl u) eqn:Hu; simpl; [|exact H].
  destruct (JS.startsWith u "data:" || JS.endsWith (JS.toLowerCase u) ".svg");
    [exact H|].
  destruct (existsb (String.eqb u) (seenUrls acc)); [exact H|].
  destruct (N.ltb 0 width && N.ltb 0 height &&
            (N.ltb width MIN_DIMENSION || N.ltb height MIN_DIMENSION));
    [exact H|].
  simpl. intros img Hin. apply in_app_or in Hin.
  destruct Hin as [Hin|[<-|[]]]; [apply H, Hin | exact Hu].
Qed.

Lemma addSrcset_http cur srcset width height alt acc :
  httpOnly (images acc) ->
  httpOnly (images (addSrcset cur srcset width height alt acc)).
Proof.
  unfold addSrcset. destruct srcset as [text|]; [|auto].
  destruct (JS.truthy text); [|auto].
  generalize (srcsetUrls text). intros l. revert acc.
  induction l as [|url l IH]; intros acc H; simpl; [exact H|].
  apply IH. destruct (JS.truthy url); [apply addImage_http, H | exact H].
Qed.

Lemma visitImg_http cur acc img :
  httpOnly (images acc) -> httpOnly (images (visitImg cur acc img)).
Proof.
  intros H. unfold visitImg. apply addSrcset_http.
  match goal with |- context [match ?src with Some _ => _ | None => _ end] =>
    destruct src as [s|]; [|exact H] end.
  destruct (JS.truthy s); [apply addImage_http, H | exact H].
Qed.

Lemma visitBackground_http cur acc el :
  httpOnly (images acc) -> httpOnly (images (visitBackground cur acc el)).
Proof.
  intros H. unfold visitBackground.
  destruct (computedBackground el) as [bg|]; [|exact H].
  destruct (JS.truthy bg && negb (String.eqb bg "none")); [|exact H].
  destruct (Regex.firstGroup backgroundUrlRegex None (JS.chars bg))
    as [[g|]|]; try exact H.
  destruct (JS.truthy (JS.str g)); [apply addImage_http, H | exact H].
Qed.

Lemma fold_http {A} (f : ImageAcc -> A -> ImageAcc) (l : list A) acc :
  (forall a x, httpOnly (images a) -> httpOnly (images (f a x))) ->
  httpOnly (images acc) -> httpOnly (images (fold_left f l acc)).
Proof.
  intros Hf. revert acc. induction l as [|x l IH]; intros acc H; simpl;
    [exact H | apply IH, Hf, H].
Qed.

Lemma collectImages_http (p : Page) : httpOnly (images (collectImages p)).
Proof.
  unfold collectImages.
  apply fold_http; [intros; now apply addSrcset_http|].
  apply fold_http; [intros; now apply visitBackground_http|].
  apply fold_http; [intros; now apply visitImg_http|].
  intros img [].
Qed.

Lemma In_insertByArea x y l :
  In x (insertByArea y l) <-> x = y \/ In x l.
Proof.
  induction l as [|z l IH]; simpl.
  - intuition.
  - destruct (N.leb (rawArea z) (rawArea y)); simpl; [intuition|].
    rewrite IH. intuition.
Qed.

Lemma In_sortByArea x l : In x (sortByArea l) <-> In x l.
Proof.
  induction l as [|y l IH]; simpl; [tauto|].
  rewrite In_insertByArea, IH. intuition.
Qed.







(** Every image of a page's content comes from an entry of [addImage]
    and carries a URL that starts with [http://] or [https://]. *)
Lemma sortedImages_http (p : Page) (img : Image) :
  In img (sortedImages p) ->
  (exists raw, In raw (images (collectImages p)) /\ imgUrl img = rawUrl raw) /\
  isHttpUrl (imgUrl img) = true.
Proof.
  unfold sortedImages. intros H. apply in_map_iff in H.
  destruct H as (raw & <- & H). apply In_firstn in H.
  apply (proj1 (In_sortByArea _ _)) in H. apply filter_In in H.
  destruct H as [H1 H2].
  apply andb_true_iff in H2. simpl. split; [exists raw; auto | tauto].
Qed.

Lemma extractPageContent_inv (p : Page) (c : PageContent) :
  extractPageContent p = inr c ->
  evaluates p = true /\
  pcUrl c = locationHref p /\
  pcImages c = sortedImages p /\
  pcEmails c = unique (extractEmails (bodyText p) ++ mailtoTargets p) /\
  pcPhones c = unique (extractPhones (bodyText p) ++ telTargets p).
Proof.
  unfold extractPageContent. destruct (evaluates p); simpl; [|discriminate].
  intros E. injection E as <-. simpl. auto.
Qed.

Lemma extractPageContent_total (p : Page) :
  evaluates p = true -> exists c, extractPageContent p = inr c.
Proof.
  intros H. unfold extractPageContent. rewrite H. simpl. eexists. reflexivity.
Qed.

Lemma filter_id {A} (f : A -> bool) (l : list A) :
  (forall x, In x l -> f x = true) -> filter f l = l.
Proof.
  induction l as [|a l IH]; intros H; simpl; [reflexivity|].
  rewrite (H a) by now left. f_equal. apply IH. intros x Hx. apply H. now right.
Qed.


End ImageFacts.

(** ** The report *)

Section ReportFacts.
Context {P : URLParser}.
Variable w : World.

Lemma contribution_inv (link : string) (c : PageContent) :
  In c (contribution w link) ->
  exists p, openSubpage w link = Loaded p /\ extractPageContent p = inr c.
Proof.
  unfold contribution, visitLink.
  destruct (openSubpage w link) as [| |p] eqn:Ho; simpl; try tauto.
  destruct (extractPageContent p) as [e|c'] eqn:Hc; simpl; [tauto|].
  intros [<-|[]]. exists p. auto.
Qed.

Lemma contribution_loaded (link : string) (p : Page) (c : PageContent) :
  openSubpage w link = Loaded p -> extractPageContent p = inr c ->
  contribution w link = [c].
Proof.
  intros Ho Hc. unfold contribution, visitLink. rewrite Ho, Hc. reflexivity.
Qed.

Lemma contribution_succeeded (l : list string) :
  length (flat_map (contribution w) l) = length (filter (succeeded w) l).
Proof.
  induction l as [|a l IH]; simpl; [reflexivity|].
  rewrite length_app, IH. unfold contribution, succeeded, visitLink.
  unfold extractPageContent.
  destruct (openSubpage w a) as [| |p]; try reflexivity.
  destruct (evaluates p); reflexivity.
Qed.

(** Every record that is folded into the report was extracted from a
    page that loaded. *)
Lemma allPages_extracted (inputUrl : string) u c l s n (x : PageContent) :
  seedStage w inputUrl = inr (u, c, l, s) ->
  In x (c :: flat_map (contribution w) (firstn n (subpageQueue (href u) l))) ->
  exists source, extractPageContent source = inr x.
Proof.
  intros Hs [<-|H].
  - destruct (seedStage_page _ _ Hs) as (p & _ & _ & Hc & _). exists p. exact Hc.
  - apply in_flat_map in H. destruct H as (link & _ & H).
    apply contribution_inv in H. destruct H as (p & _ & Hc). exists p. exact Hc.
Qed.


(** C4. [pagesVisited] is the number of records in the report: the home
    page's record and one for each visited subpage whose navigation and
    extraction both succeeded. Such a subpage has its record among the
    pages; every other visited subpage failed, in its navigation or in
    its extraction, and is not counted, so that one failed visit makes
    [pagesVisited] less than the number of pages attempted. *)
Theorem pagesVisited_counts_records (inputUrl : string) (r : Report) (t : Trace) :
  deepCrawl w inputUrl start = (inr r, t) ->
  pagesVisited (metadata r) = length (pages r) /\
  pagesVisited (metadata r) = 1 + length (filter (succeeded w) (visited t)) /\
  (forall link, In link (visited t) ->
     (succeeded w link = true <->
      exists page content,
        openSubpage w link = Loaded page /\
        extractPageContent page = inr content /\
        In (reportPage content) (pages r)) /\
     (succeeded w link = false <-> failedVisit w link)) /\
  ((exists link, In link (visited t) /\ failedVisit w link) ->
   pagesVisited (metadata r) < 1 + length (visited t)).
Proof.
  intros H. pose proof (visited_navigated _ _ H) as Hnav.
  destruct (deepCrawl_ok _ _ H) as (u & c & l & s & n & d & _ & Hv & ->).
  assert (Hfail : forall link, In link (visited t) ->
                    (succeeded w link = false <-> failedVisit w link)).
  { intros link Hl. specialize (Hnav link Hl).
    unfold succeeded, failedVisit, navigated, extractPageContent in *.
    destruct (openSubpage w link) as [| |p]; [discriminate| |].
    - split; auto.
    - split.
      + intros Hp. right. exists p, BrowserFailure. rewrite Hp. auto.
      + intros [Hp|(p' & e & Hp & He)]; [discriminate|].
        injection Hp as <-. destruct (evaluates p); [discriminate|reflexivity]. }
  cbn [buildReport metadata pagesVisited pages].
  rewrite length_map. cbn [length]. rewrite contribution_succeeded, <- Hv.
  split; [reflexivity|]. split; [reflexivity|]. split.
  - intros link Hl. split; [|exact (Hfail link Hl)]. split.
    + intros Hsucc. unfold succeeded in Hsucc.
      destruct (openSubpage w link) as [| |p] eqn:Ho; try discriminate.
      destruct (extractPageContent_total _ Hsucc) as (content & Hc).
      exists p, content. split; [reflexivity|]. split; [exact Hc|].
      apply in_map. right. apply in_flat_map. exists link.
      split; [exact Hl|]. rewrite (contribution_loaded _ Ho Hc). now left.
    + intros (p & content & Ho & Hc & _). unfold succeeded. rewrite Ho.
      now destruct (extractPageContent_inv _ Hc).
  - intros (link & Hl & Hf). apply (proj2 (Hfail link Hl)) in Hf.
    pose proof (filter_length_lt (succeeded w) _ _ Hl Hf). lia.
Qed.

(** C5. Once the home page has been extracted: if the time elapsed at the
    test before the first batch exceeds [HARVEST_TIMEOUT_MS - 10000], the
    crawl returns a report with the home page alone, [pagesVisited] is 1
    and no subpage is visited. In general a crawl that returns has run
    some number [k] of whole batches of the queue, its report holds the
    home page and what those batches produced, the test passed before
    each of them, and if links are left the test before the next batch
    did not pass. *)
Theorem deadline_stops_batches (inputUrl : string) u c l s :
  seedStage w inputUrl = inr (u, c, l, s) ->
  ((clock w 1 - clock w 0 > HARVEST_TIMEOUT_MS - 10000)%Z ->
   exists r t,
     deepCrawl w inputUrl start = (inr r, t) /\
     length (pages r) = 1 /\ pagesVisited (metadata r) = 1 /\
     visited t = []) /\
  (forall r t,
     deepCrawl w inputUrl start = (inr r, t) ->
     exists k,
       let done := firstn (k * CONCURRENT_TABS) (subpageQueue (href u) l) in
       visited t = done /\
       pages r = map reportPage (c :: flat_map (contribution w) done) /\
       pagesVisited (metadata r) = length (pages r) /\
       (forall j, j < k ->
          (clock w (1 + j) - clock w 0 <= HARVEST_TIMEOUT_MS - 10000)%Z) /\
       (k * CONCURRENT_TABS < length (subpageQueue (href u) l) ->
          (clock w (1 + k) - clock w 0 > HARVEST_TIMEOUT_MS - 10000)%Z)).
Proof.
  intros Hs. split.
  - intros Hlate. rewrite deepCrawl_unfold, Hs.
    assert (E : visitBatches w (clock w 0) (subpageQueue (href u) l) 0 []
                  (tick start) = (ok [], tick start) \/
                visitBatches w (clock w 0) (subpageQueue (href u) l) 0 []
                  (tick start) = (ok [], tick (tick start))).
    { destruct (le_lt_dec (length (subpageQueue (href u) l)) 0) as [Hd|Hlt].
      - left. now apply visitBatches_done.
      - right. apply visitBatches_timeout; [exact Hlt|].
        unfold timedOut, exceeded. simpl. apply Z.gtb_lt.
        unfold HARVEST_TIMEOUT_MS in *. lia. }
    destruct E as [-> | ->]; eexists; eexists; repeat split.
  - intros r t H. rewrite deepCrawl_unfold, Hs in H.
    destruct (visitBatches w (clock w 0) (subpageQueue (href u) l) 0 []
                (tick start)) as [[e|sub] t1] eqn:E; [discriminate|].
    injection H as <- <-.
    apply visitBatches_run with (m := length (subpageQueue (href u) l)) in E;
      [|lia].
    destruct E as (k & -> & Hv & Hpass & Hstop). simpl in Hv, Hpass, Hstop.
    exists k. simpl. repeat split.
    + exact Hv.
    + now rewrite length_map.
    + intros j Hj. specialize (Hpass j Hj). unfold exceeded in Hpass.
      rewrite Z.gtb_ltb in Hpass. apply Z.ltb_ge in Hpass.
      unfold HARVEST_TIMEOUT_MS in *. simpl in *. lia.
    + intros Hleft. specialize (Hstop Hleft). unfold exceeded in Hstop.
      rewrite Z.gtb_ltb in Hstop. apply Z.ltb_lt in Hstop.
      unfold HARVEST_TIMEOUT_MS in *. simpl in *. lia.
Qed.

End ReportFacts.

(** ** Failures of subpages *)

Section FailureFacts.
Context {P : URLParser}.
Variable w : World.

Lemma failedVisit_null (link : string) :
  failedVisit w link -> visitLink w link = ok None.
Proof.
  unfold visitLink. intros [H|(p & e & H & He)]; rewrite H; [reflexivity|].
  rewrite He. reflexivity.
Qed.

(** A task that yields [null] changes neither the records that its batch
    yields nor whether, and how, the batch fails. *)
Lemma promiseAll_without_null (link : string) (pre post : list string) :
  visitLink w link = ok None ->
  mapResult filterBoolean (promiseAll (map (visitLink w) (pre ++ link :: post))) =
  mapResult filterBoolean (promiseAll (map (visitLink w) (pre ++ post))).
Proof.
  intros Hn. induction pre as [|a pre IH]; simpl.
  - rewrite Hn. simpl.
    destruct (promiseAll (map (visitLink w) post)); reflexivity.
  - destruct (visitLink w a) as [e|x]; [reflexivity|].
    destruct (promiseAll (map (visitLink w) (pre ++ link :: post))) as [e1|r1],
             (promiseAll (map (visitLink w) (pre ++ post))) as [e2|r2];
      simpl in *; try discriminate; try exact IH.
    injection IH as IH. f_equal. unfold filterBoolean in *. simpl.
    now rewrite IH.
Qed.

Lemma flat_map_without (link : string) (l : list string) :
  contribution w link = [] ->
  flat_map (contribution w) l =
  flat_map (contribution w) (filter (fun x => negb (String.eqb x link)) l).
Proof.
  intros Hn. induction l as [|a l IH]; simpl; [reflexivity|].
  destruct (String.eqb_spec a link) as [->|]; simpl.
  - rewrite Hn. exact IH.
  - now rewrite IH.
Qed.

(** C6 (amended). A subpage whose navigation or extraction fails yields
    [null] instead of raising: it adds no record to [pages]; the records
    of its batch, and whether the batch fails, are what they are without
    it; and the report is the one of the crawl without that link. When a
    crawl does raise, the failure is one of the input or of the home
    page, or else the tab of another subpage of the queue could not be
    opened: that failure is not caught, and the crawl raises it as an
    internal error. When every tab opens, only failures of the input or
    of the home page are raised. *)
Theorem subpage_failure_absorbed (link : string) :
  failedVisit w link ->
  visitLink w link = ok None /\
  contribution w link = [] /\
  (forall pre post,
     mapResult filterBoolean
       (promiseAll (map (visitLink w) (pre ++ link :: post))) =
     mapResult filterBoolean
       (promiseAll (map (visitLink w) (pre ++ post)))) /\
  (forall inputUrl r t,
     deepCrawl w inputUrl start = (inr r, t) ->
     exists homeContent,
       pages r = map reportPage
                   (homeContent ::
                    flat_map (contribution w)
                      (filter (fun x => negb (String.eqb x link)) (visited t))) /\
       pagesVisited (metadata r) =
         1 + length (filter (succeeded w)
                       (filter (fun x => negb (String.eqb x link)) (visited t)))) /\
  (forall inputUrl e t,
     deepCrawl w inputUrl start = (inl e, t) ->
     seedStage w inputUrl = inl e \/
     (e = BrowserFailure /\ kind e = Internal /\
      exists u c l s other,
        seedStage w inputUrl = inr (u, c, l, s) /\
        In other (subpageQueue (href u) l) /\
        other <> link /\
        openSubpage w other = TabFailed)) /\
  ((forall other, openSubpage w other <> TabFailed) ->
   forall inputUrl e t,
     deepCrawl w inputUrl start = (inl e, t) ->
     seedStage w inputUrl = inl e).
Proof.
  intros Hf. pose proof (failedVisit_null Hf) as Hn.
  assert (Hc : contribution w link = []).
  { unfold contribution. rewrite Hn. reflexivity. }
  assert (Hesc : forall inputUrl e t,
            deepCrawl w inputUrl start = (inl e, t) ->
            seedStage w inputUrl = inl e \/
            (e = BrowserFailure /\ kind e = Internal /\
             exists u c l s other,
               seedStage w inputUrl = inr (u, c, l, s) /\
               In other (subpageQueue (href u) l) /\
               other <> link /\
               openSubpage w other = TabFailed)).
  { intros inputUrl e t H. rewrite deepCrawl_unfold in H.
    destruct (seedStage w inputUrl) as [e0|[[[u c] l] s]] eqn:Hs.
    - left. injection H as -> _. reflexivity.
    - right.
      destruct (visitBatches w (clock w 0) (subpageQueue (href u) l) 0 []
                  (tick start)) as [[e1|sub] t1] eqn:E; [|discriminate].
      injection H as <- _.
      assert (Hk : e1 = BrowserFailure).
      { eapply visitBatches_error_internal with
          (k := length (subpageQueue (href u) l)); [|exact E]. lia. }
      apply visitBatches_error with (k := length (subpageQueue (href u) l)) in E;
        [|lia].
      destruct E as (other & Hin & Ho). subst e1.
      split; [reflexivity|]. split; [reflexivity|].
      exists u, c, l, s, other. repeat split; auto.
      intros ->. destruct Hf as [Hf|(p & e' & Hf & _)]; congruence. }
  split; [exact Hn|]. split; [exact Hc|]. split; [|split; [|split]].
  - intros pre post. apply promiseAll_without_null, Hn.
  - intros inputUrl r t H.
    destruct (deepCrawl_ok _ _ H) as (u & c & l & s & n & d & _ & Hv & ->).
    exists c. simpl. rewrite <- Hv, <- (flat_map_without link (visited t) Hc).
    split; [reflexivity|].
    rewrite (flat_map_without link (visited t) Hc).
    now rewrite contribution_succeeded.
  - exact Hesc.
  - intros Htabs inputUrl e t H.
    destruct (Hesc _ _ _ H) as [Hs|(_ & _ & u & c & l & s & other & _ & _ & _ & Ho)];
      [exact Hs | elim (Htabs other Ho)].
Qed.

(** When every subpage tab opens, only a failure of the input or of the
    home page makes a crawl raise. *)
Corollary only_seed_failures_escape (inputUrl : string) (e : Error) (t : Trace) :
  (forall link, openSubpage w link <> TabFailed) ->
  deepCrawl w inputUrl start = (inl e, t) ->
  seedStage w inputUrl = inl e.
Proof.
  intros Htabs H. rewrite deepCrawl_unfold in H.
  destruct (seedStage w inputUrl) as [e0|[[[u c] l] s]].
  - injection H as -> _. reflexivity.
  - destruct (visitBatches w (clock w 0) (subpageQueue (href u) l) 0 []
                (tick start)) as [[e1|sub] t1] eqn:E; [|discriminate].
    apply visitBatches_error with (k := length (subpageQueue (href u) l)) in E;
      [|lia].
    destruct E as (other & _ & Ho). elim (Htabs other Ho).
Qed.

(** C2. A crawl that returns a report returns between 1 and
    [1 + MAX_PAGES] = 11 pages: the home page's record, and at most one
    record for each of the at most [MAX_PAGES] = 10 links of the queue,
    which is cut to that length before any visit. And a crawl whose home
    page was loaded and extracted does return a report, as long as the
    tabs of the subpages open. *)
Theorem pages_length_bounds (inputUrl : string) :
  (forall r t,
     deepCrawl w inputUrl start = (inr r, t) ->
     1 <= length (pages r) <= 1 + MAX_PAGES) /\
  (forall u c l s,
     seedStage w inputUrl = inr (u, c, l, s) ->
     (forall link, openSubpage w link <> TabFailed) ->
     length (subpageQueue (href u) l) <= MAX_PAGES /\
     exists r t,
       deepCrawl w inputUrl start = (inr r, t) /\
       1 <= length (pages r) <= 1 + MAX_PAGES) /\
  1 + MAX_PAGES = 11.
Proof.
  assert (B : forall r t,
             deepCrawl w inputUrl start = (inr r, t) ->
             1 <= length (pages r) <= 1 + MAX_PAGES).
  { intros r t H.
    destruct (deepCrawl_ok _ _ H) as (u & c & l & s & n & d & _ & _ & ->).
    simpl. rewrite length_map.
    pose proof (contribution_length w (firstn n (subpageQueue (href u) l))) as H1.
    rewrite length_firstn in H1.
    pose proof (subpageQueue_length (href u) l) as H3.
    unfold MAX_PAGES in *. lia. }
  split; [exact B|]. split; [|reflexivity].
  intros u c l s Hs Htabs. split; [apply subpageQueue_length|].
  destruct (deepCrawl w inputUrl start) as [[e|r] t] eqn:E.
  - apply only_seed_failures_escape in E; [congruence | exact Htabs].
  - exists r, t. split; [reflexivity | exact (B r t eq_refl)].
Qed.

End FailureFacts.

(** ** Contact details *)

Lemma dropn_app (p s : string) : JS.dropn (String.length p) (p ++ s) = s.
Proof. induction p as [|c p IH]; simpl; [now destruct s | exact IH]. Qed.

Lemma removeFirst_prefix (p s : string) : JS.removeFirst p (p ++ s) = s.
Proof.
  destruct p as [|c p]; [now destruct s|].
  cbn [JS.removeFirst append]. change (String c (p ++ s)) with (String c p ++ s).
  rewrite prefix_app. apply dropn_app.
Qed.

Lemma In_anchorsWithPrefix (prefix h : string) (p : Page) :
  In (Some h) (anchors p) -> JS.startsWith h prefix = true ->
  In h (anchorsWithPrefix prefix p).
Proof.
  intros Hin Hs. unfold anchorsWithPrefix. apply in_flat_map.
  exists (Some h). rewrite Hs. simpl. auto.
Qed.

Lemma In_telTargets (s : string) (p : Page) :
  In (Some ("tel:" ++ s)) (anchors p) -> JS.trim s <> "" ->
  In (JS.trim s) (telTargets p).
Proof.
  intros Hin Hne. unfold telTargets. apply filter_In. split.
  - apply in_map_iff. exists ("tel:" ++ s). split.
    + now rewrite removeFirst_prefix.
    + apply In_anchorsWithPrefix; [exact Hin | apply prefix_app].
  - now apply truthy_iff.
Qed.

Lemma In_mailtoTargets (s : string) (p : Page) :
  In (Some ("mailto:" ++ s)) (anchors p) -> JS.beforeChar "?" s <> "" ->
  In (JS.beforeChar "?" s) (mailtoTargets p).
Proof.
  intros Hin Hne. unfold mailtoTargets. apply filter_In. split.
  - apply in_map_iff. exists ("mailto:" ++ s). split.
    + now rewrite removeFirst_prefix.
    + apply In_anchorsWithPrefix; [exact Hin | apply prefix_app].
  - now apply truthy_iff.
Qed.

(** A phone number matched in the text has at least eight digits. *)
Lemma extractPhones_digits (text x : string) :
  In x (extractPhones text) -> 8 <= digitCount x.
Proof.
  unfold extractPhones. intros H. apply (proj1 (In_unique _ _)) in H.
  apply filter_In in H. destruct H as [_ H]. now apply Nat.leb_le.
Qed.

Lemma In_global (f : PageContent -> list string) (l : list PageContent)
    (acc : list string) (x : string) :
  In x (fold_left (fun s page => fold_left (fun s e => setAdd e s) (f page) s)
                  l acc) <->
  In x acc \/ exists page, In page l /\ In x (f page).
Proof.
  revert acc. induction l as [|c l IH]; intros acc; simpl.
  - split; [auto|]. intros [H|(page & [] & _)]. exact H.
  - rewrite IH, In_addAll. split.
    + intros [[H|H]|(page & Hp & Hx)]; [auto| |].
      * right. exists c. auto.
      * right. exists page. auto.
    + intros [H|(page & [<-|Hp] & Hx)]; [auto|auto|].
      right. exists page. auto.
Qed.

Lemma NoDup_global (f : PageContent -> list string) (l : list PageContent)
    (acc : list string) :
  NoDup acc ->
  NoDup (fold_left (fun s page => fold_left (fun s e => setAdd e s) (f page) s)
                   l acc).
Proof.
  revert acc. induction l as [|c l IH]; intros acc H; simpl; [exact H|].
  apply IH, NoDup_addAll, H.
Qed.

Section ContactFacts.
Context {P : URLParser}.
Variable w : World.

(** C10. For the home page and for every subpage that was visited and
    extracted: the target of a [tel:] anchor, trimmed, is among the page's
    phones and among [global.phones], and the target of a [mailto:]
    anchor, up to its query, is among the page's emails and among
    [global.emails], whatever they look like. So [tel:123] yields "123",
    which has three digits, although no match in a text has fewer than
    eight. Both lists are free of duplicates. *)
Theorem anchor_contacts_unfiltered (inputUrl : string) (r : Report) (t : Trace)
    (page : Page) :
  deepCrawl w inputUrl start = (inr r, t) ->
  seedPage w inputUrl = Some page \/
  (exists link, In link (visited t) /\ openSubpage w link = Loaded page /\
                evaluates page = true) ->
  exists content,
    extractPageContent page = inr content /\
    (forall s, In (Some ("tel:" ++ s)) (anchors page) -> JS.trim s <> "" ->
       In (JS.trim s) (pcPhones content) /\
       In (JS.trim s) (phones (globalInfo r))) /\
    (forall s, In (Some ("mailto:" ++ s)) (anchors page) ->
       JS.beforeChar "?" s <> "" ->
       In (JS.beforeChar "?" s) (pcEmails content) /\
       In (JS.beforeChar "?" s) (emails (globalInfo r))) /\
    (In (Some "tel:123") (anchors page) ->
       In "123" (pcPhones content) /\ In "123" (phones (globalInfo r))) /\
    digitCount "123" = 3 /\
    (forall text x, In x (extractPhones text) -> 8 <= digitCount x) /\
    NoDup (pcPhones content) /\ NoDup (pcEmails content) /\
    NoDup (phones (globalInfo r)) /\ NoDup (emails (globalInfo r)).
Proof.
  intros H Hpage.
  destruct (deepCrawl_ok _ _ H) as (u & c & l & s & n & d & Hs & Hv & ->).
  destruct (seedStage_page _ _ Hs) as (home & Hu & Ho & Hc & _).
  assert (Hx : exists content,
             extractPageContent page = inr content /\
             In content (c :: flat_map (contribution w)
                               (firstn n (subpageQueue (href u) l)))).
  { destruct Hpage as [Hseed|(link & Hin & Hl & He)].
    - unfold seedPage in Hseed. rewrite Hu, Ho in Hseed. injection Hseed as <-.
      exists c. split; [exact Hc | now left].
    - destruct (extractPageContent_total _ He) as (x & Hx).
      exists x. split; [exact Hx|]. right. apply in_flat_map.
      exists link. rewrite <- Hv. split; [exact Hin|].
      rewrite (contribution_loaded _ _ Hl Hx). now left. }
  destruct Hx as (content & Hx & Hall). exists content.
  destruct (extractPageContent_inv _ Hx) as (_ & _ & _ & He & Hp).
  assert (Htel : forall s0, In (Some ("tel:" ++ s0)) (anchors page) ->
                   JS.trim s0 <> "" ->
                   In (JS.trim s0) (pcPhones content) /\
                   In (JS.trim s0)
                      (phones (globalInfo (buildReport (hostname u) s
                         (c :: flat_map (contribution w)
                                 (firstn n (subpageQueue (href u) l))) d)))).
  { intros s0 Hin Hne.
    assert (K : In (JS.trim s0) (pcPhones content)).
    { rewrite Hp. apply In_unique, in_or_app. right. now apply In_telTargets. }
    split; [exact K|]. unfold buildReport; cbn [globalInfo phones].
    apply (In_global pcPhones). right. exists content. auto. }
  split; [exact Hx|]. split; [exact Htel|]. split; [|split; [|split; [|split]]].
  - intros s0 Hin Hne.
    assert (K : In (JS.beforeChar "?" s0) (pcEmails content)).
    { rewrite He. apply In_unique, in_or_app. right. now apply In_mailtoTargets. }
    split; [exact K|]. unfold buildReport; cbn [globalInfo emails].
    apply (In_global pcEmails). right. exists content. auto.
  - intros Hin. apply (Htel "123"); [exact Hin|discriminate].
  - reflexivity.
  - intros text x. apply extractPhones_digits.
  - rewrite Hp, He. repeat split; try apply NoDup_unique;
      unfold buildReport; cbn [globalInfo phones emails];
      apply NoDup_global; constructor.
Qed.

End ContactFacts.


(** * Further properties of [server.js] *)

(** ** The matcher returns words of the pattern *)

Lemma countDown_sound {R} (lo n : nat) (try : nat -> option R) (x : R) :
  Regex.countDown lo n try = Some x ->
  exists j, lo <= j <= n /\ try j = Some x.
Proof.
  induction n as [|n IH]; simpl.
  - destruct (0 <? lo) eqn:E; [discriminate|].
    apply Nat.ltb_ge in E. destruct (try 0) eqn:T; [|discriminate].
    intros H. injection H as <-. exists 0. split; [lia | exact T].
  - destruct (S n <? lo) eqn:E; [discriminate|].
    apply Nat.ltb_ge in E. destruct (try (S n)) eqn:T.
    + intros H. injection H as <-. exists (S n). split; [lia | exact T].
    + intros H. destruct (IH H) as (j & Hj & Tj). exists j. split; [lia | exact Tj].
Qed.

Lemma runLength_firstn (p : ascii -> bool) (s : list ascii) (j : nat) :
  j <= Regex.runLength p s ->
  forallb p (firstn j s) = true /\ length (firstn j s) = j.
Proof.
  revert j. induction s as [|c s IH]; intros j H; simpl in H.
  - assert (j = 0) by lia. subst. auto.
  - destruct j as [|j]; [auto|]. destruct (p c) eqn:Hc; [|lia].
    destruct (IH j ltac:(lia)) as [H1 H2]. simpl. rewrite Hc, H1, H2. auto.
Qed.

Lemma run_sound {R} (r : Regex.re) :
  forall (q : Regex.pos) (k : Regex.pos -> option R) (x : R),
    Regex.run r q k = Some x ->
    exists u q',
      Regex.rest q = (u ++ Regex.rest q')%list /\ Matches r u /\ k q' = Some x.
Proof.
  induction r as [|p|r1 IH1 r2 IH2|r IH|p lo hi|r IH|]; intros q k x H; simpl in H.
  - exists [], q. repeat split; [constructor | exact H].
  - destruct (Regex.rest q) as [|c t] eqn:Hq; [discriminate|].
    destruct (p c) eqn:Hc; [|discriminate].
    exists [c], (Regex.advance 1 q). simpl. rewrite Hq. simpl.
    repeat split; [now constructor | exact H].
  - apply IH1 in H. destruct H as (u & q1 & E1 & M1 & H).
    apply IH2 in H. destruct H as (v & q2 & E2 & M2 & H).
    exists (u ++ v)%list, q2. rewrite E1, E2, app_assoc.
    repeat split; [now constructor | exact H].
  - destruct (Regex.run r q k) as [y|] eqn:Hr.
    + injection H as ->. apply IH in Hr. destruct Hr as (u & q' & E & M & K).
      exists u, q'. repeat split; [exact E | now constructor | exact K].
    + exists [], q. repeat split; [constructor | exact H].
  - apply countDown_sound in H. destruct H as (j & Hj & H).
    set (avail := Regex.runLength p (Regex.rest q)) in *.
    assert (Hja : j <= avail) by (destruct hi; lia).
    destruct (runLength_firstn p (Regex.rest q) Hja) as [Hall Hlen].
    exists (firstn j (Regex.rest q)), (Regex.advance j q). simpl.
    rewrite firstn_skipn. repeat split; [|exact H].
    constructor; [exact Hall | lia |]. intros h ->. lia.
  - apply IH in H. destruct H as (u & q1 & E & M & H).
    eexists u, _. split; [|split; [constructor; exact M | exact H]].
    exact E.
  - destruct (xorb _ _); [|discriminate].
    exists [], q. repeat split; [constructor | exact H].
Qed.

Lemma matchAt_sound (r : Regex.re) prev s remaining g :
  Regex.matchAt r prev s = Some (remaining, g) ->
  exists u, s = (u ++ remaining)%list /\ Matches r u.
Proof.
  unfold Regex.matchAt. intros H. apply run_sound in H.
  destruct H as (u & q' & E & M & K). simpl in E. injection K as <- _.
  exists u. auto.
Qed.

Lemma scan_sound (r : Regex.re) :
  forall s prev skip x,
    In x (Regex.scan r prev s skip) ->
    exists pre u post,
      s = (pre ++ u ++ post)%list /\ x = JS.str u /\ Matches r u.
Proof.
  assert (Hcons : forall c t x,
            (exists pre u post, t = (pre ++ u ++ post)%list /\
                                x = JS.str u /\ Matches r u) ->
            exists pre u post, c :: t = (pre ++ u ++ post)%list /\
                               x = JS.str u /\ Matches r u).
  { intros c t x (pre & u & post & -> & Hx & M).
    exists (c :: pre), u, post. auto. }
  induction s as [|c t IH]; intros prev skip x H.
  - destruct skip as [|k]; simpl in H; [|destruct H].
    destruct (Regex.matchAt r prev []) as [[remaining g]|] eqn:E; [|destruct H].
    destruct H as [<-|[]].
    destruct (matchAt_sound _ _ _ E) as (u & Eu & M).
    symmetry in Eu. apply app_eq_nil in Eu. destruct Eu as [-> ->].
    exists [], [], []. simpl. auto.
  - destruct skip as [|k]; simpl in H.
    + destruct (Regex.matchAt r prev (c :: t)) as [[remaining g]|] eqn:E.
      * destruct H as [<-|H]; [|apply Hcons; eapply IH; exact H].
        destruct (matchAt_sound _ _ _ E) as (u & Eu & M).
        exists [], u, remaining. simpl. split; [exact Eu|]. split; [|exact M].
        f_equal.
        change (firstn (length (c :: t) - length remaining) (c :: t) = u).
        rewrite Eu, length_app, Nat.add_sub.
        now rewrite firstn_app, Nat.sub_diag, firstn_all, app_nil_r.
      * apply Hcons. eapply IH. exact H.
    + apply Hcons. eapply IH. exact H.
Qed.

(** Every match that [s.match(r)] returns with the [g] flag is a
    contiguous part of [s] and a word of [r]. *)
Lemma matchAll_sound (r : Regex.re) (text x : string) :
  In x (Regex.matchAll r text) ->
  partOf x text /\ Matches r (JS.chars x).
Proof.
  unfold Regex.matchAll. intros H. apply scan_sound in H.
  destruct H as (pre & u & post & E & -> & M).
  rewrite chars_str. split; [|exact M].
  exists pre, post. rewrite chars_str. exact E.
Qed.

(** ** [extractPhones] and [extractEmails] *)

Lemma digitsIn_app (u v : list ascii) :
  digitsIn (u ++ v) = digitsIn u + digitsIn v.
Proof. unfold digitsIn. now rewrite filter_app, length_app. Qed.

Lemma separator_not_digit (c : ascii) :
  isSeparator c = true -> JS.isDigit c = false.
Proof.
  destruct c as [[] [] [] [] [] [] [] []]; vm_compute; congruence.
Qed.

Lemma Matches_digits (lo hi : nat) (u : list ascii) :
  Matches (Regex.Rep JS.isDigit lo (Some hi)) u ->
  digitsIn u = length u /\ lo <= length u <= hi.
Proof.
  intros M. inversion M as [| | | | |p lo' hi' u' Hall Hlo Hhi| |]; subst.
  split; [|split; [exact Hlo | now apply Hhi]].
  unfold digitsIn. f_equal. apply filter_id.
  intros x Hx. rewrite forallb_forall in Hall. now apply Hall.
Qed.

Lemma Matches_opt_class (p : ascii -> bool) (u : list ascii) :
  (forall c, p c = true -> JS.isDigit c = false) ->
  Matches (Regex.Opt (Regex.Chr p)) u -> digitsIn u = 0.
Proof.
  intros Hp M. inversion M as [| | |r|r u' M'| | |]; subst; [reflexivity|].
  inversion M' as [|p' c Hc| | | | | |]; subst.
  unfold digitsIn. simpl. now rewrite (Hp c Hc).
Qed.

Lemma lit_not_digit (a : ascii) (c : ascii) :
  JS.isDigit a = false -> Ascii.eqb a c = true -> JS.isDigit c = false.
Proof. intros Ha E. apply Ascii.eqb_eq in E. now subst. Qed.

(** A word of the phone pattern holds between 8 and 16 digits. *)
Lemma phoneRegex_digits (u : list ascii) :
  Matches phoneRegex u -> 8 <= digitsIn u <= 16.
Proof.
  unfold phoneRegex. intros M.
  inversion M as [| |r1 r2 g v Mg M1| | | | |]; subst; clear M.
  inversion M1 as [| |r1 r2 p1 v1 Mp1 M2| | | | |]; subst; clear M1.
  inversion M2 as [| |r1 r2 d1 v2 Md1 M3| | | | |]; subst; clear M2.
  inversion M3 as [| |r1 r2 p2 v3 Mp2 M4| | | | |]; subst; clear M3.
  inversion M4 as [| |r1 r2 s1 v4 Ms1 M5| | | | |]; subst; clear M4.
  inversion M5 as [| |r1 r2 d2 v5 Md2 M6| | | | |]; subst; clear M5.
  inversion M6 as [| |r1 r2 s2 d3 Ms2 Md3| | | | |]; subst; clear M6.
  rewrite !digitsIn_app.
  apply Matches_digits in Md1, Md2, Md3.
  apply Matches_opt_class in Mp1; [|intros c; now apply lit_not_digit].
  apply Matches_opt_class in Mp2; [|intros c; now apply lit_not_digit].
  apply Matches_opt_class in Ms1; [|apply separator_not_digit].
  apply Matches_opt_class in Ms2; [|apply separator_not_digit].
  assert (Hg : digitsIn g <= 4).
  { inversion Mg as [| | |r|r u' Mg'| | |]; subst; [unfold digitsIn; simpl; lia|].
    inversion Mg' as [| |r1 r2 plus v Mplus Mr| | | | |]; subst.
    inversion Mr as [| |r1 r2 d0 s0 Md0 Ms0| | | | |]; subst.
    rewrite !digitsIn_app.
    apply Matches_digits in Md0.
    apply Matches_opt_class in Mplus; [|intros c; now apply lit_not_digit].
    apply Matches_opt_class in Ms0; [|apply separator_not_digit].
    lia. }
  lia.
Qed.

Lemma digitCount_chars (x : string) : digitCount x = digitsIn (JS.chars x).
Proof. reflexivity. Qed.

(** X1. Every phone number that [extractPhones] returns is a contiguous
    part of the text and holds between 8 and 16 digits, and none is
    returned twice. *)
Theorem extractPhones_sound (text x : string) :
  In x (extractPhones text) ->
  partOf x text /\ 8 <= digitCount x <= 16 /\ NoDup (extractPhones text).
Proof.
  intros H. unfold extractPhones in *.
  apply (proj1 (In_unique _ _)) in H. apply filter_In in H.
  destruct H as [H _]. apply matchAll_sound in H. destruct H as [Hp M].
  split; [exact Hp|]. split; [|apply NoDup_unique].
  rewrite digitCount_chars. now apply phoneRegex_digits.
Qed.

(** X2. The test for at least 8 digits that [extractPhones] applies to the
    matches never removes one: a match of the pattern always holds at
    least 8 digits. *)
Theorem extractPhones_filter_keeps_all (text : string) :
  extractPhones text = unique (Regex.matchAll phoneRegex text) /\
  forall x, In x (Regex.matchAll phoneRegex text) -> 8 <= digitCount x.
Proof.
  assert (H : forall x, In x (Regex.matchAll phoneRegex text) ->
                        8 <= digitCount x).
  { intros x Hx. apply matchAll_sound in Hx. destruct Hx as [_ M].
    rewrite digitCount_chars. now apply phoneRegex_digits. }
  split; [|exact H]. unfold extractPhones. f_equal. apply filter_id.
  intros x Hx. apply Nat.leb_le. now apply H.
Qed.

Lemma ats_app (u v : list ascii) : ats (u ++ v) = ats u + ats v.
Proof. apply count_occ_app. Qed.

Lemma ats_class (p : ascii -> bool) (u : list ascii) :
  p "@"%char = false -> forallb p u = true -> ats u = 0.
Proof.
  intros Hp Hall. apply count_occ_not_In. intros Hin.
  rewrite forallb_forall in Hall. specialize (Hall _ Hin). congruence.
Qed.

Lemma Matches_rep_all (p : ascii -> bool) lo hi (u : list ascii) :
  Matches (Regex.Rep p lo hi) u -> forallb p u = true /\ lo <= length u.
Proof. intros M. inversion M; subst. auto. Qed.

Lemma Matches_lit (a : ascii) (u : list ascii) :
  Matches (Regex.lit a) u -> u = [a].
Proof.
  unfold Regex.lit. intros M. inversion M as [|p c Hc| | | | | |]; subst.
  apply Ascii.eqb_eq in Hc. now subst.
Qed.

Lemma Matches_wordB (u : list ascii) : Matches Regex.WordB u -> u = [].
Proof. intros M. now inversion M. Qed.

Lemma class_no_space (p : ascii -> bool) (u : list ascii) :
  (forall c, p c = true -> JS.isWhiteSpace c = false) ->
  forallb p u = true ->
  forallb (fun c => negb (JS.isWhiteSpace c)) u = true.
Proof.
  intros Hp Hall. rewrite forallb_forall in *. intros c Hc.
  apply negb_true_iff, Hp, Hall, Hc.
Qed.

(** A word of the e-mail pattern holds one [@] and no white space. *)
Lemma emailRegex_chars (u : list ascii) :
  Matches emailRegex u ->
  ats u = 1 /\ forallb (fun c => negb (JS.isWhiteSpace c)) u = true.
Proof.
  unfold emailRegex. intros M.
  inversion M as [| |r1 r2 b1 v1 Mb1 M1| | | | |]; subst; clear M.
  inversion M1 as [| |r1 r2 l v2 Ml M2| | | | |]; subst; clear M1.
  inversion M2 as [| |r1 r2 a v3 Ma M3| | | | |]; subst; clear M2.
  inversion M3 as [| |r1 r2 h v4 Mh M4| | | | |]; subst; clear M3.
  inversion M4 as [| |r1 r2 d v5 Md M5| | | | |]; subst; clear M4.
  inversion M5 as [| |r1 r2 t b2 Mt Mb2| | | | |]; subst; clear M5.
  apply Matches_wordB in Mb1, Mb2. apply Matches_lit in Ma, Md. subst.
  apply Matches_rep_all in Ml, Mh, Mt.
  destruct Ml as [Ml _], Mh as [Mh _], Mt as [Mt _]. split.
  - assert (A1 : ats l = 0) by (eapply ats_class; [|exact Ml]; reflexivity).
    assert (A2 : ats h = 0) by (eapply ats_class; [|exact Mh]; reflexivity).
    assert (A3 : ats t = 0) by (eapply ats_class; [|exact Mt]; reflexivity).
    rewrite !ats_app, A1, A2, A3. reflexivity.
  - assert (S1 : forallb (fun c => negb (JS.isWhiteSpace c)) l = true).
    { eapply class_no_space; [|exact Ml].
      intros c; destruct c as [[] [] [] [] [] [] [] []]; vm_compute; congruence. }
    assert (S2 : forallb (fun c => negb (JS.isWhiteSpace c)) h = true).
    { eapply class_no_space; [|exact Mh].
      intros c; destruct c as [[] [] [] [] [] [] [] []]; vm_compute; congruence. }
    assert (S3 : forallb (fun c => negb (JS.isWhiteSpace c)) t = true).
    { eapply class_no_space; [|exact Mt].
      intros c; destruct c as [[] [] [] [] [] [] [] []]; vm_compute; congruence. }
    rewrite !forallb_app, S1, S2, S3. reflexivity.
Qed.

(** X3. Every address that [extractEmails] returns is a contiguous part of
    the text, holds exactly one [@] and no white space, and none is
    returned twice. *)
Theorem extractEmails_sound (text x : string) :
  In x (extractEmails text) ->
  partOf x text /\
  count_occ ascii_dec (JS.chars x) "@"%char = 1 /\
  forallb (fun c => negb (JS.isWhiteSpace c)) (JS.chars x) = true /\
  NoDup (extractEmails text).
Proof.
  intros H. unfold extractEmails in *.
  apply (proj1 (In_unique _ _)) in H. apply matchAll_sound in H.
  destruct H as [Hp M]. apply emailRegex_chars in M. destruct M as [M1 M2].
  split; [exact Hp|]. split; [exact M1|]. split; [exact M2|].
  apply NoDup_unique.
Qed.

(** ** More on [normalizeUrl] *)

Lemma dropWhile_app_all (f : ascii -> bool) (a l : list ascii) :
  forallb f a = true -> JS.dropWhile f (a ++ l) = JS.dropWhile f l.
Proof.
  induction a as [|c a IH]; simpl; [reflexivity|].
  intros H. apply andb_true_iff in H. destruct H as [Hc Ha].
  rewrite Hc. now apply IH.
Qed.

Lemma dropWhile_all (f : ascii -> bool) (l : list ascii) :
  JS.dropWhile f l = [] -> forallb f l = true.
Proof.
  induction l as [|c l IH]; simpl; [reflexivity|].
  destruct (f c); [exact IH | discriminate].
Qed.

Lemma dropWhile_app_kept (f : ascii -> bool) (l b : list ascii) :
  JS.dropWhile f l <> [] ->
  JS.dropWhile f (l ++ b) = (JS.dropWhile f l ++ b)%list.
Proof.
  induction l as [|c l IH]; simpl; [congruence|].
  destruct (f c); [exact IH | reflexivity].
Qed.

Lemma chars_app (x y : string) :
  JS.chars (x ++ y) = (JS.chars x ++ JS.chars y)%list.
Proof.
  induction x as [|c x IH]; simpl; [reflexivity|].
  unfold JS.chars in *. simpl. now rewrite IH.
Qed.

Lemma trim_padded (a b s : string) :
  forallb JS.isWhiteSpace (JS.chars a) = true ->
  forallb JS.isWhiteSpace (JS.chars b) = true ->
  JS.trim (a ++ s ++ b) = JS.trim s.
Proof.
  intros Ha Hb. unfold JS.trim, JS.trimEnd, JS.trimStart.
  rewrite !chars_str, !chars_app. f_equal. f_equal.
  rewrite (dropWhile_app_all _ _ _ Ha).
  destruct (JS.dropWhile JS.isWhiteSpace (JS.chars s)) as [|c m] eqn:E.
  - assert (H : forallb JS.isWhiteSpace (JS.chars s ++ JS.chars b) = true).
    { rewrite forallb_app, Hb, (dropWhile_all _ _ E). reflexivity. }
    rewrite <- (app_nil_r (JS.chars s ++ JS.chars b)).
    rewrite (dropWhile_app_all _ _ _ H). reflexivity.
  - rewrite dropWhile_app_kept by (rewrite E; discriminate).
    rewrite E, rev_app_distr. apply dropWhile_app_all.
    rewrite forallb_forall in *. intros x Hx. apply Hb. now apply in_rev.
Qed.

Lemma withProtocol_scheme (t : string) : hasHttpScheme (withProtocol t) = true.
Proof.
  unfold withProtocol. destruct (hasHttpScheme t) eqn:E; [exact E|].
  apply hasHttpScheme_iff. exists "https://", t. auto.
Qed.

Section NormalizerFacts.
Context {P : URLParser}.

(** X4. White space around the input does not matter to [normalizeUrl]:
    padding the input with white space on either side changes nothing,
    and so an input that is already trimmed is left as it is. *)
Theorem normalizeUrl_ignores_padding (a b s : string) :
  forallb JS.isWhiteSpace (JS.chars a) = true ->
  forallb JS.isWhiteSpace (JS.chars b) = true ->
  normalizeUrl (a ++ s ++ b) = normalizeUrl s /\
  normalizeUrl (JS.trim s) = normalizeUrl s.
Proof.
  intros Ha Hb. unfold normalizeUrl. rewrite (trim_padded _ _ s Ha Hb).
  split; [reflexivity|].
  destruct (trim_spec s) as (x & y & E & Hx & Hy & _).
  assert (Es : s = JS.str x ++ JS.trim s ++ JS.str y).
  { rewrite <- (str_chars s) at 1. rewrite E.
    rewrite <- (str_chars (JS.str x ++ JS.trim s ++ JS.str y)).
    now rewrite !chars_app, !chars_str. }
  pose proof (trim_padded (JS.str x) (JS.str y) (JS.trim s)) as T.
  rewrite !chars_str, <- Es in T. now rewrite <- (T Hx Hy).
Qed.

(** X5. What [normalizeUrl] hands to the URL constructor always starts
    with [http://] or [https://]. So with a constructor that answers
    such input with the protocol [http:] or [https:], as the platform's
    does, the error 'Only HTTP/HTTPS protocols are allowed.' is never
    thrown: an input with another scheme is prefixed with [https://] and
    either parses as an https URL or fails as an invalid URL. *)
Theorem protocol_error_unreachable (rawUrl : string) :
  (forall s u, hasHttpScheme s = true -> new_URL s None = Some u ->
               allowedProtocol (protocol u) = true) ->
  hasHttpScheme (withProtocol (JS.trim rawUrl)) = true /\
  normalizeUrl rawUrl <> inl ProtocolNotAllowed /\
  (forall e, normalizeUrl rawUrl = inl e -> e = UrlRequired \/ e = InvalidUrl).
Proof.
  intros Hkeep. split; [apply withProtocol_scheme|].
  assert (H : forall e, normalizeUrl rawUrl = inl e ->
                        e = UrlRequired \/ e = InvalidUrl).
  { unfold normalizeUrl. intros e.
    destruct (JS.truthy (JS.trim rawUrl)); simpl; [|intros E; injection E; auto].
    destruct (new_URL (withProtocol (JS.trim rawUrl)) None) as [u|] eqn:Hu;
      [|intros E; injection E; auto].
    rewrite (Hkeep _ _ (withProtocol_scheme _) Hu). discriminate. }
  split; [|exact H]. intros E. destruct (H _ E); discriminate.
Qed.

End NormalizerFacts.

(** ** More on [extractPageContent] *)

Section AccumulatorFacts.
Context {P : URLParser}.
Variable I : ImageAcc -> Prop.
Hypothesis I_addImage :
  forall cur url width height alt acc,
    I acc -> I (addImage cur url width height alt acc).

Lemma addSrcset_keeps cur srcset width height alt acc :
  I acc -> I (addSrcset cur srcset width height alt acc).
Proof.
  unfold addSrcset. destruct srcset as [text|]; [|auto].
  destruct (JS.truthy text); [|auto].
  generalize (srcsetUrls text). intros l. revert acc.
  induction l as [|url l IH]; intros acc H; simpl; [exact H|].
  apply IH. destruct (JS.truthy url); [apply I_addImage, H | exact H].
Qed.

Lemma visitImg_keeps cur acc img : I acc -> I (visitImg cur acc img).
Proof.
  intros H. unfold visitImg. apply addSrcset_keeps.
  match goal with |- context [match ?src with Some _ => _ | None => _ end] =>
    destruct src as [s|]; [|exact H] end.
  destruct (JS.truthy s); [apply I_addImage, H | exact H].
Qed.

Lemma visitBackground_keeps cur acc el :
  I acc -> I (visitBackground cur acc el).
Proof.
  intros H. unfold visitBackground.
  destruct (computedBackground el) as [bg|]; [|exact H].
  destruct (JS.truthy bg && negb (String.eqb bg "none")); [|exact H].
  destruct (Regex.firstGroup backgroundUrlRegex None (JS.chars bg))
    as [[g|]|]; try exact H.
  destruct (JS.truthy (JS.str g)); [apply I_addImage, H | exact H].
Qed.

Lemma fold_keeps {A} (f : ImageAcc -> A -> ImageAcc) (l : list A) acc :
  (forall a x, I a -> I (f a x)) -> I acc -> I (fold_left f l acc).
Proof.
  intros Hf. revert acc. induction l as [|x l IH]; intros acc H; simpl;
    [exact H | apply IH, Hf, H].
Qed.

Lemma collectImages_keeps (p : Page) :
  I (mkImageAcc [] []) -> I (collectImages p).
Proof.
  intros H0. unfold collectImages.
  apply fold_keeps; [intros; now apply addSrcset_keeps|].
  apply fold_keeps; [intros; now apply visitBackground_keeps|].
  apply fold_keeps; [intros; now apply visitImg_keeps|].
  exact H0.
Qed.

End AccumulatorFacts.

Section ContentFacts.
Context {P : URLParser}.

Lemma addImage_wellFormed cur url width height alt acc :
  (forall img, In img (images acc) -> wellFormedImage img) ->
  forall img, In img (images (addImage cur url width height alt acc)) ->
              wellFormedImage img.
Proof.
  intros H. unfold addImage.
  destruct (JS.truthy url); simpl; [|exact H].
  set (u := if negb (isHttpUrl (JS.trim url))
            then resolveUrl cur (JS.trim url) else JS.trim url).
  destruct (isHttpUrl u) eqn:Hu; simpl; [|exact H].
  destruct (JS.startsWith u "data:") eqn:Hd; simpl; [exact H|].
  destruct (JS.endsWith (JS.toLowerCase u) ".svg") eqn:Hs; [exact H|].
  destruct (existsb (String.eqb u) (seenUrls acc)); [exact H|].
  destruct (N.ltb 0 width && N.ltb 0 height &&
            (N.ltb width MIN_DIMENSION || N.ltb height MIN_DIMENSION)) eqn:Ht;
    [exact H|].
  simpl. intros img Hin. apply in_app_or in Hin.
  destruct Hin as [Hin|[<-|[]]]; [apply H, Hin|].
  unfold wellFormedImage. simpl.
  split; [exact Hu|]. split; [exact Hs|]. split; [reflexivity|].
  intros Hw Hh. apply N.ltb_lt in Hw, Hh. rewrite Hw, Hh in Ht. simpl in Ht.
  apply orb_false_iff in Ht. destruct Ht as [Ht1 Ht2].
  apply N.ltb_ge in Ht1, Ht2. auto.
Qed.

Lemma addImage_distinct cur url width height alt acc :
  distinctUrls acc -> distinctUrls (addImage cur url width height alt acc).
Proof.
  intros H. unfold addImage.
  destruct (JS.truthy url); simpl; [|exact H].
  set (u := if negb (isHttpUrl (JS.trim url))
            then resolveUrl cur (JS.trim url) else JS.trim url).
  destruct (isHttpUrl u); simpl; [|exact H].
  destruct (JS.startsWith u "data:" || JS.endsWith (JS.toLowerCase u) ".svg");
    [exact H|].
  destruct (existsb (String.eqb u) (seenUrls acc)) eqn:Hseen; [exact H|].
  destruct (N.ltb 0 width && N.ltb 0 height &&
            (N.ltb width MIN_DIMENSION || N.ltb height MIN_DIMENSION));
    [exact H|].
  destruct H as [Hnd Hsub]. unfold distinctUrls. simpl.
  rewrite map_app. simpl. split.
  - apply NoDup_app; [exact Hnd | constructor; [intros []|constructor] |].
    intros x Hx [<-|[]]. apply Hsub in Hx.
    apply existsb_eqb_In in Hx. congruence.
  - intros x Hx. apply In_setAdd. apply in_app_or in Hx.
    destruct Hx as [Hx|[<-|[]]]; [left; apply Hsub, Hx | now right].
Qed.

Lemma collectImages_wellFormed (p : Page) (img : RawImage) :
  In img (images (collectImages p)) -> wellFormedImage img.
Proof.
  revert img.
  apply (collectImages_keeps
           (fun acc => forall img, In img (images acc) -> wellFormedImage img)).
  - intros. eapply addImage_wellFormed; eassumption.
  - intros img [].
Qed.

Lemma collectImages_distinct (p : Page) : distinctUrls (collectImages p).
Proof.
  apply (collectImages_keeps distinctUrls).
  - intros. now apply addImage_distinct.
  - split; [constructor | intros u []].
Qed.

Lemma insertByArea_perm (x : RawImage) (l : list RawImage) :
  Permutation (x :: l) (insertByArea x l).
Proof.
  induction l as [|y l IH]; simpl; [reflexivity|].
  destruct (N.leb (rawArea y) (rawArea x)); [reflexivity|].
  rewrite perm_swap. now apply perm_skip.
Qed.

Lemma sortByArea_perm (l : list RawImage) : Permutation l (sortByArea l).
Proof.
  induction l as [|x l IH]; simpl; [reflexivity|].
  rewrite <- insertByArea_perm. now apply perm_skip.
Qed.

Lemma insertByArea_sorted (x : RawImage) (l : list RawImage) :
  Sorted byArea l -> Sorted byArea (insertByArea x l).
Proof.
  induction l as [|y l IH]; intros H; simpl.
  - repeat constructor.
  - destruct (N.leb (rawArea y) (rawArea x)) eqn:E.
    + apply N.leb_le in E. constructor; [exact H|]. constructor. exact E.
    + apply N.leb_gt in E. inversion H as [|? ? Hs Hh]; subst.
      constructor; [apply IH, Hs|].
      destruct l as [|z l]; simpl.
      * constructor. unfold byArea. lia.
      * destruct (N.leb (rawArea z) (rawArea x)).
        -- constructor. unfold byArea. lia.
        -- inversion Hh; subst. now constructor.
Qed.

Lemma sortByArea_sorted (l : list RawImage) : Sorted byArea (sortByArea l).
Proof.
  induction l as [|x l IH]; simpl; [constructor|].
  now apply insertByArea_sorted.
Qed.

Lemma Sorted_firstn {A} (R : A -> A -> Prop) (n : nat) (l : list A) :
  Sorted R l -> Sorted R (firstn n l).
Proof.
  revert l. induction n as [|n IH]; intros l H; simpl; [constructor|].
  destruct l as [|a l]; [constructor|].
  inversion H as [|? ? Hs Hh]; subst. constructor; [apply IH, Hs|].
  destruct l as [|b l]; destruct n; simpl; try constructor.
  now inversion Hh.
Qed.

Lemma NoDup_firstn_map {A B} (f : A -> B) (n : nat) (l : list A) :
  NoDup (map f l) -> NoDup (map f (firstn n l)).
Proof.
  intros H. rewrite <- (firstn_skipn n l), map_app in H.
  now apply NoDup_app_remove_r in H.
Qed.

Lemma NoDup_filter_map {A B} (f : A -> B) (g : A -> bool) (l : list A) :
  NoDup (map f l) -> NoDup (map f (filter g l)).
Proof.
  induction l as [|a l IH]; simpl; intros H; [constructor|].
  inversion H as [|? ? Hn Hd]; subst.
  destruct (g a); simpl; [|now apply IH].
  constructor; [|now apply IH].
  intros Hin. apply Hn. apply in_map_iff in Hin.
  destruct Hin as (x & E & Hx). apply filter_In in Hx.
  apply in_map_iff. exists x. tauto.
Qed.

Lemma sortedImages_kept (p : Page) :
  sortedImages p =
  map (fun img => mkImage (rawUrl img) (rawAlt img) (rawWidth img) (rawHeight img))
      (keptImages p).
Proof. reflexivity. Qed.

Lemma keptImages_wellFormed (p : Page) (img : RawImage) :
  In img (keptImages p) -> wellFormedImage img.
Proof.
  unfold keptImages. intros H. apply In_firstn in H.
  apply (proj1 (In_sortByArea _ _)) in H. apply filter_In in H.
  now apply collectImages_wellFormed with (p := p).
Qed.

(** X6. A page's content holds at most 10 images, and no two of them
    have the same URL. *)
Theorem images_bounded_distinct (p : Page) (c : PageContent) :
  extractPageContent p = inr c ->
  length (pcImages c) <= 10 /\ NoDup (map imgUrl (pcImages c)).
Proof.
  intros H. destruct (extractPageContent_inv _ H) as (_ & _ & -> & _).
  rewrite sortedImages_kept, length_map, map_map. simpl. split.
  - apply firstn_le_length.
  - unfold keptImages. apply NoDup_firstn_map.
    eapply Permutation_NoDup; [apply Permutation_map, sortByArea_perm|].
    apply NoDup_filter_map, collectImages_distinct.
Qed.

(** X7. The images of a page's content are in the order of their area
    (width times height), the largest first. *)
Theorem images_largest_first (p : Page) (c : PageContent) :
  extractPageContent p = inr c ->
  Sorted (fun a b => (imageArea b <= imageArea a)%N) (pcImages c).
Proof.
  intros H. destruct (extractPageContent_inv _ H) as (_ & _ & -> & _).
  rewrite sortedImages_kept.
  assert (Hs : Sorted byArea (keptImages p))
    by (apply Sorted_firstn, sortByArea_sorted).
  assert (Hw : forall img, In img (keptImages p) ->
                 rawArea img = (rawWidth img * rawHeight img)%N).
  { intros img Hi. apply keptImages_wellFormed in Hi. apply Hi. }
  induction (keptImages p) as [|a l IH]; simpl; [constructor|].
  inversion Hs as [|? ? Hs' Hh]; subst.
  constructor; [apply IH; [exact Hs' | intros; apply Hw; now right]|].
  destruct l as [|b l]; simpl; constructor.
  inversion Hh; subst. unfold imageArea, byArea in *. simpl.
  rewrite <- (Hw a), <- (Hw b); simpl; auto.
Qed.

(** X8. No image of a page's content is an SVG file (whatever the case of
    the extension) or a [data:] URI, and an image whose two dimensions
    are known (positive) measures at least 50 pixels in each. *)
Theorem images_filtered (p : Page) (c : PageContent) (img : Image) :
  extractPageContent p = inr c ->
  In img (pcImages c) ->
  JS.endsWith (JS.toLowerCase (imgUrl img)) ".svg" = false /\
  JS.startsWith (imgUrl img) "data:" = false /\
  ((0 < imgWidth img)%N -> (0 < imgHeight img)%N ->
   (50 <= imgWidth img)%N /\ (50 <= imgHeight img)%N).
Proof.
  intros H Hin. destruct (extractPageContent_inv _ H) as (_ & _ & E & _).
  rewrite E, sortedImages_kept in Hin. apply in_map_iff in Hin.
  destruct Hin as (raw & <- & Hraw). apply keptImages_wellFormed in Hraw.
  destruct Hraw as (Hh & Hs & _ & Hd). simpl.
  split; [exact Hs|]. split; [|exact Hd].
  apply httpPrefixed_not_data, isHttpUrl_iff, Hh.
Qed.

Lemma collapseSpaces_spaced (l : list ascii) :
  forall inRun,
    (forall c, In c (collapseSpaces inRun l) ->
               JS.isWhiteSpace c = true -> c = " "%char) /\
    (inRun = true ->
     forall c r, collapseSpaces inRun l = c :: r -> JS.isWhiteSpace c = false) /\
    (forall pre c1 c2 post,
       collapseSpaces inRun l = (pre ++ c1 :: c2 :: post)%list ->
       JS.isWhiteSpace c1 = true -> JS.isWhiteSpace c2 = false).
Proof.
  induction l as [|a l IH]; intros inRun; simpl.
  - split; [intros c []|]. split; [discriminate|].
    intros [|? ?] ? ? ? E; discriminate.
  - destruct (JS.isWhiteSpace a) eqn:Ha.
    + destruct inRun; [apply IH|].
      destruct (IH true) as (H1 & H2 & H3).
      split; [|split; [discriminate|]].
      * intros c [<-|Hc] Hw; [reflexivity | now apply H1].
      * intros [|x pre] c1 c2 post E Hw; simpl in E; injection E as <- E.
        -- eapply H2; [reflexivity | exact E].
        -- eapply H3; eassumption.
    + destruct (IH false) as (H1 & _ & H3).
      split; [|split].
      * intros c [<-|Hc] Hw; [congruence | now apply H1].
      * intros _ c r E. injection E as <- _. exact Ha.
      * intros [|x pre] c1 c2 post E Hw; simpl in E; injection E as <- E.
        -- congruence.
        -- eapply H3; eassumption.
Qed.

Lemma singleSpaced_part (l pre m post : list ascii) :
  singleSpaced l -> l = (pre ++ m ++ post)%list -> singleSpaced m.
Proof.
  intros [H1 H2] ->. split.
  - intros c Hc. apply H1. apply in_or_app. right. apply in_or_app. now left.
  - intros p c1 c2 q ->. apply (H2 (pre ++ p)%list c1 c2 (q ++ post)%list).
    now rewrite <- !app_assoc.
Qed.

Lemma substring0_chars (n : nat) (s : string) :
  JS.chars (JS.substring0 n s) = firstn n (JS.chars s).
Proof.
  unfold JS.substring0, JS.chars. revert s.
  induction n as [|n IH]; intros [|c s]; simpl; try reflexivity.
  now rewrite IH.
Qed.

Lemma length_chars (s : string) : String.length s = length (JS.chars s).
Proof.
  unfold JS.chars. induction s as [|c s IH]; simpl; [reflexivity | now rewrite IH].
Qed.

(** X9. A page's content holds at most 3000 characters; it does not start
    with white space, its only white space characters are spaces, and
    no two of them follow each other. *)
Theorem content_bounded_spaced (p : Page) (c : PageContent) :
  extractPageContent p = inr c ->
  String.length (pcContent c) <= 3000 /\
  singleSpaced (JS.chars (pcContent c)) /\
  (forall a r, JS.chars (pcContent c) = a :: r -> JS.isWhiteSpace a = false).
Proof.
  unfold extractPageContent. destruct (evaluates p); simpl; [|discriminate].
  intros E. injection E as <-. simpl. unfold contentOf.
  set (text := match mainContent p with
               | Some t => if JS.truthy t then t else bodyText p
               | None => bodyText p
               end).
  rewrite length_chars, substring0_chars. split; [apply firstn_le_length|].
  unfold cleanContent.
  set (o := collapseSpaces false (JS.chars text)).
  destruct (trim_spec (JS.str o)) as (x & y & Ex & _ & _ & Hstart & _).
  rewrite chars_str in Ex.
  destruct (collapseSpaces_spaced (JS.chars text) false) as (H1 & _ & H3).
  fold o in H1, H3.
  assert (So : singleSpaced o) by (split; assumption).
  split.
  - apply (@singleSpaced_part o x _
             (skipn MAX_CONTENT (JS.chars (JS.trim (JS.str o))) ++ y)%list So).
    rewrite Ex at 1. f_equal. rewrite app_assoc. f_equal.
    symmetry. apply firstn_skipn.
  - intros a r Ha. unfold MAX_CONTENT in Ha.
    destruct (JS.chars (JS.trim (JS.str o))) as [|a' r'] eqn:Et;
      [discriminate|].
    simpl in Ha. injection Ha as <- _. eapply Hstart. reflexivity.
Qed.

End ContentFacts.

(** ** More on [discoverLinks] and [extractSocials] *)

Lemma beforeChar_without (c : ascii) (s : string) :
  ~ In c (JS.chars (JS.beforeChar c s)).
Proof.
  unfold JS.chars. induction s as [|d s IH]; simpl; [tauto|].
  destruct (Ascii.eqb_spec d c) as [->|N]; simpl; [tauto|].
  intros [E|H]; [congruence | exact (IH H)].
Qed.

Lemma cleanUrl_without_fragment (u : string) :
  ~ In "#"%char (JS.chars (cleanUrl u)).
Proof.
  unfold cleanUrl, stripTrailingSlash.
  destruct (JS.endsWith (JS.beforeChar "#" u) "/");
    [|apply beforeChar_without].
  rewrite substring0_chars. intros H. apply In_firstn in H.
  exact (beforeChar_without _ _ H).
Qed.

Section MoreDiscoveryFacts.
Context {P : URLParser}.

(** X10. The links that [discoverLinks] returns are distinct, and none of
    them holds a fragment: there is no [#] in any of them. *)
Theorem discovered_links_distinct (p : Page) (links : list string) :
  discoverLinks p = inr links ->
  NoDup links /\
  forall link, In link links -> ~ In "#"%char (JS.chars link).
Proof.
  intros H. destruct (discoverLinks_inv _ H) as (here & Hh & ->). split.
  - apply visitAnchors_NoDup. constructor.
  - intros link Hin.
    assert (D : discoveredFrom (locationHref p) (hostname here) (anchors p) link).
    { revert link Hin. apply visitAnchors_origin; [auto|intros x []]. }
    destruct D as (h & u & t & _ & _ & -> & _). apply cleanUrl_without_fragment.
Qed.

Lemma visitAnchor_passedOver cur host links a :
  passedOver a = true -> visitAnchor cur host links a = links.
Proof.
  unfold passedOver, visitAnchor. destruct a as [h|]; [|reflexivity].
  destruct (JS.truthy h); simpl; [|reflexivity].
  intros ->. reflexivity.
Qed.

(** X11. An anchor without [href], with an empty one, or with one that
    starts with [#], [javascript:], [mailto:] or [tel:] changes nothing
    to what [discoverLinks] returns, wherever it stands in the page. *)
Theorem passed_over_anchor_ignored (p : Page) (pre post : list jsval) (a : jsval) :
  passedOver a = true ->
  discoverLinks (withAnchors p (pre ++ a :: post)) =
  discoverLinks (withAnchors p (pre ++ post)).
Proof.
  intros Ha. unfold discoverLinks. simpl.
  destruct (evaluates p); simpl; [|reflexivity].
  destruct (new_URL (locationHref p) None) as [here|]; [|reflexivity].
  f_equal. rewrite !fold_left_app. simpl.
  now rewrite visitAnchor_passedOver.
Qed.

Lemma classifySocial_sound (absoluteUrl : string) (s : Social) :
  classifySocial absoluteUrl = Some s ->
  socialUrl s = absoluteUrl /\
  marked (platform s) (JS.toLowerCase absoluteUrl) = true.
Proof.
  unfold classifySocial, marked.
  repeat match goal with
         | |- (if ?c then _ else _) = _ -> _ =>
             let E := fresh "E" in destruct c eqn:E
         end;
    intros H; try discriminate; injection H as <-; simpl; auto.
Qed.

Lemma dedupSocials_spec (l : list Social) :
  forall seen,
    (forall s, In s (dedupSocials seen l) ->
               In s l /\ ~ In (socialUrl s) seen) /\
    NoDup (map socialUrl (dedupSocials seen l)) /\
    (forall s, In s l -> ~ In (socialUrl s) seen ->
               In (socialUrl s) (map socialUrl (dedupSocials seen l))).
Proof.
  induction l as [|a l IH]; intros seen; simpl.
  - split; [intros s []|]. split; [constructor | intros s []].
  - destruct (existsb (String.eqb (socialUrl a)) seen) eqn:E.
    + apply existsb_eqb_In in E. destruct (IH seen) as (H1 & H2 & H3).
      split; [|split; [exact H2|]].
      * intros s Hs. destruct (H1 s Hs). auto.
      * intros s [<-|Hs] Hn; [contradiction | now apply H3].
    + assert (N : ~ In (socialUrl a) seen)
        by (rewrite <- existsb_eqb_In, E; discriminate).
      destruct (IH (setAdd (socialUrl a) seen)) as (H1 & H2 & H3).
      split; [|split].
      * intros s [<-|Hs]; [auto|]. destruct (H1 s Hs) as [Hin Hn].
        split; [auto|]. intros K. apply Hn, In_setAdd. now left.
      * simpl. constructor; [|exact H2]. intros K.
        apply in_map_iff in K. destruct K as (s & Es & Hs).
        destruct (H1 s Hs) as [_ Hn]. apply Hn, In_setAdd. right. exact Es.
      * intros s [<-|Hs] Hn; [now left|]. simpl.
        destruct (String.eqb_spec (socialUrl a) (socialUrl s)) as [Eq|Ne];
          [now left|].
        right. apply H3; [exact Hs|]. intros K. apply In_setAdd in K.
        destruct K as [K|K]; [contradiction | congruence].
Qed.

Lemma extractSocials_inv (p : Page) (socs : list Social) :
  extractSocials p = inr socs ->
  socs = dedupSocials [] (flat_map (socialOfAnchor (locationHref p)) (anchors p)).
Proof.
  unfold extractSocials. destruct (evaluates p); simpl; [|discriminate].
  intros E. now injection E as <-.
Qed.

Lemma socialOfAnchor_inv cur a s :
  In s (socialOfAnchor cur a) ->
  exists h u, a = Some h /\ new_URL h (Some cur) = Some u /\
              classifySocial (href u) = Some s.
Proof.
  unfold socialOfAnchor. destruct a as [h|]; [|intros []].
  destruct (JS.truthy h); simpl; [|intros []].
  destruct (new_URL h (Some cur)) as [u|] eqn:Hu; [|intros []].
  destruct (classifySocial (href u)) as [s'|] eqn:Hc; [|intros []].
  intros [<-|[]]. exists h, u. auto.
Qed.

(** X12. [extractSocials] returns no URL twice, every entry comes from an
    anchor of the page that was classified, and every anchor that was
    classified has its URL among the entries. *)
Theorem socials_distinct (p : Page) (socs : list Social) :
  extractSocials p = inr socs ->
  NoDup (map socialUrl socs) /\
  (forall s, In s socs ->
     In s (flat_map (socialOfAnchor (locationHref p)) (anchors p))) /\
  (forall s, In s (flat_map (socialOfAnchor (locationHref p)) (anchors p)) ->
     In (socialUrl s) (map socialUrl socs)).
Proof.
  intros H. apply extractSocials_inv in H. subst.
  destruct (dedupSocials_spec
              (flat_map (socialOfAnchor (locationHref p)) (anchors p)) [])
    as (H1 & H2 & H3).
  split; [exact H2|]. split.
  - intros s Hs. now apply H1.
  - intros s Hs. apply H3; [exact Hs | intros []].
Qed.

(** X13. Every entry of [extractSocials] carries the resolved URL of its
    anchor unchanged, and that URL, in lower case, holds the text that
    marks the entry's platform; an entry for Facebook never holds
    [/sharer], so that a share link is not taken for a profile. *)
Theorem socials_marked (p : Page) (socs : list Social) (s : Social) :
  extractSocials p = inr socs ->
  In s socs ->
  (exists h u, In (Some h) (anchors p) /\
               new_URL h (Some (locationHref p)) = Some u /\
               socialUrl s = href u) /\
  marked (platform s) (JS.toLowerCase (socialUrl s)) = true /\
  (platform s = Facebook ->
   JS.includes (JS.toLowerCase (socialUrl s)) "/sharer" = false).
Proof.
  intros H Hs.
  apply extractSocials_inv in H. subst.
  destruct (dedupSocials_spec
              (flat_map (socialOfAnchor (locationHref p)) (anchors p)) [])
    as (H1 & _ & _).
  destruct (H1 s Hs) as [Hin _]. apply in_flat_map in Hin.
  destruct Hin as (a & Ha & Hsa). apply socialOfAnchor_inv in Hsa.
  destruct Hsa as (h & u & -> & Hu & Hc). apply classifySocial_sound in Hc.
  destruct Hc as [Eu Hm]. rewrite Eu. split; [exists h, u; auto|].
  split; [exact Hm|]. intros Ef. rewrite Ef in Hm. simpl in Hm.
  apply andb_true_iff in Hm. destruct Hm as [_ Hm].
  now apply negb_true_iff in Hm.
Qed.

End MoreDiscoveryFacts.

Section DiscoveryComplete.
Context {P : URLParser}.

(** X23. No internal link is lost: an anchor of the page whose [href] is
    not passed over, resolves against the location of the page to a URL
    of the same hostname and, once cleaned, has no denied extension, puts
    its cleaned URL among the discovered links, where it occurs once
    however many anchors lead to it. *)
Theorem internal_anchor_discovered (p : Page) (links : list string)
    (here : URL) (h : string) (u : URL) :
  discoverLinks p = inr links ->
  new_URL (locationHref p) None = Some here ->
  In (Some h) (anchors p) ->
  passedOver (Some h) = false ->
  new_URL h (Some (locationHref p)) = Some u ->
  isInternalUrl (locationHref p) (hostname here) (href u) = true ->
  hasDeniedExtension (cleanUrl (href u)) = false ->
  count_occ string_dec links (cleanUrl (href u)) = 1.
Proof.
  intros H Hh Hin Hp Hu Hi Hd.
  destruct (discoverLinks_inv _ H) as (here' & Hh' & ->).
  rewrite Hh in Hh'. injection Hh' as <-.
  unfold passedOver in Hp. apply orb_false_iff in Hp. destruct Hp as [Ht Hs].
  apply negb_false_iff in Ht.
  apply NoDup_count_occ'.
  - apply visitAnchors_NoDup. constructor.
  - now apply visitAnchors_adds with (h := h).
Qed.

End DiscoveryComplete.

(** ** More on [deepCrawl] *)

Lemma NoDup_firstn {A} (n : nat) (l : list A) : NoDup l -> NoDup (firstn n l).
Proof.
  intros H. rewrite <- (firstn_skipn n l) in H.
  now apply NoDup_app_remove_r in H.
Qed.

Lemma fold_left_sum {A} (f : A -> nat) (l : list A) (a : nat) :
  fold_left (fun s x => s + f x) l a = a + list_sum (map f l).
Proof.
  revert a. induction l as [|x l IH]; intros a; simpl; [lia|].
  rewrite IH. lia.
Qed.

Section MoreCrawlFacts.
Context {P : URLParser}.
Variable w : World.

Lemma subpageQueue_NoDup (baseUrl : string) (links : list string) :
  NoDup (subpageQueue baseUrl links).
Proof.
  unfold subpageQueue. apply NoDup_firstn, NoDup_filter, NoDup_unique.
Qed.

(** X14. Whatever its outcome, a crawl navigates to at most [MAX_PAGES]
    = 10 subpages, to none of them twice, and only to links of the queue
    made from the links discovered on the home page. *)
Theorem subpage_visits_bounded (inputUrl : string) :
  let t := snd (deepCrawl w inputUrl start) in
  NoDup (visited t) /\ length (visited t) <= MAX_PAGES /\
  (visited t = [] \/
   exists u c l s,
     seedStage w inputUrl = inr (u, c, l, s) /\
     forall link, In link (visited t) ->
                  In link (subpageQueue (href u) l) /\ In link l).
Proof.
  intros t. subst t. rewrite deepCrawl_unfold.
  destruct (seedStage w inputUrl) as [e|[[[u c] l] s]]; simpl.
  - split; [constructor|]. split; [lia | now left].
  - destruct (visitBatches w (clock w 0) (subpageQueue (href u) l) 0 []
                (tick start)) as [out t1] eqn:E.
    apply visitBatches_visited
      with (m := length (subpageQueue (href u) l)) in E; [|lia].
    destruct E as (n & Hv). simpl in Hv.
    assert (Ht : visited (snd (match out with
                               | inl e => (inl e, t1)
                               | inr sub =>
                                   (inr (buildReport (hostname u) s (c :: sub)
                                           (clock w (clockReads t1) - clock w 0)),
                                    tick t1)
                               end : Result Report * Trace))
                 = filter (navigated w) (firstn n (subpageQueue (href u) l)))
      by (destruct out; exact Hv).
    rewrite Ht. split; [|split].
    + apply NoDup_filter, NoDup_firstn, subpageQueue_NoDup.
    + pose proof (filter_length_le (navigated w)
                    (firstn n (subpageQueue (href u) l))) as H1.
      pose proof (firstn_le_length n (subpageQueue (href u) l)) as H2.
      rewrite length_firstn in H1.
      pose proof (subpageQueue_length (href u) l) as H3. lia.
    + right. exists u, c, l, s. split; [reflexivity|].
      intros link Hl. apply filter_In in Hl. destruct Hl as [Hl _].
      apply In_firstn in Hl. split; [exact Hl|].
      apply In_subpageQueue in Hl. tauto.
Qed.

(** X15. A failure of the input or of the home page ends the crawl with
    that failure before any subpage is visited: an input that
    [normalizeUrl] rejects gives the error of [normalizeUrl], and a home
    page whose navigation fails gives 'Target site unreachable or timed
    out.'. *)
Theorem seed_failure_aborts (inputUrl : string) (e : Error) :
  seedStage w inputUrl = inl e ->
  deepCrawl w inputUrl start = (inl e, tick start) /\
  visited (tick start) = [] /\
  (forall e', normalizeUrl inputUrl = inl e' -> e = e') /\
  (forall u, normalizeUrl inputUrl = inr u -> launches w = true ->
             openSeed w (href u) = NavigationFailed ->
             e = SiteUnreachable /\ kind e = TargetUnreachable).
Proof.
  intros H. split; [now rewrite deepCrawl_unfold, H|]. split; [reflexivity|].
  unfold seedStage in H. split.
  - intros e' He. rewrite He in H. now injection H.
  - intros u Hu Hl Ho. rewrite Hu, Hl, Ho in H. simpl in H.
    injection H as <-. auto.
Qed.

Lemma rpImages_extracted (source : Page) (c : PageContent) :
  extractPageContent source = inr c ->
  rpImages (reportPage c) = map imgUrl (pcImages c).
Proof.
  intros Hc. simpl. apply filter_id. intros url Hu. apply in_map_iff in Hu.
  destruct Hu as (img & <- & Hi).
  destruct (extractPageContent_inv _ Hc) as (_ & _ & E & _). rewrite E in Hi.
  apply sortedImages_http in Hi. destruct Hi as [_ Hi]. rewrite Hi, andb_true_r.
  apply httpPrefixed_not_data, isHttpUrl_iff, Hi.
Qed.

(** X16. [totalImages] is the number of image URLs in the pages of the
    report, and it is at most 10 for each page. *)
Theorem totalImages_counts_report (inputUrl : string) (r : Report) (t : Trace) :
  deepCrawl w inputUrl start = (inr r, t) ->
  totalImages (metadata r)
  = list_sum (map (fun page => length (rpImages page)) (pages r)) /\
  totalImages (metadata r) <= 10 * pagesVisited (metadata r).
Proof.
  intros H.
  destruct (deepCrawl_ok _ _ H) as (u & c & l & s & n & d & Hs & _ & ->).
  set (allPages := c :: flat_map (contribution w)
                          (firstn n (subpageQueue (href u) l))).
  assert (Hall : forall x, In x allPages ->
                   length (rpImages (reportPage x)) = length (pcImages x) /\
                   length (pcImages x) <= 10).
  { intros x Hx. destruct (allPages_extracted _ _ _ Hs Hx) as (source & Hc).
    rewrite (rpImages_extracted _ Hc), length_map. split; [reflexivity|].
    destruct (extractPageContent_inv _ Hc) as (_ & _ & -> & _).
    rewrite sortedImages_kept, length_map. apply firstn_le_length. }
  unfold buildReport. cbn [metadata totalImages pagesVisited pages].
  fold allPages. rewrite fold_left_sum, map_map, Nat.add_0_l.
  clearbody allPages. clear - Hall.
  induction allPages as [|x xs IH]; [simpl; lia|].
  assert (Hx := Hall x (or_introl eq_refl)).
  assert (IH' := IH (fun y Hy => Hall y (or_intror Hy))).
  cbn [map length]. unfold list_sum in *. cbn [fold_right]. lia.
Qed.


Lemma contribution_landed (link : string) :
  map pcUrl (contribution w link) = landed w link.
Proof.
  unfold contribution, landed, visitLink, extractPageContent.
  destruct (openSubpage w link) as [| |p]; try reflexivity.
  destruct (evaluates p); reflexivity.
Qed.

(** X18. The first page of a report is the home page, under the location
    where its navigation landed (after any redirect); the pages that
    follow are those of the visited subpages that yielded a record, in
    the order of the visits and each under the location where it landed;
    and [domain] is the hostname of the normalized input. *)
Theorem report_page_order (inputUrl : string) (r : Report) (t : Trace)
    (targetUrl : URL) (homePage : Page) :
  deepCrawl w inputUrl start = (inr r, t) ->
  normalizeUrl inputUrl = inr targetUrl ->
  seedPage w inputUrl = Some homePage ->
  map rpUrl (pages r)
  = locationHref homePage :: flat_map (landed w) (visited t) /\
  domain r = hostname targetUrl.
Proof.
  intros H Hu Hp.
  destruct (deepCrawl_ok _ _ H) as (u & c & l & s & n & d & Hs & Hv & ->).
  destruct (seedStage_page _ _ Hs) as (home & Hu' & Ho & Hc & _).
  rewrite Hu in Hu'. injection Hu' as <-.
  unfold seedPage in Hp. rewrite Hu, Ho in Hp. injection Hp as <-.
  destruct (extractPageContent_inv _ Hc) as (_ & Eurl & _).
  unfold buildReport. cbn [pages domain]. split; [|reflexivity].
  rewrite map_map. cbn [map]. simpl rpUrl. rewrite Eurl, <- Hv. f_equal.
  generalize (visited t). intros v. induction v as [|a v IH]; [reflexivity|].
  cbn [flat_map]. rewrite map_app, IH. f_equal.
  rewrite <- contribution_landed. reflexivity.
Qed.

End MoreCrawlFacts.

(** ** [performScan] *)

Lemma totalPenalty_app (l l' : list Issue) :
  totalPenalty (l ++ l') = (totalPenalty l + totalPenalty l')%Z.
Proof.
  induction l as [|i l IH]; simpl; [reflexivity|].
  unfold totalPenalty in *. simpl. rewrite IH. lia.
Qed.

Lemma penaltyOf_min (t : IssueTitle) : (2 <= penaltyOf t)%Z.
Proof. destruct t; simpl; lia. Qed.

Lemma totalPenalty_nonneg (l : list Issue) : (0 <= totalPenalty l)%Z.
Proof.
  induction l as [|k l IH]; [simpl; lia|].
  change (totalPenalty (k :: l)) with (penaltyOf (title k) + totalPenalty l)%Z.
  pose proof (penaltyOf_min (title k)). lia.
Qed.

Lemma totalPenalty_In (i : Issue) (l : list Issue) :
  In i l -> (penaltyOf (title i) <= totalPenalty l)%Z.
Proof.
  induction l as [|j l IH]; [intros []|]. intros H.
  change (totalPenalty (j :: l)) with (penaltyOf (title j) + totalPenalty l)%Z.
  destruct H as [E|H].
  - rewrite E. pose proof (totalPenalty_nonneg l). lia.
  - pose proof (penaltyOf_min (title j)). apply IH in H. lia.
Qed.

Lemma report_scored (i : Issue) (amount : Z) (a : Audit) :
  amount = penaltyOf (title i) -> scored a -> scored (report i amount a).
Proof.
  intros -> [Hs Hp]. unfold scored, report, applyPenalty. cbn [fst snd].
  rewrite totalPenalty_app, length_app, Hs.
  change (totalPenalty [i]) with (penaltyOf (title i) + 0)%Z.
  pose proof (penaltyOf_min (title i)). cbn [length]. split; lia.
Qed.

Lemma check_scored (c : bool) (i : Issue) (amount : Z) (a : Audit) :
  amount = penaltyOf (title i) -> scored a -> scored (check c i amount a).
Proof.
  intros H Ha. unfold check. destruct c; [now apply report_scored | exact Ha].
Qed.

Lemma audit_scored (finalProtocol : string) (d : PageData) (g : GdprFindings) :
  scored (audit finalProtocol d g).
Proof.
  unfold audit, checkTitle, checkDescription, checkH1.
  repeat first
    [ apply check_scored; [reflexivity|]
    | apply report_scored; [reflexivity|]
    | match goal with |- scored (if ?c then _ else _) => destruct c end ].
  all: split; simpl; lia.
Qed.

Lemma report_length (i : Issue) (amount : Z) (a : Audit) :
  length (snd (report i amount a)) = S (length (snd a)).
Proof. unfold report. cbn [snd]. rewrite length_app. simpl. lia. Qed.

Lemma check_length (c : bool) (i : Issue) (amount : Z) (a : Audit) :
  length (snd (check c i amount a)) <= S (length (snd a)).
Proof. unfold check. destruct c; [rewrite report_length|]; lia. Qed.

Lemma audit_length (finalProtocol : string) (d : PageData) (g : GdprFindings) :
  length (snd (audit finalProtocol d g)) <= 12.
Proof.
  assert (Ht : forall a, length (snd (checkTitle d a)) <= S (length (snd a))).
  { intros a. unfold checkTitle.
    repeat match goal with
           | |- context [if ?c then _ else _] => destruct c
           end; rewrite ?report_length; lia. }
  assert (Hd : forall a, length (snd (checkDescription d a)) <= S (length (snd a))).
  { intros a. unfold checkDescription.
    repeat match goal with
           | |- context [if ?c then _ else _] => destruct c
           end; rewrite ?report_length; lia. }
  assert (Hh : forall a, length (snd (checkH1 d a)) <= S (length (snd a))).
  { intros a. unfold checkH1.
    repeat match goal with
           | |- context [if ?c then _ else _] => destruct c
           end; rewrite ?report_length; lia. }
  unfold audit. cbv zeta.
  repeat first
    [ eapply Nat.le_trans; [apply check_length | apply le_n_S]
    | eapply Nat.le_trans; [apply Ht | apply le_n_S]
    | eapply Nat.le_trans; [apply Hd | apply le_n_S]
    | eapply Nat.le_trans; [apply Hh | apply le_n_S] ].
  simpl. lia.
Qed.

Lemma addsOnly_refl (a : Audit) : addsOnly a a.
Proof. exists []. split; [now rewrite app_nil_r | constructor]. Qed.

Lemma addsOnly_trans (a b c : Audit) :
  addsOnly a b -> addsOnly b c -> addsOnly a c.
Proof.
  intros (l & E & F) (l' & E' & F'). exists (l ++ l')%list. split.
  - now rewrite E', E, app_assoc.
  - apply Forall_app. now split.
Qed.

Lemma report_adds (i : Issue) (amount : Z) (a : Audit) :
  category i <> Security -> addsOnly a (report i amount a).
Proof.
  intros H. exists [i]. split; [reflexivity|]. now constructor.
Qed.

Lemma check_adds (c : bool) (i : Issue) (amount : Z) (a : Audit) :
  category i <> Security -> addsOnly a (check c i amount a).
Proof.
  intros H. unfold check. destruct c; [now apply report_adds | apply addsOnly_refl].
Qed.

(** After the test of the protocol, no issue on security is pushed. *)
Lemma audit_after_protocol (finalProtocol : string) (d : PageData)
    (g : GdprFindings) :
  addsOnly (check (negb (String.eqb finalProtocol "https:"))
                  (buildIssue Security High NoSsl) 40 (100%Z, []))
           (audit finalProtocol d g).
Proof.
  unfold audit, checkTitle, checkDescription, checkH1.
  repeat first
    [ apply addsOnly_refl
    | eapply addsOnly_trans; [|apply check_adds; discriminate]
    | eapply addsOnly_trans; [|apply report_adds; discriminate]
    | match goal with |- addsOnly _ (if ?c then _ else _) => destruct c end ].
Qed.

Lemma In_detectTechStack (lowerHtml x : string) :
  In x (detectTechStack lowerHtml) -> In x knownTech.
Proof.
  unfold detectTechStack. intros H.
  repeat match type of H with
         | In _ (if ?c then _ else _) => destruct c
         | In _ (setAdd _ _) => apply In_setAdd in H; destruct H as [H|H]
         end;
    try (subst x; simpl; tauto); try contradiction.
Qed.

Section ScanFacts.
Context {P : URLParser}.
Variable w : ScanWorld.

(** A scan that returns has loaded a page that could be evaluated, and its
    result is read off that page. *)
Lemma performScan_ok (inputUrl : string) (r : ScanResult) :
  performScan w inputUrl = inr r ->
  exists targetUrl finalUrl dom requests shot,
    normalizeUrl inputUrl = inr targetUrl /\
    scanLaunches w = true /\
    openScan w (href targetUrl) = ScanLoaded finalUrl dom requests shot /\
    scanEvaluates dom = true /\
    srUrl r = href targetUrl /\
    srFinalUrl r = finalUrl /\
    srScore r = fst (audit (finalProtocolOf finalUrl) (readPageData dom)
                           (interceptRequests requests)) /\
    srIssues r = snd (audit (finalProtocolOf finalUrl) (readPageData dom)
                            (interceptRequests requests)) /\
    srTechStack r = unique (pdTechStack (readPageData dom)).
Proof.
  unfold performScan. intros H.
  destruct (normalizeUrl inputUrl) as [e|u]; [discriminate|].
  destruct (scanLaunches w); [|discriminate]. simpl in H.
  destruct (openScan w (href u)) as [| |finalUrl dom requests shot] eqn:Eo;
    try discriminate.
  destruct (scanEvaluates dom) eqn:Ev; [|discriminate]. simpl in H.
  injection H as <-. exists u, finalUrl, dom, requests, shot.
  repeat split; try reflexivity; assumption.
Qed.

(** X19. The score of a scan is what the penalties of the issues it
    reports leave of 100, and 0 when they exceed 100: it lies between 0
    and 100, it is 100 exactly when no issue is reported, and every
    reported issue keeps it at or below 100 less the penalty of that
    issue. *)
Theorem score_matches_issues (inputUrl : string) (r : ScanResult) :
  performScan w inputUrl = inr r ->
  srScore r = Z.max 0 (100 - totalPenalty (srIssues r)) /\
  (0 <= srScore r <= 100)%Z /\
  (srScore r = 100%Z <-> srIssues r = []) /\
  (forall i, In i (srIssues r) ->
             (srScore r <= 100 - penaltyOf (title i))%Z) /\
  length (srIssues r) <= 12.
Proof.
  intros H.
  destruct (performScan_ok _ H)
    as (u & finalUrl & dom & requests & shot & _ & _ & _ & _ & _ & _ & Es & Ei & _).
  rewrite Es, Ei.
  set (fp := finalProtocolOf finalUrl). set (d := readPageData dom).
  set (g := interceptRequests requests).
  destruct (audit_scored fp d g) as [Hs Hp].
  split; [exact Hs|]. split; [|split; [|split]].
  - rewrite Hs. lia.
  - split.
    + intros E. destruct (snd (audit fp d g)) as [|i l]; [reflexivity|].
      cbn [length] in Hp. lia.
    + intros E. rewrite Hs, E. reflexivity.
  - intros i Hi. apply totalPenalty_In in Hi.
    assert (penaltyOf (title i) <= 40)%Z by (destruct (title i); simpl; lia).
    rewrite Hs. lia.
  - apply audit_length.
Qed.

(** X20. A scan reports the missing encryption exactly when the protocol
    of the final URL is not [https:], a final URL that does not parse
    counting as [http:]. The issue is then the first of the list, and the
    score is at most 60. No other issue is on security. *)
Theorem unencrypted_final_url_reported (inputUrl : string) (r : ScanResult) :
  performScan w inputUrl = inr r ->
  let noSsl := buildIssue Security High NoSsl in
  (finalProtocolOf (srFinalUrl r) <> "https:" ->
   hd_error (srIssues r) = Some noSsl /\ (srScore r <= 60)%Z) /\
  (finalProtocolOf (srFinalUrl r) = "https:" ->
   forall i, In i (srIssues r) -> category i <> Security) /\
  (new_URL (srFinalUrl r) None = None ->
   hd_error (srIssues r) = Some noSsl).
Proof.
  intros H noSsl.
  destruct (performScan_ok _ H)
    as (u & finalUrl & dom & requests & shot & _ & _ & _ & _ & _ & Ef & Es & Ei & _).
  rewrite Ef, Es, Ei.
  set (d := readPageData dom). set (g := interceptRequests requests).
  destruct (audit_after_protocol (finalProtocolOf finalUrl) d g) as (l & El & Fl).
  destruct (audit_scored (finalProtocolOf finalUrl) d g) as [Hs _].
  assert (Hn : finalProtocolOf finalUrl <> "https:" ->
               hd_error (snd (audit (finalProtocolOf finalUrl) d g)) = Some noSsl /\
               (fst (audit (finalProtocolOf finalUrl) d g) <= 60)%Z).
  { intros Hp. apply String.eqb_neq in Hp. rewrite Hp in El. simpl in El.
    split; [now rewrite El|].
    assert (Hi : In noSsl (snd (audit (finalProtocolOf finalUrl) d g)))
      by (rewrite El; now left).
    apply totalPenalty_In in Hi. simpl in Hi. rewrite Hs. lia. }
  split; [exact Hn|]. split.
  - intros Hp i Hi.
    assert (Hb : negb (String.eqb (finalProtocolOf finalUrl) "https:") = false)
      by (rewrite Hp; reflexivity).
    rewrite Hb in El. unfold check in El. cbn [snd app] in El.
    rewrite El in Hi. rewrite Forall_forall in Fl. now apply Fl.
  - intros Hu. apply Hn. unfold finalProtocolOf. rewrite Hu. discriminate.
Qed.

(** X21. The tech stack of a scan names nothing twice, and only what
    [performScan] detects: at most the six names of [knownTech]. *)
Theorem techStack_known (inputUrl : string) (r : ScanResult) :
  performScan w inputUrl = inr r ->
  NoDup (srTechStack r) /\
  (forall x, In x (srTechStack r) -> In x knownTech) /\
  length (srTechStack r) <= 6.
Proof.
  intros H.
  destruct (performScan_ok _ H)
    as (u & finalUrl & dom & requests & shot & _ & _ & _ & _ & _ & _ & _ & _ & Et).
  rewrite Et. simpl pdTechStack.
  assert (Hk : forall x, In x (unique (detectTechStack
                 (JS.toLowerCase (orEmpty (innerHTML dom))))) -> In x knownTech).
  { intros x Hx. apply (proj1 (In_unique _ _)) in Hx.
    exact (In_detectTechStack _ _ Hx). }
  split; [apply NoDup_unique|]. split; [exact Hk|].
  change 6 with (length knownTech).
  apply NoDup_incl_length; [apply NoDup_unique | exact Hk].
Qed.

End ScanFacts.

(** ** The routes *)

Section RouteFacts.
Context {P : URLParser}.

(** X22. Both routes answer an input that [normalizeUrl] rejects with
    status 400 and the message of [normalizeUrl], whatever the browser
    would do; and they answer a target whose navigation fails with status
    502. Their own timeouts give 502 as well. *)
Theorem rejected_input_is_400 (sw : ScanWorld) (cw : World)
    (fallback platformMessage inputUrl : string) (e : Error) :
  normalizeUrl inputUrl = inl e ->
  performScan sw inputUrl = inl e /\
  fst (deepCrawl cw inputUrl start) = inl e /\
  routeMessage fallback (messageOf e platformMessage)
  = messageOf e platformMessage /\
  statusOf (routeMessage fallback (messageOf e platformMessage)) = 400 /\
  statusOf (routeMessage fallback (messageOf SiteUnreachable platformMessage))
  = 502 /\
  statusOf (routeMessage fallback SCAN_TIMEOUT_MESSAGE) = 502 /\
  statusOf (routeMessage fallback HARVEST_TIMEOUT_MESSAGE) = 502.
Proof.
  intros H. split; [unfold performScan; now rewrite H|].
  split; [rewrite deepCrawl_unfold; unfold seedStage; now rewrite H|].
  assert (He : e = UrlRequired \/ e = InvalidUrl \/ e = ProtocolNotAllowed).
  { unfold normalizeUrl in H.
    destruct (JS.truthy (JS.trim inputUrl)); [|inversion H; auto].
    simpl in H.
    destruct (new_URL (withProtocol (JS.trim inputUrl)) None) as [u|];
      [|inversion H; auto].
    destruct (allowedProtocol (protocol u)); [discriminate|].
    inversion H; auto. }
  destruct He as [-> | [-> | ->]]; repeat split; reflexivity.
Qed.

End RouteFacts.

(** * Examples

    The crawl run on the sample sites, with the reference parser. *)

#[local] Existing Instance RefURL.parser.

Example parse_bare :
  RefURL.parse "https://example.com" None
  = Some (mkURL "https://example.com/" "https:" "example.com").
Proof. vm_compute. reflexivity. Qed.

Example parse_relative :
  RefURL.parse "/about/#team" (Some "https://example.com/x?y=1")
  = Some (mkURL "https://example.com/about/#team" "https:" "example.com").
Proof. vm_compute. reflexivity. Qed.

Example extractPhones_sample :
  extractPhones "Tel. 030 1234 5678, Fax 12345, +49 (30) 123-4567"
  = ["030 1234 5678"; "+49 (30) 123-4567"].
Proof. vm_compute. reflexivity. Qed.

Example extractEmails_sample :
  extractEmails "info@example.com, INFO@example.com; info@example.com."
  = ["info@example.com"; "INFO@example.com"].
Proof. vm_compute. reflexivity. Qed.

Example normalizeUrl_sample :
  normalizeUrl "  Example.com/a "
  = inr (mkURL "https://example.com/a" "https:" "example.com") /\
  normalizeUrl "   " = inl UrlRequired /\
  normalizeUrl "HTTP://example.com"
  = inr (mkURL "http://example.com/" "http:" "example.com").
Proof. vm_compute. auto. Qed.

(** The sample crawl: the home page and [/about] are reported, the visit
    of [/contact] fails and is not. *)
Example crawl_sample :
  Sample.run Sample.world "example.com"
  = (inr (Sample.reportOf Sample.world "example.com"),
     Sample.traceOf Sample.world "example.com") /\
  map rpUrl (pages (Sample.reportOf Sample.world "example.com"))
  = ["https://example.com/"; "https://example.com/about"] /\
  visited (Sample.traceOf Sample.world "example.com")
  = ["https://example.com/about"; "https://example.com/contact"] /\
  pagesVisited (metadata (Sample.reportOf Sample.world "example.com")) = 2 /\
  phones (globalInfo (Sample.reportOf Sample.world "example.com"))
  = ["030 1234 5678"; "123"; "+49 30 1234"] /\
  emails (globalInfo (Sample.reportOf Sample.world "example.com"))
  = ["info@example.com"].
Proof. vm_compute. repeat split. Qed.

(** The scenario of the specification: fifteen content links, two links to
    other hosts and three PDF files leave ten links in the queue, none of
    them to another host or to a PDF file. *)
Example scenario_sample :
  discoverLinks Sample.manyLinks
  = inr (map (fun l => "https://example.com" ++ l) Sample.internalLinks) /\
  subpageQueue "https://example.com/" (Sample.linksOf Sample.manyLinks)
  = map (fun l => "https://example.com" ++ l) (firstn 10 Sample.internalLinks).
Proof. vm_compute. auto. Qed.

(** A home page that links to itself under its own address: the link is
    cleaned to [https://example.com], which is neither the requested URL
    [https://example.com/] nor that URL followed by a slash, so that the
    home page is queued and visited a second time. *)
Example home_link_survives_filter :
  visited (Sample.traceOf Sample.logoWorld "example.com")
  = ["https://example.com"; "https://example.com/about"] /\
  map rpUrl (pages (Sample.reportOf Sample.logoWorld "example.com"))
  = ["https://example.com/"; "https://example.com/";
     "https://example.com/about"].
Proof. vm_compute. auto. Qed.

(** A subpage whose tab cannot be opened makes the crawl raise. *)
Example tab_failure_escapes :
  fst (Sample.run Sample.crashingWorld "example.com") = inl BrowserFailure.
Proof. vm_compute. reflexivity. Qed.

(** ** The theorems at the sample sites *)

(** C9 at an input with white space around it, capitals and no scheme. *)
Lemma normalizeUrl_spec_witness :
  normalizeUrl "  Example.com/a "
  = inr (mkURL "https://example.com/a" "https:" "example.com").
Proof.
  apply (proj2 (proj2 (proj2 (proj2 (normalizeUrl_spec "  Example.com/a "))))).
  vm_compute. repeat split; auto. discriminate.
Defined.



(** C2 at the sample site. *)
Lemma pages_length_bounds_witness :
  Sample.run Sample.world "example.com"
  = (inr (Sample.reportOf Sample.world "example.com"),
     Sample.traceOf Sample.world "example.com") /\
  length (pages (Sample.reportOf Sample.world "example.com")) = 2 /\
  1 <= length (pages (Sample.reportOf Sample.world "example.com")) <= 11.
Proof.
  assert (H1 : Sample.run Sample.world "example.com"
               = (inr (Sample.reportOf Sample.world "example.com"),
                  Sample.traceOf Sample.world "example.com"))
    by (vm_compute; reflexivity).
  split; [exact H1|]. split; [vm_compute; reflexivity|].
  exact (proj1 (pages_length_bounds Sample.world "example.com") _ _ H1).
Defined.



(** C4 at the sample site: two subpages are visited; [/about] loads and
    yields a record, the navigation of [/contact] fails. *)
Lemma pagesVisited_counts_records_witness :
  Sample.run Sample.world "example.com"
  = (inr (Sample.reportOf Sample.world "example.com"),
     Sample.traceOf Sample.world "example.com") /\
  visited (Sample.traceOf Sample.world "example.com")
  = ["https://example.com/about"; "https://example.com/contact"] /\
  openSubpage Sample.world "https://example.com/about" = Loaded Sample.about /\
  openSubpage Sample.world "https://example.com/contact" = NavigationFailed /\
  pagesVisited (metadata (Sample.reportOf Sample.world "example.com")) = 2 /\
  pagesVisited (metadata (Sample.reportOf Sample.world "example.com"))
  = 1 + length (filter (succeeded Sample.world)
                       (visited (Sample.traceOf Sample.world "example.com"))) /\
  pagesVisited (metadata (Sample.reportOf Sample.world "example.com"))
  < 1 + length (visited (Sample.traceOf Sample.world "example.com")).
Proof.
  assert (H1 : Sample.run Sample.world "example.com"
               = (inr (Sample.reportOf Sample.world "example.com"),
                  Sample.traceOf Sample.world "example.com"))
    by (vm_compute; reflexivity).
  assert (H2 : In "https://example.com/contact"
                  (visited (Sample.traceOf Sample.world "example.com")))
    by (vm_compute; auto).
  assert (H3 : failedVisit Sample.world "https://example.com/contact")
    by (left; vm_compute; reflexivity).
  split; [exact H1|]. split; [vm_compute; reflexivity|].
  split; [vm_compute; reflexivity|]. split; [vm_compute; reflexivity|].
  split; [vm_compute; reflexivity|].
  split; [exact (proj1 (proj2 (pagesVisited_counts_records Sample.world
                                 "example.com" H1)))|].
  exact (proj2 (proj2 (proj2 (pagesVisited_counts_records Sample.world
                                "example.com" H1)))
           (ex_intro _ "https://example.com/contact" (conj H2 H3))).
Defined.

(** C5 on the slow site: forty seconds have passed at the first test. *)
Lemma deadline_stops_batches_witness :
  seedStage Sample.slowWorld "example.com"
  = inr (mkURL "https://example.com/" "https:" "example.com",
         Sample.contentOf Sample.home, Sample.linksOf Sample.home,
         [mkSocial Facebook "https://www.facebook.com/example"]) /\
  (clock Sample.slowWorld 1 - clock Sample.slowWorld 0
   > HARVEST_TIMEOUT_MS - 10000)%Z /\
  exists r t,
    deepCrawl Sample.slowWorld "example.com" start = (inr r, t) /\
    length (pages r) = 1 /\ pagesVisited (metadata r) = 1 /\ visited t = [].
Proof.
  assert (H1 : seedStage Sample.slowWorld "example.com"
               = inr (mkURL "https://example.com/" "https:" "example.com",
                      Sample.contentOf Sample.home, Sample.linksOf Sample.home,
                      [mkSocial Facebook "https://www.facebook.com/example"]))
    by (vm_compute; reflexivity).
  assert (H2 : (clock Sample.slowWorld 1 - clock Sample.slowWorld 0
                > HARVEST_TIMEOUT_MS - 10000)%Z)
    by (vm_compute; reflexivity).
  split; [exact H1|]. split; [exact H2|].
  exact (proj1 (deadline_stops_batches Sample.slowWorld "example.com" H1) H2).
Defined.

(** C6, as the claim is worded, fails when the tab of a subpage cannot
    be opened: the input is accepted, the home page is loaded and
    extracted, [/about] is in the queue, its tab does not open, and the
    crawl raises an internal error, which is a failure neither of the
    input nor of the home page. *)
Lemma subpage_tab_failure_escapes :
  normalizeUrl "example.com"
  = inr (mkURL "https://example.com/" "https:" "example.com") /\
  seedStage Sample.crashingWorld "example.com"
  = inr (mkURL "https://example.com/" "https:" "example.com",
         Sample.contentOf Sample.home, Sample.linksOf Sample.home,
         [mkSocial Facebook "https://www.facebook.com/example"]) /\
  subpageQueue "https://example.com/" (Sample.linksOf Sample.home)
  = ["https://example.com/about"; "https://example.com/contact"] /\
  openSubpage Sample.crashingWorld "https://example.com/about" = TabFailed /\
  Sample.run Sample.crashingWorld "example.com"
  = (inl BrowserFailure,
     mkTrace 2 ["https://example.com/contact"]) /\
  kind BrowserFailure = Internal.
Proof. vm_compute. repeat split. Qed.

(** C6 (amended) at the sample site: the navigation of [/contact]
    fails. *)
Lemma subpage_failure_absorbed_witness :
  failedVisit Sample.world "https://example.com/contact" /\
  visitLink Sample.world "https://example.com/contact" = ok None /\
  contribution Sample.world "https://example.com/contact" = [].
Proof.
  assert (F : failedVisit Sample.world "https://example.com/contact")
    by (left; vm_compute; reflexivity).
  split; [exact F|].
  split; [exact (proj1 (subpage_failure_absorbed F))
         |exact (proj1 (proj2 (subpage_failure_absorbed F)))].
Defined.

(** C7, as the claim is worded, fails when the seed redirects to another
    host: the crawl target of [example.com] has the hostname
    [example.com], the seed page is loaded as [https://www.example.com/],
    and the one link that survives discovery has the hostname
    [www.example.com], while the link to the target's own host is
    dropped. *)
Lemma discovered_link_off_target_host :
  normalizeUrl "example.com"
  = inr (mkURL "https://example.com/" "https:" "example.com") /\
  seedPage Sample.wwwWorld "example.com" = Some Sample.wwwHome /\
  anchors Sample.wwwHome = [Some "/about"; Some "https://example.com/contact"] /\
  discoverLinks Sample.wwwHome = inr ["https://www.example.com/about"] /\
  option_map hostname (new_URL "https://www.example.com/about" None)
  = Some "www.example.com" /\
  "www.example.com" <> "example.com" /\
  visited (Sample.traceOf Sample.wwwWorld "example.com")
  = ["https://www.example.com/about"].
Proof. vm_compute. repeat split; auto. discriminate. Qed.

(** C7 (amended) at the sample home page. *)
Lemma discovered_links_same_host_witness :
  discoverLinks Sample.home
  = inr ["https://example.com/about"; "https://example.com/contact"] /\
  exists here,
    new_URL (locationHref Sample.home) None = Some here /\
    (forall link,
       In link ["https://example.com/about"; "https://example.com/contact"] ->
       discoveredFrom (locationHref Sample.home) (hostname here)
                      (anchors Sample.home) link /\
       (forall ext, In ext deniedExtensions ->
          JS.endsWith (JS.foldCase link) ("." ++ ext) = false)) /\
    length (subpageQueue "https://example.com/"
              ["https://example.com/about"; "https://example.com/contact"])
    <= 10 /\
    (forall link,
       In link (subpageQueue "https://example.com/"
                  ["https://example.com/about"; "https://example.com/contact"]) ->
       In link ["https://example.com/about"; "https://example.com/contact"]).
Proof.
  assert (H1 : discoverLinks Sample.home
               = inr ["https://example.com/about"; "https://example.com/contact"])
    by (vm_compute; reflexivity).
  split; [exact H1|].
  exact (discovered_links_same_host Sample.home "https://example.com/" H1).
Defined.

(** C8 at a page that holds the two spellings. *)
Lemma two_spellings_one_link_witness :
  discoverLinks Sample.twoSpellings = inr ["http://x.com/a"] /\
  In (Some "http://x.com/a/#frag") (anchors Sample.twoSpellings) /\
  In (Some "http://x.com/a") (anchors Sample.twoSpellings) /\
  count_occ string_dec ["http://x.com/a"] "http://x.com/a" = 1.
Proof.
  assert (H1 : discoverLinks Sample.twoSpellings = inr ["http://x.com/a"])
    by (vm_compute; reflexivity).
  assert (H2 : new_URL (locationHref Sample.twoSpellings) None
               = Some (mkURL "http://x.com/" "http:" "x.com"))
    by (vm_compute; reflexivity).
  assert (H3 : forall h, h = "http://x.com/a/#frag" \/ h = "http://x.com/a" ->
                 new_URL h (Some (locationHref Sample.twoSpellings))
                 = Some (mkURL h "http:" "x.com"))
    by (intros h [->| ->]; vm_compute; reflexivity).
  assert (H4 : In (Some "http://x.com/a/#frag") (anchors Sample.twoSpellings))
    by (vm_compute; auto).
  assert (H5 : In (Some "http://x.com/a") (anchors Sample.twoSpellings))
    by (vm_compute; auto).
  split; [exact H1|]. split; [exact H4|]. split; [exact H5|].
  exact (proj2 (proj2 (two_spellings_one_link Sample.twoSpellings H1 H2
                         eq_refl H3 H4 H5))).
Defined.

(** C10 at the sample site: the home page holds an anchor to [tel:123]. *)
Lemma anchor_contacts_unfiltered_witness :
  Sample.run Sample.world "example.com"
  = (inr (Sample.reportOf Sample.world "example.com"),
     Sample.traceOf Sample.world "example.com") /\
  seedPage Sample.world "example.com" = Some Sample.home /\
  In (Some "tel:123") (anchors Sample.home) /\
  In "123" (phones (globalInfo (Sample.reportOf Sample.world "example.com"))).
Proof.
  assert (H1 : Sample.run Sample.world "example.com"
               = (inr (Sample.reportOf Sample.world "example.com"),
                  Sample.traceOf Sample.world "example.com"))
    by (vm_compute; reflexivity).
  assert (H2 : seedPage Sample.world "example.com" = Some Sample.home)
    by (vm_compute; reflexivity).
  assert (H3 : In (Some "tel:123") (anchors Sample.home))
    by (vm_compute; auto 10).
  split; [exact H1|]. split; [exact H2|]. split; [exact H3|].
  destruct (anchor_contacts_unfiltered Sample.world "example.com" H1
              (or_introl H2)) as (content & _ & _ & _ & K & _).
  exact (proj2 (K H3)).
Defined.

(** ** The further properties at the samples *)

(** The reference parser gives what starts with [http://] or [https://]
    one of the two protocols. *)
Lemma RefURL_protocol_allowed (s : string) (u : URL) :
  hasHttpScheme s = true -> new_URL s None = Some u ->
  allowedProtocol (protocol u) = true.
Proof.
  intros _ H. simpl in H. unfold RefURL.parse, RefURL.absolute in H.
  destruct (JS.startsWith (JS.foldCase s) "https://").
  - unfold RefURL.afterScheme in H.
    destruct (RefURL.plainHost _ && RefURL.plainTail _); [|discriminate].
    injection H as <-. reflexivity.
  - destruct (JS.startsWith (JS.foldCase s) "http://"); [|discriminate].
    unfold RefURL.afterScheme in H.
    destruct (RefURL.plainHost _ && RefURL.plainTail _); [|discriminate].
    injection H as <-. reflexivity.
Qed.

(** X1 at a text with a phone number and a shorter run of digits. *)
Lemma extractPhones_sound_witness :
  In "030 1234 5678" (extractPhones "Tel. 030 1234 5678, Fax 12345") /\
  partOf "030 1234 5678" "Tel. 030 1234 5678, Fax 12345" /\
  8 <= digitCount "030 1234 5678" <= 16.
Proof.
  assert (H1 : In "030 1234 5678"
                  (extractPhones "Tel. 030 1234 5678, Fax 12345"))
    by (vm_compute; auto).
  split; [exact H1|].
  split; [exact (proj1 (extractPhones_sound _ _ H1))
         |exact (proj1 (proj2 (extractPhones_sound _ _ H1)))].
Defined.

(** X2 at the same text. *)
Lemma extractPhones_filter_keeps_all_witness :
  In "030 1234 5678"
     (Regex.matchAll phoneRegex "Tel. 030 1234 5678, Fax 12345") /\
  8 <= digitCount "030 1234 5678".
Proof.
  assert (H1 : In "030 1234 5678"
                  (Regex.matchAll phoneRegex "Tel. 030 1234 5678, Fax 12345"))
    by (vm_compute; auto).
  split; [exact H1|].
  exact (proj2 (extractPhones_filter_keeps_all
                  "Tel. 030 1234 5678, Fax 12345") _ H1).
Defined.

(** X3 at a text with one address. *)
Lemma extractEmails_sound_witness :
  In "info@example.com" (extractEmails "mail info@example.com today") /\
  partOf "info@example.com" "mail info@example.com today" /\
  count_occ ascii_dec (JS.chars "info@example.com") "@"%char = 1.
Proof.
  assert (H1 : In "info@example.com"
                  (extractEmails "mail info@example.com today"))
    by (vm_compute; auto).
  split; [exact H1|].
  split; [exact (proj1 (extractEmails_sound _ _ H1))
         |exact (proj1 (proj2 (extractEmails_sound _ _ H1)))].
Defined.

(** X4 at an input with two spaces before it and a line feed after it. *)
Lemma normalizeUrl_ignores_padding_witness :
  normalizeUrl ("  " ++ "Example.com/a" ++ JS.str ["010"%char])
  = normalizeUrl "Example.com/a".
Proof.
  assert (H1 : forallb JS.isWhiteSpace (JS.chars "  ") = true)
    by (vm_compute; reflexivity).
  assert (H2 : forallb JS.isWhiteSpace (JS.chars (JS.str ["010"%char])) = true)
    by (vm_compute; reflexivity).
  exact (proj1 (normalizeUrl_ignores_padding "  " (JS.str ["010"%char])
                  "Example.com/a" H1 H2)).
Defined.

(** X5 with the reference parser. *)
Lemma protocol_error_unreachable_witness :
  normalizeUrl "ftp://example.com" <> inl ProtocolNotAllowed.
Proof.
  exact (proj1 (proj2 (protocol_error_unreachable (P := RefURL.parser)
                         "ftp://example.com" RefURL_protocol_allowed))).
Defined.

(** X6 at the sample home page. *)
Lemma images_bounded_distinct_witness :
  extractPageContent Sample.home = inr (Sample.contentOf Sample.home) /\
  length (pcImages (Sample.contentOf Sample.home)) <= 10 /\
  NoDup (map imgUrl (pcImages (Sample.contentOf Sample.home))).
Proof.
  assert (H1 : extractPageContent Sample.home
               = inr (Sample.contentOf Sample.home))
    by (vm_compute; reflexivity).
  split; [exact H1|]. exact (images_bounded_distinct Sample.home H1).
Defined.

(** X7 at the sample home page. *)
Lemma images_largest_first_witness :
  extractPageContent Sample.home = inr (Sample.contentOf Sample.home) /\
  Sorted (fun a b => (imageArea b <= imageArea a)%N)
         (pcImages (Sample.contentOf Sample.home)).
Proof.
  assert (H1 : extractPageContent Sample.home
               = inr (Sample.contentOf Sample.home))
    by (vm_compute; reflexivity).
  split; [exact H1|]. exact (images_largest_first Sample.home H1).
Defined.

(** X8 at the largest image of the sample home page. *)
Lemma images_filtered_witness :
  In (mkImage "https://example.com/img/hero.jpg" "hero" 1200 800)
     (pcImages (Sample.contentOf Sample.home)) /\
  JS.endsWith (JS.toLowerCase "https://example.com/img/hero.jpg") ".svg"
  = false /\
  JS.startsWith "https://example.com/img/hero.jpg" "data:" = false.
Proof.
  assert (H1 : extractPageContent Sample.home
               = inr (Sample.contentOf Sample.home))
    by (vm_compute; reflexivity).
  assert (H2 : In (mkImage "https://example.com/img/hero.jpg" "hero" 1200 800)
                  (pcImages (Sample.contentOf Sample.home)))
    by (vm_compute; auto).
  split; [exact H2|].
  split; [exact (proj1 (images_filtered Sample.home _ H1 H2))
         |exact (proj1 (proj2 (images_filtered Sample.home _ H1 H2)))].
Defined.

(** X9 at the sample home page, whose text holds a run of three spaces. *)
Lemma content_bounded_spaced_witness :
  extractPageContent Sample.home = inr (Sample.contentOf Sample.home) /\
  pcContent (Sample.contentOf Sample.home)
  = "Call 030 1234 5678 or mail info@example.com" /\
  String.length (pcContent (Sample.contentOf Sample.home)) <= 3000 /\
  singleSpaced (JS.chars (pcContent (Sample.contentOf Sample.home))).
Proof.
  assert (H1 : extractPageContent Sample.home
               = inr (Sample.contentOf Sample.home))
    by (vm_compute; reflexivity).
  split; [exact H1|]. split; [vm_compute; reflexivity|].
  split; [exact (proj1 (content_bounded_spaced Sample.home H1))
         |exact (proj1 (proj2 (content_bounded_spaced Sample.home H1)))].
Defined.

(** X10 at the sample home page, which links to [/about] twice, once with
    a fragment. *)
Lemma discovered_links_distinct_witness :
  discoverLinks Sample.home
  = inr ["https://example.com/about"; "https://example.com/contact"] /\
  NoDup ["https://example.com/about"; "https://example.com/contact"].
Proof.
  assert (H1 : discoverLinks Sample.home
               = inr ["https://example.com/about"; "https://example.com/contact"])
    by (vm_compute; reflexivity).
  split; [exact H1|]. exact (proj1 (discovered_links_distinct Sample.home H1)).
Defined.

(** X11 at an anchor to a fragment of the page. *)
Lemma passed_over_anchor_ignored_witness :
  passedOver (Some "#top") = true /\
  discoverLinks (withAnchors Sample.home
                   ([Some "/about"] ++ Some "#top" :: [Some "/contact/"]))
  = discoverLinks (withAnchors Sample.home
                     ([Some "/about"] ++ [Some "/contact/"])).
Proof.
  assert (H1 : passedOver (Some "#top") = true) by (vm_compute; reflexivity).
  split; [exact H1|].
  exact (passed_over_anchor_ignored Sample.home [Some "/about"]
           [Some "/contact/"] (Some "#top") H1).
Defined.

(** X12 at the sample home page. *)
Lemma socials_distinct_witness :
  extractSocials Sample.home
  = inr [mkSocial Facebook "https://www.facebook.com/example"] /\
  NoDup (map socialUrl [mkSocial Facebook "https://www.facebook.com/example"]).
Proof.
  assert (H1 : extractSocials Sample.home
               = inr [mkSocial Facebook "https://www.facebook.com/example"])
    by (vm_compute; reflexivity).
  split; [exact H1|]. exact (proj1 (socials_distinct Sample.home H1)).
Defined.

(** X13 at the sample home page. *)
Lemma socials_marked_witness :
  extractSocials Sample.home
  = inr [mkSocial Facebook "https://www.facebook.com/example"] /\
  marked Facebook (JS.toLowerCase "https://www.facebook.com/example") = true.
Proof.
  assert (H1 : extractSocials Sample.home
               = inr [mkSocial Facebook "https://www.facebook.com/example"])
    by (vm_compute; reflexivity).
  assert (H2 : In (mkSocial Facebook "https://www.facebook.com/example")
                  [mkSocial Facebook "https://www.facebook.com/example"])
    by (left; reflexivity).
  split; [exact H1|].
  exact (proj1 (proj2 (socials_marked Sample.home _ H1 H2))).
Defined.

(** X14 at the sample site. *)
Lemma subpage_visits_bounded_witness :
  visited (Sample.traceOf Sample.world "example.com")
  = ["https://example.com/about"; "https://example.com/contact"] /\
  NoDup (visited (Sample.traceOf Sample.world "example.com")) /\
  length (visited (Sample.traceOf Sample.world "example.com")) <= MAX_PAGES.
Proof.
  split; [vm_compute; reflexivity|].
  split; [exact (proj1 (subpage_visits_bounded Sample.world "example.com"))
         |exact (proj1 (proj2 (subpage_visits_bounded Sample.world
                                 "example.com")))].
Defined.

(** X15 at a target that the sample world does not serve. *)
Lemma seed_failure_aborts_witness :
  seedStage Sample.world "example.org" = inl SiteUnreachable /\
  deepCrawl Sample.world "example.org" start
  = (inl SiteUnreachable, tick start).
Proof.
  assert (H1 : seedStage Sample.world "example.org" = inl SiteUnreachable)
    by (vm_compute; reflexivity).
  split; [exact H1|]. exact (proj1 (seed_failure_aborts Sample.world _ H1)).
Defined.

(** X16 at the sample site. *)
Lemma totalImages_counts_report_witness :
  Sample.run Sample.world "example.com"
  = (inr (Sample.reportOf Sample.world "example.com"),
     Sample.traceOf Sample.world "example.com") /\
  totalImages (metadata (Sample.reportOf Sample.world "example.com")) = 6 /\
  totalImages (metadata (Sample.reportOf Sample.world "example.com"))
  = list_sum (map (fun page => length (rpImages page))
                  (pages (Sample.reportOf Sample.world "example.com"))).
Proof.
  assert (H1 : Sample.run Sample.world "example.com"
               = (inr (Sample.reportOf Sample.world "example.com"),
                  Sample.traceOf Sample.world "example.com"))
    by (vm_compute; reflexivity).
  split; [exact H1|]. split; [vm_compute; reflexivity|].
  exact (proj1 (totalImages_counts_report Sample.world "example.com" H1)).
Defined.


(** X18 at the sample site. *)
Lemma report_page_order_witness :
  Sample.run Sample.world "example.com"
  = (inr (Sample.reportOf Sample.world "example.com"),
     Sample.traceOf Sample.world "example.com") /\
  map rpUrl (pages (Sample.reportOf Sample.world "example.com"))
  = locationHref Sample.home
    :: flat_map (landed Sample.world)
                (visited (Sample.traceOf Sample.world "example.com")) /\
  domain (Sample.reportOf Sample.world "example.com") = "example.com".
Proof.
  assert (H1 : Sample.run Sample.world "example.com"
               = (inr (Sample.reportOf Sample.world "example.com"),
                  Sample.traceOf Sample.world "example.com"))
    by (vm_compute; reflexivity).
  assert (H2 : normalizeUrl "example.com"
               = inr (mkURL "https://example.com/" "https:" "example.com"))
    by (vm_compute; reflexivity).
  assert (H3 : seedPage Sample.world "example.com" = Some Sample.home)
    by (vm_compute; reflexivity).
  split; [exact H1|].
  exact (report_page_order Sample.world "example.com" H1 H2 H3).
Defined.

(** X19 at the sample scan: eight issues, which cost 98 points. *)
Lemma score_matches_issues_witness :
  performScan ScanSample.world "example.com"
  = inr (ScanSample.resultOf ScanSample.world "example.com") /\
  srScore (ScanSample.resultOf ScanSample.world "example.com") = 2%Z /\
  srScore (ScanSample.resultOf ScanSample.world "example.com")
  = Z.max 0 (100 - totalPenalty
                     (srIssues (ScanSample.resultOf ScanSample.world
                                  "example.com"))).
Proof.
  assert (H1 : performScan ScanSample.world "example.com"
               = inr (ScanSample.resultOf ScanSample.world "example.com"))
    by (vm_compute; reflexivity).
  split; [exact H1|]. split; [vm_compute; reflexivity|].
  exact (proj1 (score_matches_issues ScanSample.world "example.com" H1)).
Defined.

(** X20 at the sample scan, which lands on an [http:] URL. *)
Lemma unencrypted_final_url_reported_witness :
  performScan ScanSample.world "example.com"
  = inr (ScanSample.resultOf ScanSample.world "example.com") /\
  finalProtocolOf (srFinalUrl (ScanSample.resultOf ScanSample.world
                                 "example.com")) <> "https:" /\
  hd_error (srIssues (ScanSample.resultOf ScanSample.world "example.com"))
  = Some (buildIssue Security High NoSsl) /\
  (srScore (ScanSample.resultOf ScanSample.world "example.com") <= 60)%Z.
Proof.
  assert (H1 : performScan ScanSample.world "example.com"
               = inr (ScanSample.resultOf ScanSample.world "example.com"))
    by (vm_compute; reflexivity).
  assert (H2 : finalProtocolOf (srFinalUrl (ScanSample.resultOf
                                              ScanSample.world "example.com"))
               <> "https:")
    by (vm_compute; discriminate).
  split; [exact H1|]. split; [exact H2|].
  exact (proj1 (unencrypted_final_url_reported ScanSample.world "example.com"
                  H1) H2).
Defined.

(** X21 at the sample scan. *)
Lemma techStack_known_witness :
  performScan ScanSample.world "example.com"
  = inr (ScanSample.resultOf ScanSample.world "example.com") /\
  srTechStack (ScanSample.resultOf ScanSample.world "example.com")
  = ["WordPress"; "Google Analytics"] /\
  NoDup (srTechStack (ScanSample.resultOf ScanSample.world "example.com")).
Proof.
  assert (H1 : performScan ScanSample.world "example.com"
               = inr (ScanSample.resultOf ScanSample.world "example.com"))
    by (vm_compute; reflexivity).
  split; [exact H1|]. split; [vm_compute; reflexivity|].
  exact (proj1 (techStack_known ScanSample.world "example.com" H1)).
Defined.

(** X22 at an input of white space only. *)
Lemma rejected_input_is_400_witness :
  normalizeUrl "   " = inl UrlRequired /\
  performScan ScanSample.world "   " = inl UrlRequired /\
  statusOf (routeMessage "Scan failed" (messageOf UrlRequired "")) = 400.
Proof.
  assert (H1 : normalizeUrl "   " = inl UrlRequired)
    by (vm_compute; reflexivity).
  split; [exact H1|].
  split; [exact (proj1 (rejected_input_is_400 ScanSample.world Sample.world
                          "Scan failed" "" "   " H1))
         |exact (proj1 (proj2 (proj2 (proj2
                   (rejected_input_is_400 ScanSample.world Sample.world
                      "Scan failed" "" "   " H1)))))].
Defined.

(** X23 at the sample home page, for its anchor to [/about#team]. *)
Lemma internal_anchor_discovered_witness :
  discoverLinks Sample.home
  = inr ["https://example.com/about"; "https://example.com/contact"] /\
  In (Some "/about#team") (anchors Sample.home) /\
  count_occ string_dec
    ["https://example.com/about"; "https://example.com/contact"]
    "https://example.com/about" = 1.
Proof.
  assert (H1 : discoverLinks Sample.home
               = inr ["https://example.com/about"; "https://example.com/contact"])
    by (vm_compute; reflexivity).
  assert (H2 : new_URL (locationHref Sample.home) None
               = Some (mkURL "https://example.com/" "https:" "example.com"))
    by (vm_compute; reflexivity).
  assert (H3 : In (Some "/about#team") (anchors Sample.home))
    by (vm_compute; auto 10).
  assert (H4 : passedOver (Some "/about#team") = false)
    by (vm_compute; reflexivity).
  assert (H5 : new_URL "/about#team" (Some (locationHref Sample.home))
               = Some (mkURL "https://example.com/about#team" "https:"
                             "example.com"))
    by (vm_compute; reflexivity).
  assert (H6 : isInternalUrl (locationHref Sample.home) "example.com"
                 "https://example.com/about#team" = true)
    by (vm_compute; reflexivity).
  assert (H7 : hasDeniedExtension (cleanUrl "https://example.com/about#team")
               = false)
    by (vm_compute; reflexivity).
  split; [exact H1|]. split; [exact H3|].
  exact (internal_anchor_discovered Sample.home "/about#team"
           (here := mkURL "https://example.com/" "https:" "example.com")
           (u := mkURL "https://example.com/about#team" "https:" "example.com")
           H1 H2 H3 H4 H5 H6 H7).
Defined.
